(** * Algorhythm: playlist DNA, scorer, session, neighborhood crawler, sonic twins

    A shallow embedding of the Python backend
    ([dna_builder.py], [scorer.py], [main.py], [neighborhood.py],
    [fetcher.py]).

    Conventions of the embedding.
    - Python floats are modelled by exact numbers: real numbers [R] where the
      code calls [sqrt] or [exp] (builder, scorer, cohesion report, twin
      matcher), rationals [Q] where it only adds, multiplies and divides (the
      crawler's relevance score).  Rounding error is outside the model, and
      so are overflow and infinities, except in [Binary64], which follows
      the Mahalanobis score of the scorer through overflow.  [NaN] is
      modelled where exact arithmetic produces it: [0/0] in the cosine
      distance and the square root of a negative number in the Mahalanobis
      distance.
    - A NumPy array of shape (9,) is a function from the nine features of
      [DNA_FEATURES] to numbers, a (9,9) array a function of two features; a
      sum over the array is a sum over [DNA_FEATURES], in its order.
    - A Python dict with a fixed set of keys is a record; a dict that is
      either [{"error": ...}] or a payload is a two-constructor type.
    - scikit-learn, NumPy's linear algebra and the network providers are
      interfaces ([Library], and the provider functions each operation takes):
      the code is verified against every implementation of them. *)

From Stdlib Require Import Reals Lra Lia ZArith QArith Qround Qabs.
From Stdlib Require Import String Ascii Bool DecimalString Decimal.
From Stdlib Require Import List Permutation Sorted.
From Stdlib Require Lqa.
Import ListNotations.

(* ================================================================== *)
(** * Part I.  The model *)
(* ================================================================== *)

(** ** Python and NumPy numerics *)

Module PyNum.
Local Open Scope R_scope.

(** Round to the nearest integer, ties to the even one: what Python's
    [round] and NumPy's [rint] do in exact arithmetic. *)
Definition round_half_even (x : R) : Z :=
  let f := Int_part x in
  let r := x - IZR f in
  if Rlt_dec r (1 / 2) then f
  else if Rlt_dec (1 / 2) r then (f + 1)%Z
  else if Z.even f then f else (f + 1)%Z.

(** [round(x, ndigits)]. *)
Definition py_round (x : R) (ndigits : nat) : R :=
  IZR (round_half_even (x * 10 ^ ndigits)) / 10 ^ ndigits.

(** The builtins [min(a, b)] and [max(a, b)]: the first argument is kept
    unless the second is strictly smaller (resp. larger). *)
Definition py_min (a b : R) : R := if Rlt_dec b a then b else a.
Definition py_max (a b : R) : R := if Rlt_dec a b then b else a.

(** [np.sum], [np.mean], [np.min] of a list of floats. *)
Definition np_sum (l : list R) : R := fold_right Rplus 0 l.
Definition np_mean (l : list R) : R := np_sum l / INR (length l).
Definition np_min (l : list R) : R :=
  match l with
  | [] => 0
  | x :: t => fold_left Rmin t x
  end.
Definition np_max (l : list R) : R :=
  match l with
  | [] => 0
  | x :: t => fold_left Rmax t x
  end.

(** A float that may be NaN. *)
Inductive npfloat : Type :=
| Fin (r : R)
| NaN.

Definition lift1 (f : R -> R) (x : npfloat) : npfloat :=
  match x with Fin a => Fin (f a) | NaN => NaN end.
Definition lift2 (f : R -> R -> R) (x y : npfloat) : npfloat :=
  match x, y with Fin a, Fin b => Fin (f a b) | _, _ => NaN end.

(** [np.sum] of an array that may hold NaN. *)
Definition npf_sum (l : list npfloat) : npfloat := fold_right (lift2 Rplus) (Fin 0) l.

(** [x < y]: false as soon as one side is NaN. *)
Definition flt (x y : npfloat) : bool :=
  match x, y with
  | Fin a, Fin b => if Rlt_dec a b then true else false
  | _, _ => false
  end.
(** [x >= y]. *)
Definition fge (x y : npfloat) : bool :=
  match x, y with
  | Fin a, Fin b => if Rle_dec b a then true else false
  | _, _ => false
  end.

Definition fmin (a b : npfloat) : npfloat := if flt b a then b else a.
Definition fmax (a b : npfloat) : npfloat := if flt a b then b else a.
Definition fround (x : npfloat) (ndigits : nat) : npfloat :=
  lift1 (fun a => py_round a ndigits) x.

(** [np.sqrt]: NaN on a negative argument. *)
Definition np_sqrt (x : npfloat) : npfloat :=
  match x with
  | Fin a => if Rlt_dec a 0 then NaN else Fin (sqrt a)
  | NaN => NaN
  end.

(** A float is in the closed unit interval; NaN is not. *)
Definition in_unit (x : npfloat) : Prop :=
  match x with Fin a => 0 <= a <= 1 | NaN => False end.

(** [str(n)] of an int. *)
Definition str_of_Z (z : Z) : string := NilZero.string_of_int (Z.to_int z).
Definition str_of_nat (n : nat) : string := str_of_Z (Z.of_nat n).

(** [list.sort(key=...)], a stable sort: [before a b] says that [a]'s key
    is strictly ahead of [b]'s.  An element is inserted in front of the
    sorted rest and moved right past the elements strictly ahead of it, so
    elements with equal keys keep their order. *)
Fixpoint insert_stable {A : Type} (before : A -> A -> bool) (x : A) (l : list A)
  : list A :=
  match l with
  | [] => [x]
  | y :: t => if before y x then y :: insert_stable before x t else x :: y :: t
  end.
Definition stable_sort {A : Type} (before : A -> A -> bool) (l : list A) : list A :=
  fold_right (insert_stable before) [] l.

(** The slice [l[:n]] for a Python int [n]: a negative [n] counts from the
    end. *)
Definition slice_to {A : Type} (l : list A) (n : Z) : list A :=
  if (n <? 0)%Z then firstn (length l - Z.to_nat (- n)) l
  else firstn (Z.to_nat n) l.

End PyNum.
Import PyNum.

(** ** dna_builder.py *)

Module DnaBuilder.
Local Open Scope R_scope.

(** The nine continuous features, in the order of [DNA_FEATURES]. *)
Inductive feature : Type :=
| danceability | energy | loudness | speechiness | acousticness
| instrumentalness | liveness | valence | tempo.

Definition DNA_FEATURES : list feature :=
  [danceability; energy; loudness; speechiness; acousticness;
   instrumentalness; liveness; valence; tempo].

Definition feature_eqb (a b : feature) : bool :=
  match a, b with
  | danceability, danceability | energy, energy | loudness, loudness
  | speechiness, speechiness | acousticness, acousticness
  | instrumentalness, instrumentalness | liveness, liveness
  | valence, valence | tempo, tempo => true
  | _, _ => false
  end.

Definition vec : Type := feature -> R.
Definition matrix : Type := feature -> feature -> R.

(** Sum over the nine positions of an array. *)
Definition sumF (g : feature -> R) : R := np_sum (map g DNA_FEATURES).
Definition np_dot (u v : vec) : R := sumF (fun f => u f * v f).
(** [np.dot(x, M)] and [np.dot(M, x)] for a 1-D [x] and a 2-D [M]. *)
Definition vec_mat (x : vec) (M : matrix) : vec :=
  fun j => sumF (fun i => x i * M i j).
Definition mat_vec (M : matrix) (x : vec) : vec :=
  fun i => sumF (fun j => M i j * x j).
Definition np_eye : matrix := fun i j => if feature_eqb i j then 1 else 0.

(** A row of the playlist DataFrame. *)
Record track_row : Type := {
  row_name : string;
  row_artist : string;
  row_id : string;
  row_features : feature -> R;
  row_key : Z;
  row_mode : Z
}.

Record DataFrame : Type := {
  df_columns : list string;
  df_rows : list track_row
}.

Definition df_len (df : DataFrame) : nat := length (df_rows df).
Definition has_column (c : string) (df : DataFrame) : bool :=
  existsb (String.eqb c) (df_columns df).

(** What the code uses of NumPy's random state, scikit-learn, pandas'
    correlation and [numpy.linalg].  An estimator built with
    [random_state=None] draws from the process-wide generator; one built
    with an integer seed draws from a fresh generator made from that seed.
    [PCA] on nine features runs its exact solver, which draws nothing, so
    [pca_fit] takes no generator; its variance ratios are [0/0 = NaN] on a
    sample without variance.  [linalg_inv] answers [None] when NumPy raises
    [LinAlgError]. *)
Class Library : Type := {
  rng_state : Type;
  RandomState : Z -> rng_state;
  IsolationForest : Type;
  iforest_fit : rng_state -> R -> nat -> list vec -> IsolationForest;
  score_samples : IsolationForest -> vec -> npfloat;
  PCA : Type;
  pca_fit : nat -> list vec -> PCA;
  explained_variance_ratio_ : PCA -> list npfloat;
  linalg_inv : matrix -> option matrix;
  linalg_pinv : matrix -> matrix;
  df_corr : list vec -> feature -> feature -> npfloat
}.

Definition check_random_state {L : Library} (seed : option Z) (global : rng_state)
  : rng_state :=
  match seed with
  | Some s => RandomState s
  | None => global
  end.

(** [StandardScaler]: per-feature mean and scale; a zero scale is replaced
    by 1. *)
Record StandardScaler : Type := {
  mean_ : vec;
  scale_ : vec
}.

Definition column (X : list vec) (f : feature) : list R := map (fun x => x f) X.
Definition col_mean (X : list vec) : vec := fun f => np_mean (column X f).
(** Sum of squared deviations from the mean, divided by [n - ddof]. *)
Definition col_var (ddof : nat) (X : list vec) : vec :=
  fun f =>
    np_sum (map (fun x => (x - col_mean X f) * (x - col_mean X f)) (column X f))
    / (INR (length X) - INR ddof).
Definition col_std (X : list vec) : vec := fun f => sqrt (col_var 1 X f).
Definition col_min (X : list vec) : vec := fun f => np_min (column X f).
Definition col_max (X : list vec) : vec := fun f => np_max (column X f).

Definition handle_zeros_in_scale (s : R) : R :=
  if Req_dec_T s 0 then 1 else s.
Definition scaler_fit (X : list vec) : StandardScaler :=
  {| mean_ := col_mean X;
     scale_ := fun f => handle_zeros_in_scale (sqrt (col_var 0 X f)) |}.
Definition scaler_transform (sc : StandardScaler) (x : vec) : vec :=
  fun f => (x f - mean_ sc f) / scale_ sc f.

(** [DataFrame.cov()]: the sample covariance (ddof = 1). *)
Definition df_cov (X : list vec) : matrix :=
  fun i j =>
    np_sum (map (fun x => (x i - col_mean X i) * (x j - col_mean X j)) X)
    / (INR (length X) - 1).

(** [np.cumsum]: the running sums; once NaN, always NaN. *)
Fixpoint np_cumsum_from (acc : npfloat) (l : list npfloat) : list npfloat :=
  match l with
  | [] => []
  | x :: t => lift2 Rplus acc x :: np_cumsum_from (lift2 Rplus acc x) t
  end.
Definition np_cumsum (l : list npfloat) : list npfloat := np_cumsum_from (Fin 0) l.

(** The order NumPy sorts and searches floats by: NaN comes after every
    number ([a < b || (b != b && a == a)]). *)
Definition np_less (a b : npfloat) : bool :=
  match a, b with
  | Fin x, Fin y => if Rlt_dec x y then true else false
  | Fin _, NaN => true
  | NaN, _ => false
  end.

(** [np.searchsorted(a, v)] (side "left"): NumPy's binary search between
    [min_idx] and [max_idx], whatever the array holds.  Every turn of its
    loop shrinks the range, so [length a] turns are enough (see
    [binsearch_left_turns]). *)
Fixpoint binsearch_left (turns : nat) (a : list npfloat) (v : npfloat)
    (min_idx max_idx : nat) : nat :=
  match turns with
  | O => min_idx
  | S turns =>
      if (min_idx <? max_idx)%nat then
        let mid_idx := (min_idx + (max_idx - min_idx) / 2)%nat in
        if np_less (nth mid_idx a NaN) v
        then binsearch_left turns a v (S mid_idx) max_idx
        else binsearch_left turns a v min_idx mid_idx
      else min_idx
  end.
Definition np_searchsorted (a : list npfloat) (v : npfloat) : nat :=
  binsearch_left (length a) a v 0 (length a).

(** [Series.value_counts().to_dict()]: each distinct value with its number
    of occurrences, the most frequent first. *)
Definition value_counts (l : list Z) : list (Z * nat) :=
  stable_sort (fun a b => (snd b <? snd a)%nat)
    (map (fun v => (v, count_occ Z.eq_dec l v)) (nodup Z.eq_dec l)).

(** The DNA dict. *)
Record DNA {L : Library} : Type := {
  playlist_name : option string;
  track_count : nat;
  feature_columns : list feature;
  scaler : StandardScaler;
  raw_mean_vector : vec;
  raw_std_vector : vec;
  raw_min_vector : vec;
  raw_max_vector : vec;
  mean_vector : vec;
  cov_matrix : matrix;
  inv_cov_matrix : matrix;
  isolation_forest : IsolationForest;
  pca : PCA;
  explained_variance : list npfloat;
  dims_for_90 : nat;
  corr_matrix : feature -> feature -> npfloat;
  key_distribution : list (Z * nat);
  mode_distribution : list (Z * nat)
}.

(** What [build_playlist_dna] returns: [{"error": msg}] or the DNA dict. *)
Inductive build_result {L : Library} : Type :=
| BuildError (msg : string)
| Built (d : DNA).

(** The keys of the returned dict. *)
Definition dna_keys : list string :=
  ["playlist_name"; "track_count"; "feature_columns"; "scaler";
   "raw_mean_vector"; "raw_std_vector"; "raw_min_vector"; "raw_max_vector";
   "mean_vector"; "cov_matrix"; "inv_cov_matrix"; "isolation_forest"; "pca";
   "explained_variance"; "dims_for_90"; "corr_matrix"; "key_distribution";
   "mode_distribution"]%string.
Definition result_keys {L : Library} (r : build_result) : list string :=
  match r with
  | BuildError _ => ["error"%string]
  | Built _ => dna_keys
  end.
(** ["error" in dna]. *)
Definition has_error {L : Library} (r : build_result) : bool :=
  existsb (String.eqb "error") (result_keys r).

Definition epsilon : R := 1 / 1000000.

(** [df[DNA_FEATURES]]: the feature columns, row by row. *)
Definition feature_data (df : DataFrame) : list vec := map row_features (df_rows df).

(** The regularised covariance of the normalised sample. *)
Definition regularized_cov (X : list vec) : matrix :=
  let normalized := map (scaler_transform (scaler_fit X)) X in
  fun i j => df_cov normalized i j + np_eye i j * epsilon.

(** What [np.linalg.inv] and, on a nonsingular matrix, [np.linalg.pinv]
    answer: [VI] with [C . VI = I]. *)
Definition is_inverse (C VI : matrix) : Prop :=
  forall (x : vec) (i : feature), mat_vec C (mat_vec VI x) i = x i.

(** [build_playlist_dna(df, playlist_name)], run while the process-wide
    generator is in state [global]. *)
Definition build_playlist_dna {L : Library} (global : rng_state)
    (df : DataFrame) (name : option string) : build_result :=
  if (df_len df <? 3)%nat then
    BuildError ("Need at least 3 tracks to build DNA. Got "
                ++ str_of_nat (df_len df) ++ ".")%string
  else
    let X := feature_data df in
    let sc := scaler_fit X in
    let normalized := map (scaler_transform sc) X in
    let cov := regularized_cov X in
    let inv_cov :=
      match linalg_inv cov with
      | Some m => m
      | None => linalg_pinv cov
      end in
    let iso_forest :=
      iforest_fit (check_random_state (Some 42%Z) global) (1 / 10) 100 normalized in
    let n_components := Nat.min (length DNA_FEATURES) (df_len df - 1) in
    let p := pca_fit n_components normalized in
    let ev := explained_variance_ratio_ p in
    let cumulative := np_cumsum ev in
    Built {|
      playlist_name := name;
      track_count := df_len df;
      feature_columns := DNA_FEATURES;
      scaler := sc;
      raw_mean_vector := col_mean X;
      raw_std_vector := col_std X;
      raw_min_vector := col_min X;
      raw_max_vector := col_max X;
      mean_vector := col_mean normalized;
      cov_matrix := cov;
      inv_cov_matrix := inv_cov;
      isolation_forest := iso_forest;
      pca := p;
      explained_variance := ev;
      dims_for_90 := (np_searchsorted cumulative (Fin (90 / 100)) + 1)%nat;
      corr_matrix := df_corr normalized;
      key_distribution :=
        if has_column "key" df then value_counts (map row_key (df_rows df)) else [];
      mode_distribution :=
        if has_column "mode" df then value_counts (map row_mode (df_rows df)) else []
    |}.

End DnaBuilder.
Import DnaBuilder.

(** ** scorer.py *)

Module Scorer.
Local Open Scope R_scope.

Definition N_FEATURES : nat := length DNA_FEATURES.

(** [d.get(key, default)] on an optional entry. *)
Definition dict_get {A : Type} (entry : option A) (default : A) : A :=
  match entry with
  | Some v => v
  | None => default
  end.

(** The feature dict of a candidate track. *)
Record song_features : Type := {
  song_name : option string;
  song_artist : option string;
  song_get : feature -> option R
}.

Definition np_clip (x lo hi : R) : R := Rmin (Rmax x lo) hi.

(** [scipy.spatial.distance.cosine]: [1 - u.v / sqrt(u.u * v.v)], clipped
    to [0, 2]; a zero vector on either side makes it [0/0]. *)
Definition scipy_cosine (u v : vec) : npfloat :=
  let uv := np_dot u v in
  let uu := np_dot u u in
  let vv := np_dot v v in
  if Req_dec_T (sqrt (uu * vv)) 0 then NaN
  else Fin (np_clip (1 - uv / sqrt (uu * vv)) 0 2).

(** [scipy.spatial.distance.mahalanobis]. *)
Definition scipy_mahalanobis (u v : vec) (VI : matrix) : npfloat :=
  let delta : vec := fun f => u f - v f in
  let m := np_dot (vec_mat delta VI) delta in
  np_sqrt (Fin m).

Inductive verdict : Type := ADD | MAYBE | REJECT.

Record score_report : Type := {
  sr_song : string;
  sr_artist : string;
  sr_playlist : option string;
  cosine_similarity : npfloat;
  mahalanobis_fit : npfloat;
  isolation_forest_score : npfloat;
  composite : npfloat;
  sr_weights : R * R * R;
  sr_verdict : verdict
}.

Definition weight_cosine : R := 0.30.
Definition weight_mahalanobis : R := 0.45.
Definition weight_isolation : R := 0.25.

(** Step 6 of [score_song]. *)
Definition decide (composite : npfloat) : verdict :=
  if fge composite (Fin 0.60) then ADD
  else if fge composite (Fin 0.40) then MAYBE
  else REJECT.

Definition score_song {L : Library} (song : song_features) (dna : DNA) : score_report :=
  let song_vector_raw : vec := fun f => dict_get (song_get song f) 0 in
  let normalized_song := scaler_transform (scaler dna) song_vector_raw in
  let raw_song := song_vector_raw in
  let raw_mean := raw_mean_vector dna in
  let mean_vector := mean_vector dna in
  let inv_cov := inv_cov_matrix dna in
  let cosine_dist := scipy_cosine raw_song raw_mean in
  let cosine_sim := lift2 Rminus (Fin 1) cosine_dist in
  let cosine_score := fround (fmax (Fin 0) (fmin (Fin 1) cosine_sim)) 4 in
  let maha_dist := scipy_mahalanobis normalized_song mean_vector inv_cov in
  let maha_score :=
    fround (lift1 (fun d => exp (- (d ^ 2) / (2 * INR N_FEATURES))) maha_dist) 4 in
  let iso_raw_score := score_samples (isolation_forest dna) normalized_song in
  let iso_score :=
    fround (fmax (Fin 0)
              (fmin (Fin 1) (lift1 (fun s => (s + 0.70) / 0.40) iso_raw_score))) 4 in
  let composite :=
    fround (lift2 Rplus
              (lift2 Rplus (lift1 (Rmult weight_cosine) cosine_score)
                           (lift1 (Rmult weight_mahalanobis) maha_score))
              (lift1 (Rmult weight_isolation) iso_score)) 4 in
  {| sr_song := dict_get (song_name song) "Unknown"%string;
     sr_artist := dict_get (song_artist song) "Unknown"%string;
     sr_playlist := playlist_name dna;
     cosine_similarity := cosine_score;
     mahalanobis_fit := maha_score;
     isolation_forest_score := iso_score;
     composite := composite;
     sr_weights := (weight_cosine, weight_mahalanobis, weight_isolation);
     sr_verdict := decide composite |}.

End Scorer.
Import Scorer.

(** ** main.py: the session and its endpoints *)

Module Session.
Local Open Scope R_scope.

(** [active_session]. *)
Record session {L : Library} : Type := {
  s_playlist_id : option string;
  s_playlist_name : option string;
  s_data : option DataFrame;
  s_dna : option DNA
}.

Definition initial_session {L : Library} : session :=
  {| s_playlist_id := None; s_playlist_name := None;
     s_data := None; s_dna := None |}.

(** What an endpoint does: return a body, or raise [HTTPException]. *)
Inductive http (A : Type) : Type :=
| Returned (body : A)
| HTTPException (status_code : Z) (detail : string).
Arguments Returned {A} body.
Arguments HTTPException {A} status_code detail.

(** The answer of [fetch_playlist_data] and of [fetch_track_features]. *)
Inductive playlist_fetch : Type :=
| FetchError (msg : string)
| Fetched (playlist_id playlist_name : string) (data : DataFrame).
Inductive track_fetch : Type :=
| TrackError (msg : string)
| TrackFeatures (song : song_features).

(** [df.to_dict(orient="records")] with the 1-based position added. *)
Definition records (df : DataFrame) : list (track_row * nat) :=
  combine (df_rows df) (seq 1 (df_len df)).

Inductive analyze_body : Type :=
| AnalyzeError (msg : string)
| Analyzed (playlist_name : string) (track_count : nat)
           (data : list (track_row * nat)).

Definition analyze_playlist {L : Library} (result : playlist_fetch) (s : session)
  : http analyze_body * session :=
  match result with
  | FetchError msg => (Returned (AnalyzeError msg), s)
  | Fetched pid pname df =>
      (Returned (Analyzed pname (df_len df) (records df)),
       {| s_playlist_id := Some pid; s_playlist_name := Some pname;
          s_data := Some df; s_dna := None |})
  end.

(** The validation loop of [exclude_tracks]: the detail of the first
    position out of range, or the 0-based indices to drop. *)
Definition out_of_range_detail (pos : Z) (n : nat) : string :=
  ("Position " ++ str_of_Z pos ++ " is out of range. Valid: 1-" ++ str_of_nat n)%string.
Fixpoint validate_positions (n : nat) (positions : list Z) : string + list Z :=
  match positions with
  | [] => inr []
  | pos :: rest =>
      if ((pos <? 1) || (pos >? Z.of_nat n))%Z then inl (out_of_range_detail pos n)
      else match validate_positions n rest with
           | inl detail => inl detail
           | inr indices => inr ((pos - 1)%Z :: indices)
           end
  end.

(** [df.drop(df.index[indices]).reset_index(drop=True)]. *)
Definition drop_rows (indices : list Z) (df : DataFrame) : DataFrame :=
  {| df_columns := df_columns df;
     df_rows :=
       map snd
         (filter (fun p => negb (existsb (Z.eqb (Z.of_nat (fst p))) indices))
                 (combine (seq 0 (df_len df)) (df_rows df))) |}.

Record exclude_body : Type := {
  ex_playlist_name : option string;
  excluded_count : nat;
  remaining_count : nat;
  ex_data : list (track_row * nat)
}.

Definition exclude_tracks {L : Library} (positions : list Z) (s : session)
  : http exclude_body * session :=
  match s_data s with
  | None => (HTTPException 404 "No active playlist. Run /analyze first.", s)
  | Some df =>
      let original_count := df_len df in
      match validate_positions (df_len df) positions with
      | inl detail => (HTTPException 400 detail, s)
      | inr indices_to_drop =>
          let filtered_df := drop_rows indices_to_drop df in
          (Returned {| ex_playlist_name := s_playlist_name s;
                       excluded_count := original_count - df_len filtered_df;
                       remaining_count := df_len filtered_df;
                       ex_data := records filtered_df |},
           {| s_playlist_id := s_playlist_id s;
              s_playlist_name := s_playlist_name s;
              s_data := Some filtered_df;
              s_dna := None |})
      end
  end.

(** The hand-tuned tables of [build_dna]. *)
Definition FEATURE_RANGES (f : feature) : R :=
  match f with
  | loudness => 60
  | tempo => 200
  | _ => 1
  end.
Definition baselines (f : feature) : R :=
  match f with
  | danceability => 0.55 | energy => 0.55 | loudness => -8
  | speechiness => 0.08 | acousticness => 0.30 | instrumentalness => 0.10
  | liveness => 0.18 | valence => 0.45 | tempo => 120
  end.

Record feature_stats : Type := {
  fp_mean : R; fp_std : R; fp_min : R; fp_max : R; fp_range : R
}.
Record conviction_detail : Type := {
  cd_feature : feature;
  cd_tightness : R;
  cd_identity : R;
  cd_conviction : R
}.

(** One turn of the conviction loop: tightness, identity and conviction
    of feature [f], then the entry appended to [conviction_details]. *)
Definition tightness_of (std : vec) (f : feature) : R :=
  let natural_range := FEATURE_RANGES f in
  let range_ratio := std f / natural_range in
  py_max 0 (1 - range_ratio * 3).
Definition identity_of (mean : vec) (f : feature) : R :=
  let natural_range := FEATURE_RANGES f in
  let deviation_abs := Rabs (mean f - baselines f) in
  py_min (deviation_abs / natural_range * 2.5) 1.
Definition conviction_of (mean std : vec) (f : feature) : R :=
  py_max (tightness_of std f) (identity_of mean f).
Definition conviction_entry (mean std : vec) (f : feature) : conviction_detail :=
  let tightness := tightness_of std f in
  let identity := identity_of mean f in
  let conviction := conviction_of mean std f in
  {| cd_feature := f;
     cd_tightness := py_round tightness 3;
     cd_identity := py_round identity 3;
     cd_conviction := py_round conviction 3 |}.

Definition conviction_details {L : Library} (dna : DNA) : list conviction_detail :=
  map (conviction_entry (raw_mean_vector dna) (raw_std_vector dna))
      (feature_columns dna).

Definition cohesion_score {L : Library} (dna : DNA) : R :=
  let avg_conviction := np_mean (map cd_conviction (conviction_details dna)) in
  py_round (avg_conviction * 100) 1.

(** The cohesion score in the words of the specification:
    tightness = clamp(1 - 3 (raw_std / natural_range), 0, 1),
    identity = clamp(|raw_mean - baseline| / natural_range x 2.5, 0, 1),
    conviction = max(tightness, identity), and the score is the mean of the
    nine convictions, times 100, rounded to 1 decimal. *)
Definition clamp (x lo hi : R) : R := Rmax lo (Rmin x hi).
Definition spec_tightness (raw_std : vec) (f : feature) : R :=
  clamp (1 - 3 * (raw_std f / FEATURE_RANGES f)) 0 1.
Definition spec_identity (raw_mean : vec) (f : feature) : R :=
  clamp (Rabs (raw_mean f - baselines f) / FEATURE_RANGES f * 2.5) 0 1.
Definition spec_conviction (raw_mean raw_std : vec) (f : feature) : R :=
  Rmax (spec_tightness raw_std f) (spec_identity raw_mean f).
Definition spec_cohesion_score {L : Library} (dna : DNA) : R :=
  py_round
    (np_mean (map (spec_conviction (raw_mean_vector dna) (raw_std_vector dna))
                  DNA_FEATURES) * 100) 1.
(** The same, with each conviction rounded to 3 decimals before the mean
    is taken. *)
Definition spec_cohesion_of_rounded {L : Library} (dna : DNA) : R :=
  py_round
    (np_mean (map (fun f => py_round (spec_conviction (raw_mean_vector dna)
                                                      (raw_std_vector dna) f) 3)
                  DNA_FEATURES) * 100) 1.

Record corr_pair : Type := {
  feature_a : feature;
  feature_b : feature;
  correlation : R;
  positive : bool
}.

(** The pairs [(i, j)], [i < j], of the double loop over feature indices. *)
Fixpoint upper_pairs (l : list feature) : list (feature * feature) :=
  match l with
  | [] => []
  | a :: t => map (pair a) t ++ upper_pairs t
  end.

Definition corr_pairs {L : Library} (dna : DNA) : list corr_pair :=
  let found :=
    flat_map
      (fun p =>
         match corr_matrix dna (fst p) (snd p) with
         | Fin r =>
             if Rlt_dec 0.3 (Rabs r) then
               [{| feature_a := fst p; feature_b := snd p;
                   correlation := py_round r 3;
                   positive := if Rlt_dec 0 r then true else false |}]
             else []
         | NaN => []
         end)
      (upper_pairs (feature_columns dna)) in
  stable_sort
    (fun a b => if Rlt_dec (Rabs (correlation b)) (Rabs (correlation a))
                then true else false)
    found.

Record dominant_trait : Type := {
  dt_feature : feature;
  dt_high : bool;
  dt_value : R;
  deviation_pct : R
}.

Definition dominant_traits {L : Library} (dna : DNA) : list dominant_trait :=
  let found :=
    flat_map
      (fun f =>
         let val := py_round (raw_mean_vector dna f) 4 in
         let baseline := baselines f in
         let deviation :=
           if feature_eqb f loudness then
             (if Req_dec_T baseline 0 then 0 else (baseline - val) / Rabs baseline)
           else
             (if Req_dec_T baseline 0 then 0 else (val - baseline) / baseline) in
         if Rlt_dec 0.15 (Rabs deviation) then
           [{| dt_feature := f;
               dt_high := if Rlt_dec 0 deviation then true else false;
               dt_value := val;
               deviation_pct := py_round (deviation * 100) 1 |}]
         else [])
      (feature_columns dna) in
  stable_sort
    (fun a b => if Rlt_dec (Rabs (deviation_pct b)) (Rabs (deviation_pct a))
                then true else false)
    found.

(** The body [build_dna] returns once the DNA is built. *)
Record dna_report : Type := {
  rep_playlist_name : option string;
  rep_track_count : nat;
  rep_features_used : list feature;
  rep_feature_profile : feature -> feature_stats;
  rep_mean_vector : vec;
  rep_std_vector : vec;
  rep_cohesion_score : R;
  rep_conviction_breakdown : list conviction_detail;
  rep_dims_for_90pct : nat;
  rep_total_dims : nat;
  rep_top3_explained_pct : npfloat;
  rep_correlated_features : list corr_pair;
  rep_dominant_traits : list dominant_trait;
  rep_key_distribution : list (Z * nat);
  rep_mode_distribution : list (Z * nat)
}.

Definition report_of {L : Library} (name : option string) (dna : DNA) : dna_report :=
  let mean := raw_mean_vector dna in
  let std := raw_std_vector dna in
  let mins := raw_min_vector dna in
  let maxs := raw_max_vector dna in
  {| rep_playlist_name := name;
     rep_track_count := track_count dna;
     rep_features_used := feature_columns dna;
     rep_feature_profile := fun f =>
       {| fp_mean := py_round (mean f) 4; fp_std := py_round (std f) 4;
          fp_min := py_round (mins f) 4; fp_max := py_round (maxs f) 4;
          fp_range := py_round (maxs f - mins f) 4 |};
     rep_mean_vector := fun f => py_round (mean f) 4;
     rep_std_vector := fun f => py_round (std f) 4;
     rep_cohesion_score := cohesion_score dna;
     rep_conviction_breakdown := conviction_details dna;
     rep_dims_for_90pct := dims_for_90 dna;
     rep_total_dims := length (feature_columns dna);
     rep_top3_explained_pct :=
       fround (lift1 (fun total => total * 100)
                     (npf_sum (firstn 3 (explained_variance dna)))) 1;
     rep_correlated_features := firstn 6 (corr_pairs dna);
     rep_dominant_traits := firstn 5 (dominant_traits dna);
     rep_key_distribution := key_distribution dna;
     rep_mode_distribution := mode_distribution dna |}.

Inductive build_dna_body : Type :=
| BuildDnaError (msg : string)
| BuildDnaReport (report : dna_report).

Definition build_dna {L : Library} (global : rng_state) (s : session)
  : http build_dna_body * session :=
  match s_data s with
  | None => (HTTPException 404 "No active playlist. Run /analyze first.", s)
  | Some df =>
      let playlist_name := s_playlist_name s in
      match build_playlist_dna global df playlist_name with
      | BuildError msg => (Returned (BuildDnaError msg), s)
      | Built dna =>
          (Returned (BuildDnaReport (report_of playlist_name dna)),
           {| s_playlist_id := s_playlist_id s;
              s_playlist_name := s_playlist_name s;
              s_data := s_data s;
              s_dna := Some dna |})
      end
  end.

Inductive score_body : Type :=
| ScoreError (msg : string)
| Scored (report : score_report).

Definition score_track {L : Library} (song_data : track_fetch) (s : session)
  : http score_body * session :=
  match s_dna s with
  | None => (HTTPException 404 "No DNA built yet. Run /build-dna first.", s)
  | Some dna =>
      match song_data with
      | TrackError msg => (Returned (ScoreError msg), s)
      | TrackFeatures song => (Returned (Scored (score_song song dna)), s)
      end
  end.

(** The stored descriptor is absent, or is what the builder makes of the
    stored track set and name. *)
Definition descriptor_current {L : Library} (s : session) : Prop :=
  match s_dna s with
  | None => True
  | Some d =>
      exists (df : DataFrame) (global : rng_state),
        s_data s = Some df
        /\ build_playlist_dna global df (s_playlist_name s) = Built d
  end.

(** A position outside [1..n]. *)
Definition out_of_range (n : nat) (pos : Z) : Prop :=
  (pos < 1 \/ pos > Z.of_nat n)%Z.

(** A request to the session, with what the outside world answers while it
    is served. *)
Inductive request {L : Library} : Type :=
| Analyze (result : playlist_fetch)
| Exclude (positions : list Z)
| BuildDna (global : rng_state)
| Score (song_data : track_fetch).

Definition handle {L : Library} (req : request) (s : session) : session :=
  match req with
  | Analyze result => snd (analyze_playlist result s)
  | Exclude positions => snd (exclude_tracks positions s)
  | BuildDna global => snd (build_dna global s)
  | Score song_data => snd (score_track song_data s)
  end.

(** The session after a sequence of requests, served one at a time. *)
Definition run {L : Library} (reqs : list request) : session :=
  fold_left (fun s req => handle req s) reqs initial_session.

End Session.
Import Session.

(** ** Python strings *)

Module PyStr.
Local Open Scope string_scope.

(** [s.split(c)] for a one-character separator: never empty. *)
Fixpoint split (c : ascii) (s : string) : list string :=
  match s with
  | EmptyString => [EmptyString]
  | String a rest =>
      if Ascii.eqb a c then EmptyString :: split c rest
      else match split c rest with
           | h :: t => String a h :: t
           | [] => [String a EmptyString]
           end
  end.

(** [s.split("/")[-1].split("?")[0]]: the identifier at the end of a URL. *)
Definition id_of_url (url : string) : string :=
  hd EmptyString (split "?" (last (split "/" url) EmptyString)).

(** [s.lower()], on ASCII letters. *)
Definition lower_ascii (a : ascii) : ascii :=
  let n := nat_of_ascii a in
  if ((65 <=? n) && (n <=? 90))%nat then ascii_of_nat (n + 32) else a.
Fixpoint lower (s : string) : string :=
  match s with
  | EmptyString => EmptyString
  | String a rest => String (lower_ascii a) (lower rest)
  end.

(** [s.replace(old, "")] for a non-empty [old]: occurrences are removed from
    left to right, without overlap; [skip] counts the characters of the
    occurrence still to be dropped. *)
Fixpoint remove_from (old : string) (skip : nat) (s : string) : string :=
  match s with
  | EmptyString => EmptyString
  | String a rest =>
      match skip with
      | S k => remove_from old k rest
      | O =>
          if prefix old s then remove_from old (String.length old - 1) rest
          else String a (remove_from old 0 rest)
      end
  end.
Definition remove_all (old s : string) : string := remove_from old 0 s.

(** The one-character string holding a double quote. *)
Definition dquote : string := String (ascii_of_nat 34) EmptyString.

Definition mem (x : string) (l : list string) : bool := existsb (String.eqb x) l.

End PyStr.
Import PyStr.

(** ** neighborhood.py: the crawler *)

Module Neighborhood.
Local Open Scope Q_scope.

(** An artist object of the catalogue; optional entries are read with
    [.get(key, default)]. *)
Record artist_obj : Type := {
  a_id : string;
  a_name : string;
  a_genres : option (list string);
  a_popularity : option Z;
  a_followers : option Z;
  a_images : list string
}.

Record top_track : Type := {
  t_id : string;
  t_name : string;
  t_artist : string
}.

(** One entry of Reccobeats' [content]. *)
Record audio_features : Type := {
  af_get : feature -> option R;
  af_href : option string
}.
Record reccobeats_response : Type := {
  status_code : Z;
  content : list audio_features
}.

(** The catalogue client [sp] and the feature service.  [inl e] and [None]
    stand for a raised exception ([e] is its text). *)
Class Providers : Type := {
  sp_artist : string -> string + artist_obj;
  sp_search : string -> option (list artist_obj);
  sp_track : string -> string + top_track;
  sp_artist_top_tracks : string -> option (list top_track);
  requests_get : list string -> reccobeats_response
}.

Record root_artist : Type := {
  root_id : string;
  root_name : string;
  root_genres : list string;
  root_popularity : Z;
  root_followers : Z;
  root_image : option string
}.

Record candidate : Type := {
  c_id : string;
  c_name : string;
  c_genres : list string;
  c_popularity : Z;
  c_followers : Z;
  c_image : option string;
  matched_genre : string;
  relevance_score : Q
}.

Inductive neighborhood_result : Type :=
| NeighborhoodError (msg : string)
| Neighborhood (root : root_artist) (neighbors : list candidate) (total_found : nat).

(** [round(q, ndigits)] on a rational. *)
Definition Qround_half_even (q : Q) : Z :=
  let f := Qfloor q in
  match Qcompare (q - inject_Z f) (1 # 2) with
  | Lt => f
  | Gt => (f + 1)%Z
  | Eq => if Z.even f then f else (f + 1)%Z
  end.
Definition Qpy_round (q : Q) (ndigits : nat) : Q :=
  inject_Z (Qround_half_even (q * inject_Z (10 ^ Z.of_nat ndigits)))
  / inject_Z (10 ^ Z.of_nat ndigits).

Definition genre_query (genre : string) : string :=
  ("genre:" ++ dquote ++ genre ++ dquote)%string.

Definition genre_keywords : list (string * list string) :=
  [("rap", ["hip hop"; "trap"; "r&b"]);
   ("pop", ["dance pop"; "electropop"; "indie pop"]);
   ("rock", ["alternative rock"; "indie rock"; "punk"]);
   ("hip hop", ["rap"; "trap"; "conscious hip hop"]);
   ("r&b", ["neo soul"; "contemporary r&b"; "hip hop"]);
   ("trap", ["rap"; "hip hop"; "drill"]);
   ("indie", ["alternative"; "indie rock"; "indie pop"])]%string.

Fixpoint keywords_of (table : list (string * list string)) (genre : string)
  : list string :=
  match table with
  | [] => []
  | (g, kws) :: rest => if String.eqb g genre then kws else keywords_of rest genre
  end.

(** The three search strategies, in order. *)
Definition search_queries (genres : list string) (name : string) : list string :=
  map genre_query (firstn 3 genres)
  ++ [name]
  ++ flat_map (fun genre => map genre_query (keywords_of genre_keywords genre))
              (firstn 2 genres).

(** "Remove duplicates while preserving order". *)
Fixpoint unique_from (seen_queries : list string) (queries : list string)
  : list string :=
  match queries with
  | [] => []
  | q :: rest =>
      if mem q seen_queries then unique_from seen_queries rest
      else q :: unique_from (q :: seen_queries) rest
  end.
Definition unique_queries (queries : list string) : list string :=
  unique_from [] queries.

(** [len(set(a_genres) & set(genres))]. *)
Definition shared_genres (a_genres genres : list string) : nat :=
  length (nodup string_dec (filter (fun g => mem g genres) a_genres)).

Definition relevance (a_genres genres : list string) (a_pop pop : Z) : Q :=
  let genre_score :=
    inject_Z (Z.of_nat (shared_genres a_genres genres))
    / inject_Z (Z.of_nat (Nat.max (length genres) 1)) in
  let pop_distance := inject_Z (Z.abs (a_pop - pop)) / 100 in
  genre_score * 0.6 + (1 - pop_distance) * 0.4.

Definition candidate_of (query : string) (genres : list string) (pop : Z)
    (a : artist_obj) : candidate :=
  let a_pop := dict_get (a_popularity a) 0%Z in
  let a_genres := dict_get (a_genres a) [] in
  {| c_id := a_id a;
     c_name := a_name a;
     c_genres := a_genres;
     c_popularity := a_pop;
     c_followers := dict_get (a_followers a) 0%Z;
     c_image := hd_error (a_images a);
     matched_genre := remove_all dquote (remove_all ("genre:" ++ dquote) query);
     relevance_score := Qpy_round (relevance a_genres genres a_pop pop) 3 |}.

(** The inner loop over the artists of one result page.  The state is
    [(seen_ids, all_candidates)]. *)
Fixpoint scan_page (query : string) (genres : list string) (pop : Z)
    (artists : list artist_obj) (st : list string * list candidate)
  : list string * list candidate :=
  match artists with
  | [] => st
  | a :: rest =>
      let '(seen_ids, all_candidates) := st in
      if mem (a_id a) seen_ids then scan_page query genres pop rest st
      else
        let seen_ids := a_id a :: seen_ids in
        if (dict_get (a_popularity a) 0 <? 10)%Z then
          scan_page query genres pop rest (seen_ids, all_candidates)
        else
          scan_page query genres pop rest
            (seen_ids, all_candidates ++ [candidate_of query genres pop a])
  end.

(** The outer loop over the queries; a query whose search raises is
    skipped. *)
Fixpoint crawl {P : Providers} (genres : list string) (pop : Z)
    (queries : list string) (st : list string * list candidate)
  : list string * list candidate :=
  match queries with
  | [] => st
  | query :: rest =>
      match sp_search query with
      | None => crawl genres pop rest st
      | Some artists => crawl genres pop rest (scan_page query genres pop artists st)
      end
  end.

(** What the two loops keep true of [(seen_ids, all_candidates)]: the
    identifier the crawl started from has been seen, every candidate's
    identifier has been seen, no two candidates share one, none is the
    starting identifier, and every candidate reaches the popularity floor. *)
Definition crawl_invariant (artist_id : string)
    (st : list string * list candidate) : Prop :=
  In artist_id (fst st)
  /\ incl (map c_id (snd st)) (fst st)
  /\ NoDup (map c_id (snd st))
  /\ ~ In artist_id (map c_id (snd st))
  /\ Forall (fun c => (10 <= c_popularity c)%Z) (snd st).

Definition by_relevance_desc (a b : candidate) : bool :=
  if Qlt_le_dec (relevance_score b) (relevance_score a) then true else false.
Definition by_popularity_distance (pop : Z) (a b : candidate) : bool :=
  (Z.abs (c_popularity a - pop) <? Z.abs (c_popularity b - pop))%Z.

Definition build_artist_neighborhood {P : Providers} (artist_url : string)
    (max_artists : Z) : neighborhood_result :=
  let artist_id := id_of_url artist_url in
  match sp_artist artist_id with
  | inl e => NeighborhoodError ("Failed to fetch artist: " ++ e)
  | inr root_info =>
      let root :=
        {| root_id := a_id root_info;
           root_name := a_name root_info;
           root_genres := dict_get (a_genres root_info) [];
           root_popularity := dict_get (a_popularity root_info) 0%Z;
           root_followers := dict_get (a_followers root_info) 0%Z;
           root_image := hd_error (a_images root_info) |} in
      let genres :=
        match root_genres root with
        | [] => [lower (root_name root)]
        | gs => gs
        end in
      let seen_ids := [artist_id] in
      let pop := root_popularity root in
      let queries := unique_queries (search_queries genres (root_name root)) in
      let all_candidates := snd (crawl genres pop queries (seen_ids, [])) in
      let ranked := stable_sort by_relevance_desc all_candidates in
      let neighbors := slice_to ranked max_artists in
      let neighbors := stable_sort (by_popularity_distance pop) neighbors in
      Neighborhood root neighbors (length neighbors)
  end.

End Neighborhood.
Import Neighborhood.

(** ** neighborhood.py: the sonic twin matcher *)

Module SonicTwins.
Local Open Scope R_scope.

Record closest_track : Type := {
  ct_name : string;
  ct_distance : R
}.

Record twin : Type := {
  artist_id : string;
  artist_name : string;
  tw_genres : list string;
  tw_popularity : Z;
  tw_image : option string;
  avg_distance : R;
  min_distance : R;
  similarity_pct : R;
  tracks_analyzed : nat;
  closest_tracks : list closest_track
}.

Record target_info : Type := {
  tg_name : string;
  tg_artist : string;
  tg_track_id : string
}.

Inductive twins_result : Type :=
| TwinsError (msg : string)
| Twins (target : target_info) (twins : list twin) (total_compared : nat).

(** [np.array([feat.get(f, 0) for f in DNA_FEATURES])]. *)
Definition vector_of (feat : audio_features) : vec :=
  fun f => dict_get (af_get feat f) 0.

(** [np.linalg.norm] of a difference of two arrays. *)
Definition np_linalg_norm (v : vec) : R := sqrt (sumF (fun f => v f * v f)).
Definition distance (target_vector feat_vector : vec) : R :=
  np_linalg_norm (fun f => target_vector f - feat_vector f).

(** The name of the top track a feature entry belongs to. *)
Definition track_name_of (tracks : list top_track) (feat : audio_features) : string :=
  let spotify_url := dict_get (af_href feat) EmptyString in
  let feat_track_id := last (split "/" spotify_url) EmptyString in
  match filter (fun t => String.eqb (t_id t) feat_track_id) tracks with
  | m :: _ => t_name m
  | [] => "Unknown"%string
  end.

(** What the loop body computes for one neighbor once its feature entries
    are there. *)
Definition twin_of (target_vector : vec) (artist : candidate)
    (tracks : list top_track) (batch_content : list audio_features) : twin :=
  let distances := map (fun feat => distance target_vector (vector_of feat)) batch_content in
  let track_names :=
    map (fun feat =>
           {| ct_name := track_name_of tracks feat;
              ct_distance := py_round (distance target_vector (vector_of feat)) 4 |})
        batch_content in
  let avg_distance := np_mean distances in
  let min_distance := np_min distances in
  let similarity_pct := py_round (exp (- avg_distance / 100) * 100) 2 in
  {| artist_id := c_id artist;
     artist_name := c_name artist;
     tw_genres := c_genres artist;
     tw_popularity := c_popularity artist;
     tw_image := c_image artist;
     avg_distance := py_round avg_distance 4;
     min_distance := py_round min_distance 4;
     similarity_pct := similarity_pct;
     tracks_analyzed := length distances;
     closest_tracks :=
       firstn 3 (stable_sort
                   (fun a b => if Rlt_dec (ct_distance a) (ct_distance b)
                               then true else false)
                   track_names) |}.

(** One turn of the loop over the neighbors: [None] when the neighbor is
    skipped. *)
Definition compare_artist {P : Providers} (target_vector : vec) (artist : candidate)
  : option twin :=
  match sp_artist_top_tracks (c_id artist) with
  | None => None
  | Some top_tracks =>
      let tracks := firstn 5 top_tracks in
      match tracks with
      | [] => None
      | _ :: _ =>
          let track_ids := map t_id tracks in
          let batch_response := requests_get track_ids in
          if negb (status_code batch_response =? 200)%Z then None
          else
            match content batch_response with
            | [] => None
            | batch_content => Some (twin_of target_vector artist tracks batch_content)
            end
      end
  end.

(** The loop over the neighbors. *)
Fixpoint artist_distances {P : Providers} (target_vector : vec)
    (neighbor_artists : list candidate) : list twin :=
  match neighbor_artists with
  | [] => []
  | artist :: rest =>
      match compare_artist target_vector artist with
      | None => artist_distances target_vector rest
      | Some t => t :: artist_distances target_vector rest
      end
  end.

Definition find_sonic_twins {P : Providers} (track_url artist_url : string)
    (top_n : Z) : twins_result :=
  let track_id := id_of_url track_url in
  match sp_track track_id with
  | inl e => TwinsError ("Failed to fetch track: " ++ e)
  | inr track_info =>
      let target_name := t_name track_info in
      let target_artist := t_artist track_info in
      let response := requests_get [track_id] in
      if negb (status_code response =? 200)%Z then
        TwinsError ("Reccobeats returned " ++ str_of_Z (status_code response)
                    ++ " for target track")
      else
        match content response with
        | [] => TwinsError ("No audio features found for '" ++ target_name ++ "'")
        | target_features :: _ =>
            let target_vector := vector_of target_features in
            match build_artist_neighborhood artist_url 20 with
            | NeighborhoodError e =>
                TwinsError ("Failed to build neighborhood: " ++ e)
            | Neighborhood _ neighbor_artists _ =>
                match neighbor_artists with
                | [] => TwinsError "No neighboring artists found for comparison"
                | _ :: _ =>
                    let found := artist_distances target_vector neighbor_artists in
                    let sorted :=
                      stable_sort
                        (fun a b => if Rlt_dec (avg_distance a) (avg_distance b)
                                    then true else false)
                        found in
                    let twins := slice_to sorted top_n in
                    Twins {| tg_name := target_name; tg_artist := target_artist;
                             tg_track_id := track_id |}
                          twins (length found)
                end
            end
        end
  end.

End SonicTwins.
Import SonicTwins.

(** ** Stand-ins and sample data for the examples *)

Module Examples.
Local Open Scope R_scope.

(** A deterministic stand-in for the libraries, with fixed answers.  Its
    variance ratios are those of a sample whose features all move together
    (one component carries all of the variance).  Its
    [linalg_inv] answers with the inverse of [epsilon * I], which is the
    regularised covariance of a sample whose rows are all equal (see
    [flat_playlist_inverse]); the examples on other samples do not read the
    inverse. *)
Definition stub_library : Library :=
  {| rng_state := unit;
     RandomState := fun _ => tt;
     IsolationForest := unit;
     iforest_fit := fun _ _ _ _ => tt;
     score_samples := fun _ _ => Fin (-0.45);
     PCA := nat;
     pca_fit := fun n_components _ => n_components;
     explained_variance_ratio_ := fun n_components =>
       match n_components with
       | O => []
       | S k => Fin 1 :: repeat (Fin 0) k
       end;
     linalg_inv := fun _ => Some (fun i j => np_eye i j * 1000000);
     linalg_pinv := fun C => C;
     df_corr := fun _ _ _ => NaN |}.

Definition fetched_columns : list string :=
  ["name"; "artist"; "id"; "danceability"; "energy"; "key"; "loudness";
   "mode"; "speechiness"; "acousticness"; "instrumentalness"; "liveness";
   "valence"; "tempo"]%string.

Definition row_of (id : string) (features : feature -> R) : track_row :=
  {| row_name := id; row_artist := "artist"; row_id := id;
     row_features := features; row_key := 0; row_mode := 1 |}.

(** Three tracks with the same (all-zero) feature vector. *)
Definition flat_playlist : DataFrame :=
  {| df_columns := fetched_columns;
     df_rows := [row_of "t1" (fun _ => 0); row_of "t2" (fun _ => 0);
                 row_of "t3" (fun _ => 0)] |}.

(** Three tracks spread evenly around a centre: per feature the values
    are [centre - delta], [centre] and [centre + delta]. *)
Definition spread_centre (f : feature) : R :=
  match f with
  | danceability => 0.55 | energy => 0.55 | loudness => -12
  | speechiness => 0.2 | acousticness => 0.3 | instrumentalness => 0.2
  | liveness => 0.2 | valence => 0.45 | tempo => 120
  end.
Definition spread_delta (f : feature) : R :=
  match f with
  | danceability => 0.4976 / 3 | energy => 0.4976 / 3 | loudness => 10
  | tempo => 100 / 3
  | _ => 0.5 / 3
  end.
Definition spread_playlist : DataFrame :=
  {| df_columns := fetched_columns;
     df_rows := [row_of "lo" (fun f => spread_centre f - spread_delta f);
                 row_of "mid" spread_centre;
                 row_of "hi" (fun f => spread_centre f + spread_delta f)] |}.

(** The convictions of the spread playlist, feature by feature. *)
Definition spread_conviction (f : feature) : R :=
  match f with
  | danceability | energy => 0.5024
  | _ => 0.5
  end.

(** Two tracks only. *)
Definition short_playlist : DataFrame :=
  {| df_columns := fetched_columns;
     df_rows := [row_of "t1" (fun _ => 0); row_of "t2" (fun _ => 0)] |}.

Definition silent_song : song_features :=
  {| song_name := Some "s"%string; song_artist := None; song_get := fun _ => None |}.

(** A catalogue with one page of results, the same for every query: the
    root itself, an artist below the popularity floor and two neighbors.
    No artist has top tracks. *)
Definition artist_of (id : string) (genres : option (list string)) (pop : Z)
  : artist_obj :=
  {| a_id := id; a_name := id; a_genres := genres; a_popularity := Some pop;
     a_followers := None; a_images := [] |}.
Definition quiet_features : audio_features :=
  {| af_get := fun _ => None; af_href := None |}.
Definition small_catalogue : Providers :=
  {| sp_artist := fun id => inr (artist_of id (Some ["rap"%string]) 50);
     sp_search := fun _ =>
       Some [artist_of "A" (Some ["rap"%string]) 40; artist_of "R" None 50;
             artist_of "B" None 5; artist_of "C" None 55; artist_of "A" None 40];
     sp_track := fun id => inr {| t_id := id; t_name := "song"; t_artist := "R" |};
     sp_artist_top_tracks := fun _ => Some [];
     requests_get := fun _ => {| status_code := 200; content := [quiet_features] |} |}.

(** A catalogue that is asked for an artist by URI: the client resolves
    every lookup to the artist with identifier "XYZ", and every search page
    lists that artist and one other. *)
Definition uri_catalogue : Providers :=
  {| sp_artist := fun _ => inr (artist_of "XYZ" (Some ["rap"%string]) 50);
     sp_search := fun _ =>
       Some [artist_of "XYZ" (Some ["rap"%string]) 50; artist_of "A" None 40];
     sp_track := fun id => inr {| t_id := id; t_name := "song"; t_artist := "XYZ" |};
     sp_artist_top_tracks := fun _ => Some [];
     requests_get := fun _ => {| status_code := 200; content := [quiet_features] |} |}.

(** A feature entry that differs from [quiet_features] in one dimension,
    and a neighbor to attach entries to. *)
Definition dancing_features : audio_features :=
  {| af_get := fun f => match f with danceability => Some 1 | _ => None end;
     af_href := None |}.
Definition neighbor_A : candidate :=
  candidate_of "A" ["rap"%string] 50 (artist_of "A" (Some ["rap"%string]) 40).

(** The session once the flat playlist is loaded. *)
Definition loaded_session : @session stub_library :=
  @run stub_library [@Analyze stub_library (Fetched "p1" "Flat" flat_playlist)].

End Examples.
Import Examples.

(** ** main.py: the shape of a session *)

(** Identifier, name and table of the active session are set together. *)
Definition session_shape {L : Library} (s : session) : Prop :=
  (s_data s = None <-> s_playlist_id s = None)
  /\ (s_data s = None <-> s_playlist_name s = None).

(** ** fetcher.py *)

Module Fetcher.

(** [fetch_track_features]: the catalogue's name and artist of the track
    and the first feature entry of the feature service.  The dict returned
    is the feature entry with ["name"], ["artist"] (and ["id"]) set. *)
Definition fetch_track_features {P : Providers} (track_url : string) : track_fetch :=
  let track_id := id_of_url track_url in
  match sp_track track_id with
  | inl e => TrackError ("Could not fetch track: " ++ e)
  | inr track_info =>
      let track_name := t_name track_info in
      let track_artist := t_artist track_info in
      let response := requests_get [track_id] in
      if negb (status_code response =? 200)%Z then
        TrackError ("Reccobeats returned " ++ str_of_Z (status_code response)
                    ++ " for track " ++ track_id)
      else
        match content response with
        | [] => TrackError ("No audio features found for '" ++ track_name
                            ++ "' in Reccobeats database")
        | features :: _ =>
            TrackFeatures {| song_name := Some track_name;
                             song_artist := Some track_artist;
                             song_get := af_get features |}
        end
  end.

(** [range(0, stop, step)] for a positive [step]. *)
Definition range_step (stop step : nat) : list nat :=
  map (fun k => k * step)%nat (seq 0 ((stop + step - 1) / step)).

(** The batches of [fetch_playlist_data]:
    [track_ids[i:i + 20]] for [i] in [range(0, len(track_ids), 20)]. *)
Definition batches (track_ids : list string) : list (list string) :=
  map (fun i => firstn 20 (skipn i track_ids)) (range_step (length track_ids) 20).

End Fetcher.
Import Fetcher.

(** ** neighborhood.py: the playlists an artist is found on *)

Module DiscoveredOn.

(** A playlist object of a search page; optional entries are read with
    [.get(key, default)].  Every object is taken to carry its ["id"] and
    ["name"]. *)
Record owner_obj : Type := {
  o_id : option string;
  o_display_name : option string
}.
Record playlist_obj : Type := {
  p_id : string;
  p_name : string;
  p_owner : option owner_obj;
  p_description : option string;
  p_spotify_url : option string
}.

(** The playlist side of the catalogue client: the items of a playlist
    search (a [None] item is a null of the page), and the follower total of
    a playlist ([Some None] when the answer has no total).  An outer [None]
    stands for a raised exception. *)
Class PlaylistProviders : Type := {
  sp_search_playlists : string -> Z -> option (list (option playlist_obj));
  sp_playlist_followers : string -> option (option Z)
}.

(** The dict appended to [playlists] by the search loop. *)
Record found_playlist : Type := {
  pl_id : string;
  pl_name : string;
  pl_owner : string;
  pl_owner_id : string;
  pl_description : string;
  is_editorial : bool;
  pl_url : string
}.
(** The same dict once ["followers"] is set. *)
Record playlist_entry : Type := {
  pl_info : found_playlist;
  pl_followers : Z
}.

Inductive discovered_result : Type :=
| DiscoveredError (msg : string)
| Discovered (artist_id artist_name : string)
             (playlists entry_points : list playlist_entry) (total_found : nat).

Definition found_of (item : playlist_obj) : found_playlist :=
  let owner := dict_get (p_owner item) {| o_id := None; o_display_name := None |} in
  let owner_id := dict_get (o_id owner) EmptyString in
  {| pl_id := p_id item;
     pl_name := p_name item;
     pl_owner := dict_get (o_display_name owner) owner_id;
     pl_owner_id := owner_id;
     pl_description := dict_get (p_description item) EmptyString;
     is_editorial := String.eqb owner_id "spotify";
     pl_url := dict_get (p_spotify_url item) EmptyString |}.

(** The loop over the items of one page.  The state is
    [(seen_ids, playlists)]. *)
Fixpoint scan_items (items : list (option playlist_obj))
    (st : list string * list found_playlist) : list string * list found_playlist :=
  match items with
  | [] => st
  | None :: rest => scan_items rest st
  | Some item :: rest =>
      let '(seen_ids, playlists) := st in
      if mem (p_id item) seen_ids then scan_items rest st
      else scan_items rest (p_id item :: seen_ids, playlists ++ [found_of item])
  end.

(** The loop over the queries; a query whose search raises is skipped. *)
Fixpoint search_playlists {PP : PlaylistProviders} (limit : Z)
    (queries : list string) (st : list string * list found_playlist)
  : list string * list found_playlist :=
  match queries with
  | [] => st
  | query :: rest =>
      match sp_search_playlists query limit with
      | None => search_playlists limit rest st
      | Some items => search_playlists limit rest (scan_items items st)
      end
  end.

(** The follower loop: a lookup that raises counts as 0 followers. *)
Definition with_followers {PP : PlaylistProviders} (pl : found_playlist)
  : playlist_entry :=
  {| pl_info := pl;
     pl_followers :=
       match sp_playlist_followers (pl_id pl) with
       | Some full_playlist => dict_get full_playlist 0%Z
       | None => 0%Z
       end |}.

(** [key=lambda p: (p["is_editorial"], p["followers"]), reverse=True]:
    [a] is strictly ahead of [b] when its key is the larger tuple. *)
Definition by_authority (a b : playlist_entry) : bool :=
  match is_editorial (pl_info a), is_editorial (pl_info b) with
  | true, false => true
  | false, true => false
  | _, _ => (pl_followers b <? pl_followers a)%Z
  end.

Definition is_entry_point (p : playlist_entry) : bool :=
  is_editorial (pl_info p) || (1000 <? pl_followers p)%Z.

Definition get_discovered_on {P : Providers} {PP : PlaylistProviders}
    (artist_url : string) (limit : Z) : discovered_result :=
  let artist_id := id_of_url artist_url in
  match sp_artist artist_id with
  | inl e => DiscoveredError ("Failed to fetch artist: " ++ e)
  | inr artist_info =>
      let artist_name := a_name artist_info in
      let search_queries :=
        [artist_name; (artist_name ++ " mix")%string; (artist_name ++ " radio")%string] in
      let playlists := snd (search_playlists limit search_queries ([], [])) in
      let playlists := map with_followers playlists in
      let playlists := stable_sort by_authority playlists in
      let entry_points := firstn 10 (filter is_entry_point playlists) in
      Discovered artist_id artist_name playlists entry_points (length playlists)
  end.

(** The endpoint [/discovered-on] of main.py, which calls
    [get_discovered_on] with its default limit. *)
Definition discovered_on {P : Providers} {PP : PlaylistProviders} (url : string)
  : http discovered_result :=
  match get_discovered_on url 20 with
  | DiscoveredError e => HTTPException 400 e
  | result => Returned result
  end.

End DiscoveredOn.
Import DiscoveredOn.

(** ** More sample data *)

Module MoreExamples.
Local Open Scope R_scope.

(** The small catalogue, with one top track per artist and two feature
    entries per request. *)
Definition lively_catalogue : Providers :=
  {| sp_artist := fun id => inr (artist_of id (Some ["rap"%string]) 50);
     sp_search := fun _ =>
       Some [artist_of "A" (Some ["rap"%string]) 40; artist_of "R" None 50;
             artist_of "B" None 5; artist_of "C" None 55; artist_of "A" None 40];
     sp_track := fun id => inr {| t_id := id; t_name := "song"; t_artist := "R" |};
     sp_artist_top_tracks := fun id =>
       Some [{| t_id := id; t_name := "hit"; t_artist := id |}];
     requests_get := fun _ =>
       {| status_code := 200; content := [quiet_features; dancing_features] |} |}.

(** The stand-in libraries on a sample without variance: every variance
    ratio is [0/0]. *)
Definition zero_variance_library : Library :=
  {| rng_state := unit;
     RandomState := fun _ => tt;
     IsolationForest := unit;
     iforest_fit := fun _ _ _ _ => tt;
     score_samples := fun _ _ => Fin (-0.45);
     PCA := nat;
     pca_fit := fun n_components _ => n_components;
     explained_variance_ratio_ := fun n_components => repeat NaN n_components;
     linalg_inv := fun _ => Some (fun i j => np_eye i j * 1000000);
     linalg_pinv := fun C => C;
     df_corr := fun _ _ _ => NaN |}.

Definition playlist_of (id owner : string) : playlist_obj :=
  {| p_id := id; p_name := id;
     p_owner := Some {| o_id := Some owner; o_display_name := None |};
     p_description := None; p_spotify_url := None |}.

(** Every search answers with the same page: a null, a user playlist, an
    editorial one, and the user playlist again; follower totals are known
    for the user playlist only. *)
Definition playlist_catalogue : PlaylistProviders :=
  {| sp_search_playlists := fun _ _ =>
       Some [None; Some (playlist_of "u1" "someone");
             Some (playlist_of "e1" "spotify"); Some (playlist_of "u1" "someone")];
     sp_playlist_followers := fun id =>
       if String.eqb id "u1" then Some (Some 5000%Z) else None |}.

End MoreExamples.
Import MoreExamples.

(** ** scorer.py when a magnitude leaves the range of a double *)

Module Binary64.
Local Open Scope R_scope.

(** A double: a number, an infinity or NaN.  Rounding of a result that
    stays in range is left out, as elsewhere in this file; signed zeros are
    not told apart. *)
Inductive double : Type :=
| Num (r : R)
| PosInf
| NegInf
| NotANumber.

(** binary64 rounds every result of magnitude [2^1024] or more to an
    infinity. *)
Definition overflow : R := 2 ^ 1024.
Definition of_real (r : R) : double :=
  if Rle_dec overflow r then PosInf
  else if Rle_dec r (- overflow) then NegInf
  else Num r.

(** The sign of an infinity times, or divided by, a number. *)
Definition signed_inf (positive : bool) (a : R) : double :=
  if Rlt_dec 0 a then (if positive then PosInf else NegInf)
  else if Rlt_dec a 0 then (if positive then NegInf else PosInf)
  else NotANumber.

Definition dneg (x : double) : double :=
  match x with
  | Num a => Num (- a)
  | PosInf => NegInf
  | NegInf => PosInf
  | NotANumber => NotANumber
  end.
Definition dadd (x y : double) : double :=
  match x, y with
  | Num a, Num b => of_real (a + b)
  | NotANumber, _ | _, NotANumber => NotANumber
  | PosInf, NegInf | NegInf, PosInf => NotANumber
  | PosInf, _ | _, PosInf => PosInf
  | NegInf, _ | _, NegInf => NegInf
  end.
Definition dsub (x y : double) : double := dadd x (dneg y).
Definition dmul (x y : double) : double :=
  match x, y with
  | Num a, Num b => of_real (a * b)
  | NotANumber, _ | _, NotANumber => NotANumber
  | PosInf, Num a | Num a, PosInf => signed_inf true a
  | NegInf, Num a | Num a, NegInf => signed_inf false a
  | PosInf, PosInf | NegInf, NegInf => PosInf
  | PosInf, NegInf | NegInf, PosInf => NegInf
  end.
(** Division; a zero divisor counts as [+0]. *)
Definition ddiv (x y : double) : double :=
  match x, y with
  | NotANumber, _ | _, NotANumber => NotANumber
  | Num a, Num b =>
      if Req_dec_T b 0 then
        (if Rlt_dec 0 a then PosInf else if Rlt_dec a 0 then NegInf else NotANumber)
      else of_real (a / b)
  | Num _, (PosInf | NegInf) => Num 0
  | PosInf, Num b => if Rlt_dec b 0 then NegInf else PosInf
  | NegInf, Num b => if Rlt_dec b 0 then PosInf else NegInf
  | (PosInf | NegInf), (PosInf | NegInf) => NotANumber
  end.
Definition dsqrt (x : double) : double :=
  match x with
  | Num a => if Rlt_dec a 0 then NotANumber else Num (sqrt a)
  | PosInf => PosInf
  | NegInf | NotANumber => NotANumber
  end.
Definition dexp (x : double) : double :=
  match x with
  | Num a => of_real (exp a)
  | PosInf => PosInf
  | NegInf => Num 0
  | NotANumber => NotANumber
  end.
(** [round(x, ndigits)]: an infinity and NaN are returned as they are. *)
Definition dround (x : double) (ndigits : nat) : double :=
  match x with
  | Num a => Num (py_round a ndigits)
  | other => other
  end.
(** [x >= y]: false as soon as one side is NaN. *)
Definition dge (x y : double) : bool :=
  match x, y with
  | NotANumber, _ | _, NotANumber => false
  | Num a, Num b => if Rle_dec b a then true else false
  | PosInf, _ => true
  | _, NegInf => true
  | _, _ => false
  end.

Definition dvec : Type := feature -> double.
(** A sum over the nine positions of an array, in their order. *)
Definition dsumF (g : dvec) : double :=
  fold_left dadd (map g DNA_FEATURES) (Num 0).
Definition ddot (u v : dvec) : double := dsumF (fun f => dmul (u f) (v f)).
Definition dvec_mat (x : dvec) (M : matrix) : dvec :=
  fun j => dsumF (fun i => dmul (x i) (Num (M i j))).

(** Lines 24-35 and 43-47 of [score_song]: the candidate's vector, the
    scaler's [(x - mean_) / scale_], [mahalanobis] as SciPy computes it
    ([delta = u - v], [sqrt(dot(dot(delta, VI), delta))]) and the score
    [round(exp(-(dist ** 2) / (2 * N_FEATURES)), 4)], with no clamp. *)
Definition mahalanobis_fit64 {L : Library} (song : song_features) (dna : DNA) : double :=
  let song_vector_raw : dvec := fun f => Num (dict_get (song_get song f) 0) in
  let normalized_song : dvec :=
    fun f => ddiv (dsub (song_vector_raw f) (Num (mean_ (scaler dna) f)))
                  (Num (scale_ (scaler dna) f)) in
  let mean_vector : dvec := fun f => Num (mean_vector dna f) in
  let inv_cov := inv_cov_matrix dna in
  let delta : dvec := fun f => dsub (normalized_song f) (mean_vector f) in
  let m := ddot (dvec_mat delta inv_cov) delta in
  let maha_dist := dsqrt m in
  dround (dexp (ddiv (dneg (dmul maha_dist maha_dist)) (Num (2 * INR N_FEATURES)))) 4.

(** Lines 62-75 of [score_song]: the blend and the decision. *)
Definition composite64 (cosine_score maha_score iso_score : double) : double :=
  dround (dadd (dadd (dmul (Num weight_cosine) cosine_score)
                     (dmul (Num weight_mahalanobis) maha_score))
               (dmul (Num weight_isolation) iso_score)) 4.
Definition decide64 (composite : double) : verdict :=
  if dge composite (Num 0.60) then ADD
  else if dge composite (Num 0.40) then MAYBE
  else REJECT.

(** A score in the closed interval from 0 to 1. *)
Definition in_unit64 (x : double) : Prop :=
  match x with
  | Num a => 0 <= a <= 1
  | _ => False
  end.

End Binary64.
Import Binary64.

Module OverflowExample.
Local Open Scope R_scope.

(** Four tracks, two by two alike: energy and loudness move together, the
    other features are the same in every track. *)
Definition paired_features (energy_value loudness_value : R) : vec :=
  fun f =>
    match f with
    | danceability => 0.5 | energy => energy_value | loudness => loudness_value
    | speechiness => 0.0625 | acousticness => 0.25 | instrumentalness => 0
    | liveness => 0.125 | valence => 0.5 | tempo => 120
    end.
Definition paired_playlist : DataFrame :=
  {| df_columns := fetched_columns;
     df_rows := [row_of "a1" (paired_features 0.25 (-20));
                 row_of "a2" (paired_features 0.25 (-20));
                 row_of "b1" (paired_features 0.75 (-4));
                 row_of "b2" (paired_features 0.75 (-4))] |}.

(** The column means and the scales of the paired playlist. *)
Definition paired_mean (f : feature) : R :=
  match f with
  | danceability => 0.5 | energy => 0.5 | loudness => -12
  | speechiness => 0.0625 | acousticness => 0.25 | instrumentalness => 0
  | liveness => 0.125 | valence => 0.5 | tempo => 120
  end.
Definition paired_scale (f : feature) : R :=
  match f with energy => 0.25 | loudness => 8 | _ => 1 end.

(** The regularised covariance of that playlist, and its inverse. *)
Definition paired_covariance : matrix :=
  fun i j =>
    match i, j with
    | energy, energy | loudness, loudness => 4 / 3 + epsilon
    | energy, loudness | loudness, energy => 4 / 3
    | _, _ => np_eye i j * epsilon
    end.
Definition paired_inverse : matrix :=
  fun i j =>
    match i, j with
    | energy, energy | loudness, loudness => 4000003000000 / 8000003
    | energy, loudness | loudness, energy => - (4000000000000 / 8000003)
    | _, _ => np_eye i j * 1000000
    end.

(** The stand-in libraries, with the exact inverse of that covariance. *)
Definition exact_inverse_library : Library :=
  {| rng_state := unit;
     RandomState := fun _ => tt;
     IsolationForest := unit;
     iforest_fit := fun _ _ _ _ => tt;
     score_samples := fun _ _ => Fin (-0.45);
     PCA := nat;
     pca_fit := fun n_components _ => n_components;
     explained_variance_ratio_ := fun n_components =>
       match n_components with
       | O => []
       | S k => Fin 1 :: repeat (Fin 0) k
       end;
     linalg_inv := fun _ => Some paired_inverse;
     linalg_pinv := fun C => C;
     df_corr := fun _ _ _ => NaN |}.

(** The candidate's distance from the centre of the normalised sample, and
    that distance times the inverse covariance. *)
Definition huge_delta (f : feature) : R :=
  match f with
  | energy => 4e200 - 2
  | loudness => 7.5e200 + 1.5
  | _ => 0
  end.
Definition huge_weight (f : feature) : R :=
  match f with
  | energy => huge_delta energy * paired_inverse energy energy
              + huge_delta loudness * paired_inverse loudness energy
  | loudness => huge_delta energy * paired_inverse energy loudness
                + huge_delta loudness * paired_inverse loudness loudness
  | _ => 0
  end.

(** A candidate whose energy and loudness are finite but huge; its other
    features are those of the playlist. *)
Definition huge_song : song_features :=
  {| song_name := Some "huge"%string;
     song_artist := None;
     song_get := fun f => Some (paired_features 1e200 6e201 f) |}.

End OverflowExample.
Import OverflowExample.

(* ================================================================== *)
(** * Part II.  Properties *)
(* ================================================================== *)

(** Decides the comparisons and absolute values of a conviction computed
    on concrete numbers. *)
Ltac conviction_cases :=
  repeat match goal with
         | |- context [Rcase_abs ?a] => destruct (Rcase_abs a)
         | |- context [Rlt_dec ?a ?b] =>
             lazymatch a with context [Rlt_dec _ _] => fail | _ => idtac end;
             lazymatch b with context [Rlt_dec _ _] => fail | _ => idtac end;
             destruct (Rlt_dec a b)
         end;
  lra.

(** ** Rounding and clamping *)

Section Rounding.
Local Open Scope R_scope.

Lemma round_half_even_cases (x : R) :
  round_half_even x = Int_part x \/
  (round_half_even x = (Int_part x + 1)%Z /\ 1 / 2 <= x - IZR (Int_part x)).
Proof.
  unfold round_half_even.
  destruct (Rlt_dec (x - IZR (Int_part x)) (1 / 2)) as [Hlt | Hge]; [now left |].
  destruct (Rlt_dec (1 / 2) (x - IZR (Int_part x))); [right; split; [reflexivity | lra] |].
  destruct (Z.even (Int_part x)); [now left | right; split; [reflexivity | lra]].
Qed.

(** Rounding never leaves an interval with integer ends. *)
Lemma round_half_even_between (x : R) (lo hi : Z) :
  IZR lo <= x <= IZR hi -> (lo <= round_half_even x <= hi)%Z.
Proof.
  intros [Hlo Hhi].
  destruct (base_Int_part x) as [Hfl Hfr].
  assert (Hlof : (lo <= Int_part x)%Z).
  { assert (IZR lo < IZR (Int_part x + 1)) by (rewrite plus_IZR; lra).
    apply lt_IZR in H. lia. }
  destruct (round_half_even_cases x) as [-> | [-> Hhalf]].
  - split; [exact Hlof | apply le_IZR; lra].
  - split; [lia |].
    assert (IZR (Int_part x) < IZR hi) by lra.
    apply lt_IZR in H. lia.
Qed.

(** The nearest integer is the rounding, when it is strictly nearest. *)
Lemma round_half_even_near (x : R) (k : Z) :
  IZR k - 1 / 2 < x < IZR k + 1 / 2 -> round_half_even x = k.
Proof.
  intros [Hlo Hhi].
  destruct (base_Int_part x) as [Hfl Hfr].
  destruct (round_half_even_cases x) as [E | [E Hhalf]]; rewrite E.
  - unfold round_half_even in E.
    destruct (Rlt_dec (x - IZR (Int_part x)) (1 / 2)) as [Hlt | Hge].
    + assert (H1 : IZR (Int_part x) < IZR (k + 1)) by (rewrite plus_IZR; lra).
      assert (H2 : IZR (k - 1) < IZR (Int_part x)) by (rewrite minus_IZR; lra).
      apply lt_IZR in H1, H2. lia.
    + assert (H1 : IZR (Int_part x) < IZR k) by lra.
      assert (H2 : IZR (k - 2) < IZR (Int_part x)) by (rewrite minus_IZR; lra).
      apply lt_IZR in H1, H2.
      assert (Int_part x = k - 1)%Z by lia.
      destruct (Rlt_dec (1 / 2) (x - IZR (Int_part x))); [lia |].
      exfalso. rewrite H, minus_IZR in *. lra.
  - assert (H1 : IZR (Int_part x) < IZR k) by lra.
    assert (H2 : IZR (k - 2) < IZR (Int_part x)) by (rewrite minus_IZR; lra).
    apply lt_IZR in H1, H2. lia.
Qed.

Lemma round_half_even_IZR (k : Z) : round_half_even (IZR k) = k.
Proof. apply round_half_even_near. lra. Qed.

Lemma pow10_pos (n : nat) : 0 < 10 ^ n.
Proof. apply pow_lt. lra. Qed.

(** Rounding to [n] decimals keeps a number of the unit interval in it. *)
Lemma py_round_unit (x : R) (n : nat) : 0 <= x <= 1 -> 0 <= py_round x n <= 1.
Proof.
  intros [H0 H1]. unfold py_round.
  pose proof (pow10_pos n) as Hp.
  assert (Hb : (0 <= round_half_even (x * 10 ^ n) <= 10 ^ Z.of_nat n)%Z).
  { apply round_half_even_between. rewrite <- pow_IZR. split; nra. }
  destruct Hb as [Hb0 Hb1]. apply IZR_le in Hb0, Hb1.
  rewrite <- pow_IZR in Hb1.
  split.
  - apply Rmult_le_pos; [exact Hb0 | left; now apply Rinv_0_lt_compat].
  - apply Rmult_le_reg_r with (10 ^ n); [exact Hp |].
    unfold Rdiv. rewrite Rmult_assoc, Rinv_l by lra. lra.
Qed.

(** A number with at most [n] decimals is its own rounding. *)
Lemma py_round_exact (x : R) (n : nat) (k : Z) :
  x * 10 ^ n = IZR k -> py_round x n = x.
Proof.
  intros E. unfold py_round. rewrite E, round_half_even_IZR, <- E.
  pose proof (pow10_pos n). field. lra.
Qed.

Lemma py_round_near (x : R) (n : nat) (k : Z) :
  IZR k - 1 / 2 < x * 10 ^ n < IZR k + 1 / 2 -> py_round x n = IZR k / 10 ^ n.
Proof. intros H. unfold py_round. now rewrite (round_half_even_near _ k). Qed.

Lemma py_max_Rmax (a b : R) : py_max a b = Rmax a b.
Proof.
  unfold py_max, Rmax.
  destruct (Rlt_dec a b), (Rle_dec a b); try reflexivity; lra.
Qed.

Lemma py_min_Rmin (a b : R) : py_min a b = Rmin a b.
Proof.
  unfold py_min, Rmin.
  destruct (Rlt_dec b a), (Rle_dec a b); try reflexivity; lra.
Qed.

(** [max(0, min(1, x))] is in the unit interval whatever [x] is: a NaN is
    sent to 1. *)
Lemma clamp_in_unit (x : npfloat) : in_unit (fmax (Fin 0) (fmin (Fin 1) x)).
Proof.
  destruct x as [a |]; unfold fmin, fmax, flt; simpl.
  - destruct (Rlt_dec a 1); simpl.
    + destruct (Rlt_dec 0 a); simpl; lra.
    + destruct (Rlt_dec 0 1); simpl; lra.
  - destruct (Rlt_dec 0 1); simpl; lra.
Qed.

Lemma fround_in_unit (x : npfloat) (n : nat) : in_unit x -> in_unit (fround x n).
Proof. destruct x as [a |]; simpl; [apply py_round_unit | tauto]. Qed.

End Rounding.

(** ** Sums over the feature axis and over the sample *)

Section Sums.
Local Open Scope R_scope.

Lemma np_sum_map_plus {A : Type} (f g : A -> R) (l : list A) :
  np_sum (map (fun x => f x + g x) l) = np_sum (map f l) + np_sum (map g l).
Proof. induction l as [| a l IH]; simpl; [lra | rewrite IH; lra]. Qed.

Lemma np_sum_map_scal {A : Type} (c : R) (f : A -> R) (l : list A) :
  np_sum (map (fun x => c * f x) l) = c * np_sum (map f l).
Proof. induction l as [| a l IH]; simpl; [lra | rewrite IH; lra]. Qed.

Lemma np_sum_map_ext {A : Type} (f g : A -> R) (l : list A) :
  (forall x, f x = g x) -> np_sum (map f l) = np_sum (map g l).
Proof. intros E. induction l as [| a l IH]; simpl; [reflexivity | now rewrite E, IH]. Qed.

Lemma np_sum_map_nonneg {A : Type} (f : A -> R) (l : list A) :
  (forall x, 0 <= f x) -> 0 <= np_sum (map f l).
Proof.
  intros H. induction l as [| a l IH]; simpl; [lra | specialize (H a); lra].
Qed.

Lemma np_sum_map_zero {A : Type} (f : A -> R) (l : list A) :
  (forall x, In x l -> f x = 0) -> np_sum (map f l) = 0.
Proof.
  induction l as [| a l IH]; simpl; intros H; [reflexivity |].
  rewrite (H a), IH by auto. lra.
Qed.

Lemma sumF_ext (g h : feature -> R) : (forall f, g f = h f) -> sumF g = sumF h.
Proof. intros E. unfold sumF. now apply np_sum_map_ext. Qed.

Lemma sumF_plus (g h : feature -> R) :
  sumF (fun f => g f + h f) = sumF g + sumF h.
Proof. unfold sumF. apply np_sum_map_plus. Qed.

Lemma sumF_scal (c : R) (g : feature -> R) : sumF (fun f => c * g f) = c * sumF g.
Proof. unfold sumF. apply np_sum_map_scal. Qed.

Lemma sumF_nonneg (g : feature -> R) : (forall f, 0 <= g f) -> 0 <= sumF g.
Proof. unfold sumF. apply np_sum_map_nonneg. Qed.

(** Exchange of a sum over the features with a sum over a list. *)
Lemma sumF_np_sum {A : Type} (g : feature -> A -> R) (l : list A) :
  sumF (fun f => np_sum (map (g f) l)) = np_sum (map (fun x => sumF (fun f => g f x)) l).
Proof.
  induction l as [| a l IH]; simpl.
  - unfold sumF. simpl. lra.
  - rewrite sumF_plus, IH. reflexivity.
Qed.

Lemma sumF_swap (g : feature -> feature -> R) :
  sumF (fun i => sumF (fun j => g i j)) = sumF (fun j => sumF (fun i => g i j)).
Proof. unfold sumF at 2 4. apply sumF_np_sum. Qed.

Lemma sumF_eye (i : feature) (g : feature -> R) :
  sumF (fun j => np_eye i j * g j) = g i.
Proof. destruct i; unfold sumF, np_eye; simpl; lra. Qed.

End Sums.

(** ** The regularised covariance is positive, and so is its inverse *)

Section Covariance.
Local Open Scope R_scope.

(** The quadratic form of a sum of outer products is a sum of squares. *)
Lemma outer_products_quadratic {A : Type} (d : A -> vec) (y : vec) (l : list A) :
  sumF (fun i => sumF (fun j => np_sum (map (fun x => d x i * d x j) l) * y j) * y i)
  = np_sum (map (fun x => np_dot (d x) y * np_dot (d x) y) l).
Proof.
  induction l as [| a l IH]; simpl.
  - unfold sumF. simpl. lra.
  - rewrite <- IH. unfold np_dot.
    rewrite <- sumF_scal, <- sumF_plus. apply sumF_ext. intros i.
    replace (sumF (fun j => (d a i * d a j + np_sum (map (fun x => d x i * d x j) l)) * y j))
      with (d a i * sumF (fun j => d a j * y j)
            + sumF (fun j => np_sum (map (fun x => d x i * d x j) l) * y j)).
    + lra.
    + rewrite <- sumF_scal, <- sumF_plus. apply sumF_ext. intros j. lra.
Qed.

Lemma df_cov_quadratic (X : list vec) (y : vec) :
  (2 <= length X)%nat ->
  0 <= sumF (fun i => sumF (fun j => df_cov X i j * y j) * y i).
Proof.
  intros Hn.
  assert (Hc : 0 < INR (length X) - 1).
  { apply le_INR in Hn. simpl in Hn. lra. }
  set (c := INR (length X) - 1) in *.
  set (d := fun (x : vec) (i : feature) => x i - col_mean X i).
  replace (sumF (fun i => sumF (fun j => df_cov X i j * y j) * y i))
    with (/ c * sumF (fun i => sumF (fun j =>
            np_sum (map (fun x => d x i * d x j) X) * y j) * y i)).
  - rewrite outer_products_quadratic.
    apply Rmult_le_pos; [left; now apply Rinv_0_lt_compat |].
    apply np_sum_map_nonneg. intros x. nra.
  - rewrite <- sumF_scal. apply sumF_ext. intros i.
    rewrite <- Rmult_assoc, <- sumF_scal. f_equal.
    apply sumF_ext. intros j.
    assert (E : forall a b, / c * (a * b) = a / c * b) by (intros; field; lra).
    apply E.
Qed.

(** The quadratic form of the matrix the builder inverts: that of the
    covariance of the normalised sample, plus [epsilon] times the squared
    norm. *)
Lemma regularized_cov_form (X : list vec) (y : vec) :
  np_dot (mat_vec (regularized_cov X) y) y
  = sumF (fun i =>
            sumF (fun j => df_cov (map (scaler_transform (scaler_fit X)) X) i j * y j)
            * y i)
    + epsilon * sumF (fun i => y i * y i).
Proof.
  unfold np_dot, mat_vec, regularized_cov.
  set (Z := map (scaler_transform (scaler_fit X)) X).
  rewrite <- sumF_scal, <- sumF_plus. apply sumF_ext. intros i.
  replace (sumF (fun j => (df_cov Z i j + np_eye i j * epsilon) * y j))
    with (sumF (fun j => df_cov Z i j * y j) + epsilon * y i); [lra |].
  rewrite <- (sumF_eye i y) at 1. rewrite <- sumF_scal, <- sumF_plus.
  apply sumF_ext. intros j. lra.
Qed.

(** It is never negative. *)
Lemma regularized_cov_quadratic (X : list vec) (y : vec) :
  (2 <= length X)%nat ->
  0 <= np_dot (mat_vec (regularized_cov X) y) y.
Proof.
  intros Hn. rewrite regularized_cov_form.
  assert (Hcov : 0 <= sumF (fun i =>
            sumF (fun j => df_cov (map (scaler_transform (scaler_fit X)) X) i j * y j)
            * y i)).
  { apply df_cov_quadratic. now rewrite length_map. }
  assert (0 <= sumF (fun i => y i * y i)) by (apply sumF_nonneg; intros; nra).
  unfold epsilon. nra.
Qed.

(** It is even positive away from zero, thanks to [epsilon * I]: the matrix
    is positive definite, hence nonsingular. *)
Lemma regularized_cov_positive_definite (X : list vec) (y : vec) (f : feature) :
  (2 <= length X)%nat ->
  y f <> 0 ->
  0 < np_dot (mat_vec (regularized_cov X) y) y.
Proof.
  intros Hn Hy. rewrite regularized_cov_form.
  assert (Hcov : 0 <= sumF (fun i =>
            sumF (fun j => df_cov (map (scaler_transform (scaler_fit X)) X) i j * y j)
            * y i)).
  { apply df_cov_quadratic. now rewrite length_map. }
  assert (Hsq : 0 < sumF (fun i => y i * y i)).
  { assert (Hf : 0 < y f * y f) by nra.
    assert (Hall : forall g, 0 <= y g * y g) by (intros; nra).
    pose proof (Hall danceability). pose proof (Hall energy).
    pose proof (Hall loudness). pose proof (Hall speechiness).
    pose proof (Hall acousticness). pose proof (Hall instrumentalness).
    pose proof (Hall liveness). pose proof (Hall valence). pose proof (Hall tempo).
    unfold sumF. simpl. destruct f; lra. }
  unfold epsilon. nra.
Qed.

(** Hence a right inverse of it has one too: the argument of the square
    root in the Mahalanobis distance is never negative. *)
Lemma inverse_quadratic (X : list vec) (VI : matrix) (delta : vec) :
  (2 <= length X)%nat ->
  is_inverse (regularized_cov X) VI ->
  0 <= np_dot (vec_mat delta VI) delta.
Proof.
  intros Hn Hinv.
  set (y := mat_vec VI delta).
  replace (np_dot (vec_mat delta VI) delta)
    with (np_dot (mat_vec (regularized_cov X) y) y).
  - now apply regularized_cov_quadratic.
  - unfold np_dot.
    transitivity (sumF (fun i => sumF (fun j => delta i * VI i j * delta j))).
    + apply sumF_ext. intros i. unfold y. rewrite Hinv.
      unfold mat_vec. rewrite <- sumF_scal. apply sumF_ext. intros j. lra.
    + rewrite sumF_swap. apply sumF_ext. intros j. unfold vec_mat.
      rewrite (Rmult_comm _ (delta j)), <- sumF_scal.
      apply sumF_ext. intros i. lra.
Qed.

End Covariance.

(** ** The builder *)

Section BuilderFacts.
Context {L : Library}.
Local Open Scope R_scope.

(** What a successful build says about its input and its fields. *)
Lemma build_playlist_dna_built (global : rng_state) (df : DataFrame)
    (name : option string) (d : DNA) :
  build_playlist_dna global df name = Built d ->
  (3 <= df_len df)%nat
  /\ track_count d = df_len df
  /\ feature_columns d = DNA_FEATURES
  /\ raw_mean_vector d = col_mean (feature_data df)
  /\ raw_std_vector d = col_std (feature_data df)
  /\ cov_matrix d = regularized_cov (feature_data df)
  /\ isolation_forest d
     = iforest_fit (RandomState 42) (1 / 10) 100
         (map (scaler_transform (scaler_fit (feature_data df))) (feature_data df)).
Proof.
  unfold build_playlist_dna.
  destruct (df_len df <? 3)%nat eqn:E; [discriminate |].
  intros H. injection H as <-. simpl.
  apply Nat.ltb_ge in E. repeat split; auto.
Qed.

(** The result does not depend on the state of the process-wide generator. *)
Lemma build_playlist_dna_global (g1 g2 : rng_state) (df : DataFrame)
    (name : option string) :
  build_playlist_dna g1 df name = build_playlist_dna g2 df name.
Proof. unfold build_playlist_dna. destruct (df_len df <? 3)%nat; reflexivity. Qed.

End BuilderFacts.

(** ** The scorer *)

Section ScorerFacts.
Context {L : Library}.
Local Open Scope R_scope.

Lemma in_unit_inv (x : npfloat) : in_unit x -> exists a, x = Fin a /\ 0 <= a <= 1.
Proof. destruct x as [a |]; simpl; [eauto | tauto]. Qed.

Lemma exp_neg_unit (t : R) : 0 <= t -> 0 <= exp (- t) <= 1.
Proof.
  intros Ht. split; [left; apply exp_pos |].
  destruct (Req_dec t 0) as [-> | Hne].
  - rewrite Ropp_0, exp_0. lra.
  - left. rewrite <- exp_0. apply exp_increasing. lra.
Qed.

(** The Mahalanobis score of any candidate against a matrix with a
    non-negative quadratic form. *)
Lemma mahalanobis_in_unit (u v : vec) (VI : matrix) :
  0 <= np_dot (vec_mat (fun f => u f - v f) VI) (fun f => u f - v f) ->
  in_unit
    (fround (lift1 (fun d => exp (- (d ^ 2) / (2 * INR N_FEATURES)))
                   (scipy_mahalanobis u v VI)) 4).
Proof.
  intros Hm. unfold scipy_mahalanobis, np_sqrt.
  destruct (Rlt_dec _ 0) as [Hneg | _]; [lra |].
  apply fround_in_unit. simpl.
  set (s := sqrt _).
  replace (- (s * (s * 1)) / (2 * (1 + 1 + 1 + 1 + 1 + 1 + 1 + 1 + 1)))
    with (- (s * s / 18)) by field.
  apply exp_neg_unit. nra.
Qed.

(** A weighted blend of three scores of the unit interval, rounded. *)
Lemma blend_in_unit (a b c : npfloat) :
  in_unit a -> in_unit b -> in_unit c ->
  in_unit
    (fround (lift2 Rplus
               (lift2 Rplus (lift1 (Rmult weight_cosine) a)
                            (lift1 (Rmult weight_mahalanobis) b))
               (lift1 (Rmult weight_isolation) c)) 4).
Proof.
  intros Ha Hb Hc.
  destruct (in_unit_inv a Ha) as (x & -> & Hx).
  destruct (in_unit_inv b Hb) as (y & -> & Hy).
  destruct (in_unit_inv c Hc) as (z & -> & Hz).
  apply fround_in_unit. simpl.
  unfold weight_cosine, weight_mahalanobis, weight_isolation. lra.
Qed.

(** In exact arithmetic, for every candidate feature vector (a missing
    feature counts as 0) and every DNA descriptor the builder returns, fitted
    with an inverse of the regularised covariance, the cosine, Mahalanobis,
    anomaly and composite scores of the score report all lie in the closed
    interval [0, 1]; none of them is NaN.  What becomes of the Mahalanobis
    score when a product leaves the range of a double is the matter of
    Part IV. *)
Lemma score_song_in_unit (global : rng_state) (df : DataFrame)
    (name : option string) (d : DNA) (song : song_features) :
  build_playlist_dna global df name = Built d ->
  is_inverse (cov_matrix d) (inv_cov_matrix d) ->
  in_unit (cosine_similarity (score_song song d))
  /\ in_unit (mahalanobis_fit (score_song song d))
  /\ in_unit (isolation_forest_score (score_song song d))
  /\ in_unit (composite (score_song song d)).
Proof.
  intros Hb Hinv.
  destruct (build_playlist_dna_built _ _ _ _ Hb) as (Hn & _ & _ & _ & _ & Hcov & _).
  rewrite Hcov in Hinv.
  assert (Hlen : (2 <= length (feature_data df))%nat).
  { unfold feature_data. rewrite length_map. unfold df_len in Hn. lia. }
  assert (Hc : in_unit (cosine_similarity (score_song song d))).
  { simpl. apply fround_in_unit, clamp_in_unit. }
  assert (Hm : in_unit (mahalanobis_fit (score_song song d))).
  { simpl. apply mahalanobis_in_unit. now apply (inverse_quadratic (feature_data df)). }
  assert (Hi : in_unit (isolation_forest_score (score_song song d))).
  { simpl. apply fround_in_unit, clamp_in_unit. }
  repeat split; try assumption.
  simpl composite. now apply blend_in_unit.
Qed.

Lemma decide_bands (c : R) :
  (decide (Fin c) = ADD <-> 0.60 <= c)
  /\ (decide (Fin c) = MAYBE <-> 0.40 <= c < 0.60)
  /\ (decide (Fin c) = REJECT <-> c < 0.40).
Proof.
  unfold decide, fge.
  destruct (Rle_dec 0.60 c), (Rle_dec 0.40 c);
    repeat split; intros; try discriminate; try reflexivity; lra.
Qed.

(** The stand-in inverse of the examples is an inverse of the covariance
    of the flat playlist. *)
Lemma flat_playlist_inverse :
  is_inverse (regularized_cov (feature_data flat_playlist))
             (fun i j => np_eye i j * 1000000).
Proof.
  assert (Hz : forall x f,
             scaler_transform (scaler_fit (feature_data flat_playlist)) x f
             = x f / scale_ (scaler_fit (feature_data flat_playlist)) f).
  { intros x f. unfold scaler_transform. f_equal.
    simpl. unfold col_mean, np_mean. simpl. lra. }
  assert (Hcov : forall i j,
             regularized_cov (feature_data flat_playlist) i j = np_eye i j * epsilon).
  { intros i j. unfold regularized_cov.
    replace (df_cov _ i j) with 0; [lra |].
    unfold df_cov. simpl map. rewrite !Hz. simpl.
    unfold col_mean, np_mean. simpl. rewrite !Hz. simpl. unfold Rdiv. lra. }
  intros x i. unfold mat_vec.
  rewrite (sumF_ext _ (fun j => np_eye i j * (epsilon * (1000000 * x j)))).
  - rewrite sumF_eye. unfold epsilon. lra.
  - intros j. rewrite Hcov.
    rewrite (sumF_ext _ (fun k => np_eye j k * (1000000 * x k))) by (intros; lra).
    rewrite sumF_eye. lra.
Qed.

End ScorerFacts.

(** C2. For every score report of the scorer (against a built descriptor,
    so that the composite is a number): the verdict is ADD exactly when
    composite >= 0.60, MAYBE exactly when 0.40 <= composite < 0.60, REJECT
    exactly when composite < 0.40.  The boundary values 0.60 and 0.40 fall
    in the higher band; 0.599999 and 0.399999 in the lower one. *)
Theorem score_song_verdict_bands {L : Library} (global : rng_state)
    (df : DataFrame) (name : option string) (d : DNA) (song : song_features) :
  build_playlist_dna global df name = Built d ->
  is_inverse (cov_matrix d) (inv_cov_matrix d) ->
  (exists c : R,
      composite (score_song song d) = Fin c
      /\ (sr_verdict (score_song song d) = ADD <-> 0.60 <= c)
      /\ (sr_verdict (score_song song d) = MAYBE <-> 0.40 <= c < 0.60)
      /\ (sr_verdict (score_song song d) = REJECT <-> c < 0.40))%R
  /\ decide (Fin 0.60) = ADD
  /\ decide (Fin 0.599999) = MAYBE
  /\ decide (Fin 0.40) = MAYBE
  /\ decide (Fin 0.399999) = REJECT.
Proof.
  intros Hbuilt Hinv. split.
  - destruct (score_song_in_unit global df name d song Hbuilt Hinv)
      as (_ & _ & _ & Hc).
    destruct (in_unit_inv _ Hc) as (c & Ec & _).
    exists c. split; [exact Ec |].
    change (sr_verdict (score_song song d))
      with (decide (composite (score_song song d))).
    rewrite Ec. apply decide_bands.
  - repeat split.
    + apply (decide_bands 0.60). lra.
    + apply (decide_bands 0.599999). lra.
    + apply (decide_bands 0.40). lra.
    + apply (decide_bands 0.399999). lra.
Qed.

Lemma score_song_verdict_witness :
  exists d : @DNA stub_library,
    @build_playlist_dna stub_library tt flat_playlist None = Built d
    /\ is_inverse (cov_matrix d) (inv_cov_matrix d)
    /\ (exists c : R,
           composite (score_song silent_song d) = Fin c
           /\ (sr_verdict (score_song silent_song d) = ADD <-> 0.60 <= c)
           /\ (sr_verdict (score_song silent_song d) = MAYBE <-> 0.40 <= c < 0.60)
           /\ (sr_verdict (score_song silent_song d) = REJECT <-> c < 0.40))%R.
Proof.
  eexists. split; [reflexivity |]. split; [exact flat_playlist_inverse |].
  exact (proj1 (@score_song_verdict_bands stub_library tt flat_playlist None _
                  silent_song eq_refl flat_playlist_inverse)).
Defined.

(** C3. A sample of fewer than 3 tracks makes the builder return the
    insufficient-samples error, a dict whose only key is "error"; a sample
    of at least 3 tracks makes it return a descriptor, without an "error"
    key, whose [track_count] is the size of the sample. *)
Theorem build_playlist_dna_needs_three_tracks {L : Library} (global : rng_state)
    (df : DataFrame) (name : option string) :
  ((df_len df < 3)%nat ->
     build_playlist_dna global df name
     = BuildError ("Need at least 3 tracks to build DNA. Got "
                   ++ str_of_nat (df_len df) ++ ".")%string
     /\ result_keys (build_playlist_dna global df name) = ["error"%string])
  /\ ((3 <= df_len df)%nat ->
        exists d : DNA,
          build_playlist_dna global df name = Built d
          /\ track_count d = df_len df
          /\ has_error (build_playlist_dna global df name) = false).
Proof.
  unfold build_playlist_dna. split; intros Hn.
  - apply Nat.ltb_lt in Hn. rewrite Hn. split; reflexivity.
  - apply Nat.ltb_ge in Hn. rewrite Hn. eexists. repeat split.
Qed.

Lemma build_playlist_dna_needs_three_tracks_witness :
  (df_len short_playlist < 3)%nat
  /\ @build_playlist_dna stub_library tt short_playlist None
     = BuildError "Need at least 3 tracks to build DNA. Got 2."
  /\ (3 <= df_len flat_playlist)%nat
  /\ exists d : @DNA stub_library,
       @build_playlist_dna stub_library tt flat_playlist None = Built d
       /\ track_count d = 3%nat.
Proof.
  pose proof (@build_playlist_dna_needs_three_tracks stub_library tt short_playlist None)
    as [Hshort _].
  pose proof (@build_playlist_dna_needs_three_tracks stub_library tt flat_playlist None)
    as [_ Hflat].
  assert (H2 : (df_len short_playlist < 3)%nat) by (unfold df_len; simpl; lia).
  assert (H3 : (3 <= df_len flat_playlist)%nat) by (unfold df_len; simpl; lia).
  split; [exact H2 |]. split; [exact (proj1 (Hshort H2)) |].
  split; [exact H3 |].
  destruct (Hflat H3) as (d & Hd & Hc & _).
  exists d. split; [exact Hd | exact Hc].
Defined.

(** ** The session *)

Section SessionFacts.
Context {L : Library}.

Lemma handle_descriptor_current (req : request) (s : session) :
  descriptor_current s -> descriptor_current (handle req s).
Proof.
  intros Hs. destruct req as [result | positions | global | song_data]; simpl.
  - destruct result; simpl; [exact Hs | exact I].
  - unfold exclude_tracks. destruct (s_data s) as [df |]; [| exact Hs].
    destruct (validate_positions (df_len df) positions); simpl; [exact Hs | exact I].
  - unfold build_dna. destruct (s_data s) as [df |] eqn:Ed; [| exact Hs].
    destruct (build_playlist_dna global df (s_playlist_name s)) as [msg | d] eqn:Eb;
      simpl; [exact Hs |].
    unfold descriptor_current. simpl. now exists df, global.
  - unfold score_track. destruct (s_dna s); [destruct song_data |]; exact Hs.
Qed.

Lemma fold_handle_descriptor_current (reqs : list request) (s : session) :
  descriptor_current s ->
  descriptor_current (fold_left (fun s req => handle req s) reqs s).
Proof.
  revert s. induction reqs as [| req reqs IH]; intros s Hs; simpl; [exact Hs |].
  apply IH. now apply handle_descriptor_current.
Qed.

Lemma run_descriptor_current (reqs : list request) : descriptor_current (run reqs).
Proof. apply fold_handle_descriptor_current. exact I. Qed.

(** The validation loop stops at the first position out of range. *)
Lemma validate_positions_rejects (n : nat) (positions : list Z) :
  Exists (out_of_range n) positions ->
  exists (before : list Z) (pos : Z) (after : list Z),
    positions = before ++ pos :: after
    /\ Forall (fun p => ~ out_of_range n p) before
    /\ out_of_range n pos
    /\ validate_positions n positions = inl (out_of_range_detail pos n).
Proof.
  induction positions as [| p rest IH]; intros Hex; [inversion Hex |].
  simpl. destruct ((p <? 1) || (p >? Z.of_nat n))%Z eqn:Ep.
  - exists [], p, rest. repeat split; auto. unfold out_of_range.
    apply orb_true_iff in Ep. destruct Ep as [Ep | Ep]; [left | right]; lia.
  - assert (Hp : ~ out_of_range n p).
    { unfold out_of_range. apply orb_false_iff in Ep. lia. }
    assert (Hrest : Exists (out_of_range n) rest).
    { inversion Hex as [? ? Hbad | ? ? Hr]; subst; [contradiction | exact Hr]. }
    destruct (IH Hrest) as (before & pos & after & -> & Hbefore & Hout & Ev).
    exists (p :: before), pos, after. rewrite Ev. repeat split; auto.
Qed.

End SessionFacts.

(** C5. After every sequence of session operations the stored descriptor is
    absent or is the one built from the stored track set (and name).
    Loading a playlist and every successful exclusion leave it absent, and
    every score that is returned is computed against a descriptor built from
    the track set stored at that moment. *)
Theorem session_descriptor_never_stale {L : Library} (reqs : list request) :
  descriptor_current (run reqs)
  /\ (forall pid pname df,
        s_dna (snd (analyze_playlist (Fetched pid pname df) (run reqs))) = None)
  /\ (forall positions body,
        fst (exclude_tracks positions (run reqs)) = Returned body ->
        s_dna (snd (exclude_tracks positions (run reqs))) = None)
  /\ (forall song report,
        fst (score_track (TrackFeatures song) (run reqs)) = Returned (Scored report) ->
        exists (df : DataFrame) (global : rng_state) (d : DNA),
          s_data (run reqs) = Some df
          /\ build_playlist_dna global df (s_playlist_name (run reqs)) = Built d
          /\ report = score_song song d).
Proof.
  pose proof (run_descriptor_current reqs) as Hinv.
  set (s := run reqs) in *.
  split; [exact Hinv |]. split; [reflexivity |]. split.
  - intros positions body. unfold exclude_tracks.
    destruct (s_data s) as [df |]; [| discriminate].
    destruct (validate_positions (df_len df) positions); [discriminate | reflexivity].
  - intros song report. unfold score_track, descriptor_current in *.
    destruct (s_dna s) as [d |]; [| discriminate].
    simpl. intros H. injection H as <-.
    destruct Hinv as (df & global & Hd & Hb). now exists df, global, d.
Qed.

(** C9. While a track set is loaded, an exclusion request with a position
    outside 1..track count is answered with the range error (status 400)
    naming the first such position of the request, and leaves the session
    (track set and descriptor) as it was: nothing is removed. *)
Theorem exclude_tracks_rejects_out_of_range {L : Library} (s : session)
    (df : DataFrame) (positions : list Z) :
  s_data s = Some df ->
  Exists (out_of_range (df_len df)) positions ->
  exists (before : list Z) (pos : Z) (after : list Z),
    positions = before ++ pos :: after
    /\ Forall (fun p => ~ out_of_range (df_len df) p) before
    /\ out_of_range (df_len df) pos
    /\ exclude_tracks positions s
       = (HTTPException 400 (out_of_range_detail pos (df_len df)), s).
Proof.
  intros Hd Hex.
  destruct (validate_positions_rejects _ _ Hex)
    as (before & pos & after & Hsplit & Hbefore & Hout & Ev).
  exists before, pos, after. repeat split; auto.
  unfold exclude_tracks. now rewrite Hd, Ev.
Qed.

Lemma exclude_tracks_rejects_witness :
  s_data loaded_session = Some flat_playlist
  /\ Exists (out_of_range (df_len flat_playlist)) [1; 4; 2]%Z
  /\ exists (before : list Z) (pos : Z) (after : list Z),
       [1; 4; 2]%Z = before ++ pos :: after
       /\ Forall (fun p => ~ out_of_range (df_len flat_playlist) p) before
       /\ out_of_range (df_len flat_playlist) pos
       /\ @exclude_tracks stub_library [1; 4; 2]%Z loaded_session
          = (HTTPException 400 (out_of_range_detail pos (df_len flat_playlist)),
             loaded_session).
Proof.
  assert (Hex : Exists (out_of_range (df_len flat_playlist)) [1; 4; 2]%Z).
  { apply Exists_cons_tl, Exists_cons_hd. right. simpl. lia. }
  split; [reflexivity |]. split; [exact Hex |].
  exact (@exclude_tracks_rejects_out_of_range stub_library loaded_session
           flat_playlist [1; 4; 2]%Z eq_refl Hex).
Defined.

(** ** Sorting and slicing *)

Section ListFacts.
Context {A : Type}.

Lemma insert_stable_perm (before : A -> A -> bool) (x : A) (l : list A) :
  Permutation (insert_stable before x l) (x :: l).
Proof.
  induction l as [| y t IH]; simpl; [reflexivity |].
  destruct (before y x); [| reflexivity].
  rewrite IH. apply perm_swap.
Qed.

Lemma stable_sort_perm (before : A -> A -> bool) (l : list A) :
  Permutation (stable_sort before l) l.
Proof.
  induction l as [| x t IH]; simpl; [reflexivity |].
  rewrite insert_stable_perm. now constructor.
Qed.

Lemma In_firstn (n : nat) (l : list A) (x : A) : In x (firstn n l) -> In x l.
Proof.
  intros H. rewrite <- (firstn_skipn n l). apply in_or_app. now left.
Qed.

Lemma In_slice_to (l : list A) (n : Z) (x : A) : In x (slice_to l n) -> In x l.
Proof. unfold slice_to. destruct (n <? 0)%Z; apply In_firstn. Qed.

Lemma NoDup_firstn (n : nat) (l : list A) : NoDup l -> NoDup (firstn n l).
Proof.
  intros H. rewrite <- (firstn_skipn n l) in H. now apply NoDup_app_remove_r in H.
Qed.

Lemma slice_to_length (l : list A) (n : Z) :
  (0 <= n)%Z -> (Z.of_nat (length (slice_to l n)) <= n)%Z.
Proof.
  intros Hn. unfold slice_to.
  destruct (n <? 0)%Z eqn:E; [lia |].
  pose proof (firstn_le_length (Z.to_nat n) l). lia.
Qed.

End ListFacts.

Lemma NoDup_map_slice_to {A B : Type} (f : A -> B) (l : list A) (n : Z) :
  NoDup (map f l) -> NoDup (map f (slice_to l n)).
Proof.
  intros H. unfold slice_to. destruct (n <? 0)%Z; rewrite <- firstn_map; now apply NoDup_firstn.
Qed.

(** ** The crawler *)

Section CrawlerFacts.
Context {P : Providers}.

Lemma mem_In (x : string) (l : list string) : mem x l = true <-> In x l.
Proof.
  unfold mem. rewrite existsb_exists. split.
  - intros (y & Hy & E). apply String.eqb_eq in E. now subst.
  - intros H. exists x. split; [exact H | apply String.eqb_refl].
Qed.

Lemma scan_page_invariant (artist_id query : string) (genres : list string)
    (pop : Z) (artists : list artist_obj) (st : list string * list candidate) :
  crawl_invariant artist_id st ->
  crawl_invariant artist_id (scan_page query genres pop artists st).
Proof.
  revert st. induction artists as [| a rest IH]; intros [seen cands] Hst; [exact Hst |].
  simpl. destruct (mem (a_id a) seen) eqn:Em; [now apply IH |].
  assert (Hnew : ~ In (a_id a) seen).
  { intros H. apply mem_In in H. congruence. }
  destruct Hst as (Hroot & Hincl & Hnd & Hself & Hpop). simpl in *.
  destruct (dict_get (a_popularity a) 0 <? 10)%Z eqn:Ep; apply IH; unfold crawl_invariant; simpl.
  - repeat split; auto. now apply incl_tl.
  - rewrite map_app. simpl. repeat split.
    + now right.
    + apply incl_app; [now apply incl_tl | intros y [<- | []]; now left].
    + apply NoDup_app; [exact Hnd | repeat constructor; auto |].
      intros y Hy [<- | []]. apply Hnew, Hincl, Hy.
    + intros H. apply in_app_or in H. destruct H as [H | [H | []]]; [now apply Hself |].
      apply Hnew. now rewrite H.
    + apply Forall_app. split; [exact Hpop |].
      constructor; [simpl; lia | constructor].
Qed.

Lemma crawl_invariant_holds (artist_id : string) (genres : list string) (pop : Z)
    (queries : list string) (st : list string * list candidate) :
  crawl_invariant artist_id st ->
  crawl_invariant artist_id (crawl genres pop queries st).
Proof.
  revert st. induction queries as [| q rest IH]; intros st Hst; [exact Hst |].
  simpl. destruct (sp_search q) as [artists |]; apply IH; [| exact Hst].
  now apply scan_page_invariant.
Qed.

(** The two sorts and the slice only reorder and drop candidates. *)
Lemma ranked_neighbors (pop max_artists : Z) (all_candidates : list candidate) :
  let neighbors :=
    stable_sort (by_popularity_distance pop)
      (slice_to (stable_sort by_relevance_desc all_candidates) max_artists) in
  (forall c, In c neighbors -> In c all_candidates)
  /\ (NoDup (map c_id all_candidates) -> NoDup (map c_id neighbors))
  /\ ((0 <= max_artists)%Z -> (Z.of_nat (length neighbors) <= max_artists)%Z).
Proof.
  intros neighbors. unfold neighbors. repeat split.
  - intros c Hc.
    apply (Permutation_in _ (stable_sort_perm _ _)) in Hc.
    apply In_slice_to in Hc.
    now apply (Permutation_in _ (stable_sort_perm _ _)) in Hc.
  - intros Hnd.
    apply (Permutation_NoDup (Permutation_sym (Permutation_map c_id (stable_sort_perm _ _)))).
    apply NoDup_map_slice_to.
    now apply (Permutation_NoDup (Permutation_sym (Permutation_map c_id (stable_sort_perm _ _)))).
  - intros Hmax.
    rewrite (Permutation_length (stable_sort_perm _ _)).
    now apply slice_to_length.
Qed.

End CrawlerFacts.

(** C6 (as amended). Whatever the provider answers, the neighbor list of a
    neighborhood holds no identifier twice, does not hold the identifier the
    crawl was started from (the last segment of the artist URL; it is the
    root's own identifier whenever the provider reports the root under it),
    holds no artist of popularity below 10, and for a maximum that is not
    negative has at most that many entries. *)
Theorem neighborhood_neighbors_distinct_and_capped {P : Providers}
    (artist_url : string) (max_artists : Z) (root : root_artist)
    (neighbors : list candidate) (total_found : nat) :
  build_artist_neighborhood artist_url max_artists
  = Neighborhood root neighbors total_found ->
  NoDup (map c_id neighbors)
  /\ ~ In (id_of_url artist_url) (map c_id neighbors)
  /\ (root_id root = id_of_url artist_url -> ~ In (root_id root) (map c_id neighbors))
  /\ Forall (fun c => (10 <= c_popularity c)%Z) neighbors
  /\ ((0 <= max_artists)%Z -> (Z.of_nat (length neighbors) <= max_artists)%Z).
Proof.
  unfold build_artist_neighborhood.
  destruct (sp_artist (id_of_url artist_url)) as [e | root_info]; [discriminate |].
  intros H. injection H as _ <- _.
  match goal with
  | |- context [crawl ?g ?p ?q ([id_of_url artist_url], [])] =>
      set (genres := g) in *; set (pop := p) in *; set (queries := q) in *
  end.
  assert (Hinv : crawl_invariant (id_of_url artist_url)
                   (crawl genres pop queries ([id_of_url artist_url], []))).
  { apply crawl_invariant_holds. unfold crawl_invariant. simpl.
    repeat split; auto using incl_nil_l, NoDup_nil. }
  destruct Hinv as (_ & _ & Hnd & Hself & Hpop).
  destruct (ranked_neighbors pop max_artists
              (snd (crawl genres pop queries ([id_of_url artist_url], []))))
    as (Hsub & Hnodup & Hlen).
  assert (Hnot : ~ In (id_of_url artist_url)
                   (map c_id (stable_sort (by_popularity_distance pop)
                      (slice_to (stable_sort by_relevance_desc
                         (snd (crawl genres pop queries ([id_of_url artist_url], []))))
                         max_artists)))).
  { intros Hin. apply in_map_iff in Hin. destruct Hin as (c & Ec & Hc).
    apply Hself, in_map_iff. exists c. auto. }
  repeat split; auto.
  - intros E. now rewrite E.
  - apply Forall_forall. intros c Hc.
    rewrite Forall_forall in Hpop. apply Hpop, Hsub, Hc.
Qed.

Lemma neighborhood_neighbors_witness :
  exists (root : root_artist) (neighbors : list candidate) (total_found : nat),
    @build_artist_neighborhood small_catalogue "https://open.spotify.com/artist/R?si=1" 30
    = Neighborhood root neighbors total_found
    /\ (0 <= 30)%Z
    /\ length neighbors = 2%nat
    /\ NoDup (map c_id neighbors)
    /\ ~ In (id_of_url "https://open.spotify.com/artist/R?si=1") (map c_id neighbors)
    /\ (root_id root = id_of_url "https://open.spotify.com/artist/R?si=1" ->
        ~ In (root_id root) (map c_id neighbors))
    /\ Forall (fun c => (10 <= c_popularity c)%Z) neighbors
    /\ ((0 <= 30)%Z -> (Z.of_nat (length neighbors) <= 30)%Z).
Proof.
  do 3 eexists. split; [vm_compute; reflexivity |].
  split; [lia |]. split; [reflexivity |].
  exact (@neighborhood_neighbors_distinct_and_capped small_catalogue
           "https://open.spotify.com/artist/R?si=1" 30 _ _ _ eq_refl).
Defined.

(** C6 as stated fails.  Asked for the artist by URI, the crawl starts from
    the whole URI while the provider reports the root under the identifier
    "XYZ": the search hit "XYZ" has not been seen and the root is listed
    among its own neighbors.  And with the maximum -1 the slice drops the
    last of the two candidates only, so that the list is longer than the
    maximum. *)
Lemma neighborhood_root_listed_counterexample :
  (exists (root : root_artist) (neighbors : list candidate) (total_found : nat),
      @build_artist_neighborhood uri_catalogue "spotify:artist:XYZ" 30
      = Neighborhood root neighbors total_found
      /\ root_id root = "XYZ"%string
      /\ map c_id neighbors = ["XYZ"; "A"]%string
      /\ In (root_id root) (map c_id neighbors))
  /\ (exists (root : root_artist) (neighbors : list candidate) (total_found : nat),
         @build_artist_neighborhood small_catalogue
           "https://open.spotify.com/artist/R?si=1" (-1)
         = Neighborhood root neighbors total_found
         /\ map c_id neighbors = ["A"]%string
         /\ ~ (Z.of_nat (length neighbors) <= -1)%Z).
Proof.
  split.
  - do 3 eexists. split; [vm_compute; reflexivity |].
    split; [reflexivity |]. split; [reflexivity |]. now left.
  - do 3 eexists. split; [vm_compute; reflexivity |].
    split; [reflexivity |]. cbn. lia.
Qed.

(** ** The sonic twin matcher *)

Section TwinFacts.
Context {P : Providers}.
Local Open Scope R_scope.

Lemma artist_distances_all_skipped (target_vector : vec) (l : list candidate) :
  (forall a, In a l -> compare_artist target_vector a = None) ->
  artist_distances target_vector l = [].
Proof.
  induction l as [| a rest IH]; intros H; [reflexivity |].
  simpl. rewrite (H a) by now left. apply IH. intros b Hb. apply H. now right.
Qed.

Lemma distance_same (target feat_vector : vec) :
  (forall f, feat_vector f = target f) -> distance target feat_vector = 0.
Proof.
  intros E. unfold distance, np_linalg_norm.
  rewrite (sumF_ext _ (fun _ => 0)) by (intros f; rewrite E; lra).
  unfold sumF. simpl. replace (0 + _) with 0 by lra. apply sqrt_0.
Qed.

Lemma np_mean_zeros {A : Type} (g : A -> R) (l : list A) :
  (forall x, In x l -> g x = 0) -> np_mean (map g l) = 0.
Proof.
  intros H. unfold np_mean. rewrite np_sum_map_zero by exact H. unfold Rdiv. lra.
Qed.

End TwinFacts.

(** C10. Once the target track and its features are resolved: a
    neighborhood without neighbors makes the matcher return the error "No
    neighboring artists found for comparison", while a neighborhood whose
    neighbors are all skipped makes it return a result with an empty twins
    list and [total_compared = 0]. *)
Theorem find_sonic_twins_no_neighbors_or_all_skipped {P : Providers}
    (track_url artist_url : string) (top_n : Z) (track_info : top_track)
    (target_features : audio_features) (others : list audio_features)
    (root : root_artist) (neighbors : list candidate) (total_found : nat) :
  sp_track (id_of_url track_url) = inr track_info ->
  status_code (requests_get [id_of_url track_url]) = 200%Z ->
  content (requests_get [id_of_url track_url]) = target_features :: others ->
  build_artist_neighborhood artist_url 20 = Neighborhood root neighbors total_found ->
  (neighbors = [] ->
     find_sonic_twins track_url artist_url top_n
     = TwinsError "No neighboring artists found for comparison")
  /\ (neighbors <> [] ->
      (forall a, In a neighbors ->
                 compare_artist (vector_of target_features) a = None) ->
      find_sonic_twins track_url artist_url top_n
      = Twins {| tg_name := t_name track_info; tg_artist := t_artist track_info;
                 tg_track_id := id_of_url track_url |} [] 0).
Proof.
  intros Ht Hs Hc Hn. unfold find_sonic_twins.
  rewrite Ht, Hs, Hc, Hn. simpl. split.
  - now intros ->.
  - intros Hne Hskip. destruct neighbors as [| a rest]; [congruence |].
    rewrite artist_distances_all_skipped by exact Hskip.
    unfold slice_to. simpl. destruct (top_n <? 0)%Z; [reflexivity | now rewrite firstn_nil].
Qed.

Lemma find_sonic_twins_all_skipped_witness :
  exists (root : root_artist) (neighbors : list candidate) (total_found : nat),
    @build_artist_neighborhood small_catalogue "artist/R" 20
    = Neighborhood root neighbors total_found
    /\ neighbors <> []
    /\ (forall a, In a neighbors ->
          @compare_artist small_catalogue (vector_of quiet_features) a = None)
    /\ @find_sonic_twins small_catalogue "track/T" "artist/R" 5
       = Twins {| tg_name := "song"; tg_artist := "R"; tg_track_id := "T" |} [] 0.
Proof.
  do 3 eexists. split; [vm_compute; reflexivity |].
  assert (Hne : [candidate_of "genre:rap" ["rap"%string] 50 (artist_of "C" None 55)]
                <> @nil candidate) by discriminate.
  split; [discriminate |]. split; [reflexivity |].
  refine (proj2 (@find_sonic_twins_no_neighbors_or_all_skipped small_catalogue
                   "track/T" "artist/R" 5 _ quiet_features [] _ _ _
                   eq_refl eq_refl eq_refl _) _ _).
  - vm_compute; reflexivity.
  - discriminate.
  - reflexivity.
Defined.

(** C8 (as amended). For every neighbor with at least one representative
    vector, [similarity_pct] is [exp(-avg/100) * 100] rounded to 2 decimals
    and [avg_distance] is [avg] rounded to 4 decimals, where [avg] is the
    mean, over all of the neighbor's representative vectors, of the Euclidean
    distance to the target vector.  So a neighbor all of whose representative
    vectors are identical to the target vector has [avg_distance = 0] and
    [similarity_pct = 100.0] (and one at the average distance [100 ln 2] has
    [similarity_pct = 50.0]). *)
Theorem twin_of_identical_vectors (target_vector : vec) (artist : candidate)
    (tracks : list top_track) (batch_content : list audio_features) :
  batch_content <> [] ->
  let t := twin_of target_vector artist tracks batch_content in
  let avg :=
    (np_sum (map (fun feat =>
                    sqrt (sumF (fun f => (target_vector f - vector_of feat f)
                                         * (target_vector f - vector_of feat f))))
                 batch_content)
     / INR (length batch_content))%R in
  similarity_pct t = py_round (exp (- avg / 100) * 100) 2
  /\ avg_distance t = py_round avg 4
  /\ ((forall feat, In feat batch_content ->
                    forall f, vector_of feat f = target_vector f) ->
      avg_distance t = 0%R /\ similarity_pct t = 100%R)
  /\ (avg = (100 * ln 2)%R -> similarity_pct t = 50%R).
Proof.
  intros _ t avg.
  assert (Hsim : similarity_pct t = py_round (exp (- avg / 100) * 100) 2).
  { unfold t, avg, twin_of, np_mean. cbn [similarity_pct].
    now rewrite length_map. }
  assert (Havg : avg_distance t = py_round avg 4).
  { unfold t, avg, twin_of, np_mean. cbn [avg_distance].
    now rewrite length_map. }
  split; [exact Hsim |]. split; [exact Havg |]. split.
  - intros Hsame.
    assert (Hzero : avg = 0%R).
    { unfold avg.
      change (np_sum (map (fun feat => distance target_vector (vector_of feat))
                          batch_content)
              / INR (length batch_content) = 0)%R.
      rewrite <- (length_map (fun feat => distance target_vector (vector_of feat))).
      apply np_mean_zeros. intros feat Hin. apply distance_same. now apply Hsame. }
    rewrite Havg, Hsim, Hzero. split.
    + apply (py_round_exact _ _ 0). lra.
    + replace (- 0 / 100)%R with 0%R by lra. rewrite exp_0.
      replace (1 * 100)%R with 100%R by lra.
      apply (py_round_exact _ _ 10000). simpl. lra.
  - intros Hhalf. rewrite Hsim, Hhalf.
    replace (- (100 * ln 2) / 100)%R with (- ln 2)%R by (unfold Rdiv; lra).
    rewrite exp_Ropp, exp_ln by lra.
    replace (/ 2 * 100)%R with 50%R by lra.
    apply (py_round_exact _ _ 5000). simpl. lra.
Qed.

Lemma twin_of_identical_vectors_witness :
  [quiet_features; quiet_features] <> []
  /\ (forall feat, In feat [quiet_features; quiet_features] ->
                   forall f, vector_of feat f = vector_of quiet_features f)
  /\ avg_distance (twin_of (vector_of quiet_features) neighbor_A []
                           [quiet_features; quiet_features]) = 0%R
  /\ similarity_pct (twin_of (vector_of quiet_features) neighbor_A []
                             [quiet_features; quiet_features]) = 100%R.
Proof.
  assert (Hsame : forall feat, In feat [quiet_features; quiet_features] ->
                    forall f, vector_of feat f = vector_of quiet_features f).
  { intros feat [<- | [<- | []]] f; reflexivity. }
  split; [discriminate |]. split; [exact Hsame |].
  pose proof (twin_of_identical_vectors (vector_of quiet_features) neighbor_A []
                [quiet_features; quiet_features] ltac:(discriminate)) as H.
  cbv zeta in H. exact (proj1 (proj2 (proj2 H)) Hsame).
Defined.

(** C8 as stated fails: a neighbor with one representative vector identical
    to the target and one at distance 1 from it has an average distance of
    0.5, not 0. *)
Lemma twin_of_one_identical_vector_counterexample :
  (exists feat, In feat [quiet_features; dancing_features]
                /\ forall f, vector_of feat f = vector_of quiet_features f)
  /\ avg_distance (twin_of (vector_of quiet_features) neighbor_A []
                           [quiet_features; dancing_features]) = 0.5%R
  /\ avg_distance (twin_of (vector_of quiet_features) neighbor_A []
                           [quiet_features; dancing_features]) <> 0%R.
Proof.
  assert (Hd0 : distance (vector_of quiet_features) (vector_of quiet_features) = 0%R).
  { now apply distance_same. }
  assert (Hd1 : distance (vector_of quiet_features) (vector_of dancing_features) = 1%R).
  { unfold distance, np_linalg_norm, sumF, vector_of. simpl.
    replace (_ + _)%R with 1%R by lra. apply sqrt_1. }
  assert (Havg : avg_distance (twin_of (vector_of quiet_features) neighbor_A []
                                 [quiet_features; dancing_features]) = 0.5%R).
  { unfold twin_of. simpl avg_distance. unfold np_mean. simpl map.
    rewrite Hd0, Hd1. simpl.
    replace ((0 + (1 + 0)) / (1 + 1))%R with 0.5%R by lra.
    apply (py_round_exact _ _ 5000). simpl. lra. }
  split; [exists quiet_features; split; [now left | reflexivity] |].
  split; [exact Havg |]. rewrite Havg. lra.
Qed.

(** ** The cohesion report *)

Section CohesionFacts.
Context {L : Library}.
Local Open Scope R_scope.

Lemma FEATURE_RANGES_pos (f : feature) : 0 < FEATURE_RANGES f.
Proof. destruct f; simpl; lra. Qed.

(** On a spread that is not negative the loop's one-sided bounds are the
    specification's clamps. *)
Lemma conviction_of_spec (mean std : vec) (f : feature) :
  0 <= std f -> conviction_of mean std f = spec_conviction mean std f.
Proof.
  intros Hstd. pose proof (FEATURE_RANGES_pos f) as Hr.
  unfold conviction_of, spec_conviction, tightness_of, identity_of,
    spec_tightness, spec_identity, clamp.
  rewrite !py_max_Rmax, py_min_Rmin.
  assert (Hq : 0 <= std f / FEATURE_RANGES f).
  { apply Rmult_le_pos; [exact Hstd | left; now apply Rinv_0_lt_compat]. }
  assert (Hi : 0 <= Rabs (mean f - baselines f) / FEATURE_RANGES f * 2.5).
  { apply Rmult_le_pos; [| lra].
    apply Rmult_le_pos; [apply Rabs_pos | left; now apply Rinv_0_lt_compat]. }
  f_equal.
  - rewrite (Rmin_left (1 - 3 * (std f / FEATURE_RANGES f)) 1) by lra.
    f_equal. lra.
  - set (i := Rabs (mean f - baselines f) / FEATURE_RANGES f * 2.5) in *.
    rewrite (Rmax_right 0 (Rmin i 1)); [reflexivity |].
    apply Rmin_glb; lra.
Qed.

Lemma col_std_nonneg (X : list vec) (f : feature) : 0 <= col_std X f.
Proof. apply sqrt_pos. Qed.

Lemma cohesion_score_rounded (global : rng_state) (df : DataFrame)
    (name : option string) (d : DNA) :
  build_playlist_dna global df name = Built d ->
  cohesion_score d = spec_cohesion_of_rounded d.
Proof.
  intros Hb.
  destruct (build_playlist_dna_built _ _ _ _ Hb) as (_ & _ & Hcols & _ & Hstd & _).
  unfold cohesion_score, spec_cohesion_of_rounded, conviction_details.
  rewrite Hcols, map_map. do 3 f_equal.
  apply map_ext. intros f. simpl. f_equal.
  apply conviction_of_spec. rewrite Hstd. apply col_std_nonneg.
Qed.

(** Mean and standard deviation of three values spread evenly. *)
Lemma spread_sample_stats (centre delta : vec) (f : feature) :
  let X := [(fun g => centre g - delta g); centre; (fun g => centre g + delta g)] in
  col_mean X f = centre f /\ (0 <= delta f -> col_std X f = delta f).
Proof.
  intros X.
  assert (Hm : col_mean X f = centre f).
  { unfold col_mean, np_mean, column, X. simpl. lra. }
  split; [exact Hm |]. intros Hd.
  unfold col_std, col_var. rewrite Hm. unfold column, X. simpl.
  replace (_ / _) with (delta f * delta f) by lra.
  now apply sqrt_square.
Qed.

Lemma spread_delta_nonneg (f : feature) : 0 <= spread_delta f.
Proof. destruct f; simpl; lra. Qed.

End CohesionFacts.

Section SpreadPlaylist.
Context {L : Library}.
Local Open Scope R_scope.

Lemma spread_conviction_of (f : feature) :
  conviction_of spread_centre spread_delta f = spread_conviction f.
Proof.
  destruct f;
    unfold conviction_of, tightness_of, identity_of, py_max, py_min, Rabs; simpl;
    conviction_cases.
Qed.

Lemma spread_conviction_rounded (f : feature) :
  py_round (spread_conviction f) 3
  = match f with danceability | energy => 0.502 | _ => 0.5 end.
Proof.
  destruct f; simpl;
    first [ rewrite (py_round_near _ _ 502) by (simpl; lra); simpl; lra
          | apply (py_round_exact _ _ 500); simpl; lra ].
Qed.

Lemma spread_playlist_cohesion (global : rng_state) (name : option string) (d : DNA) :
  build_playlist_dna global spread_playlist name = Built d ->
  cohesion_score d = 50 /\ spec_cohesion_score d = 50.1.
Proof.
  intros Hb.
  destruct (build_playlist_dna_built _ _ _ _ Hb) as (_ & _ & Hcols & Hmean & Hstd & _).
  assert (Hstats : forall f,
             raw_mean_vector d f = spread_centre f /\ raw_std_vector d f = spread_delta f).
  { intros f. rewrite Hmean, Hstd.
    destruct (spread_sample_stats spread_centre spread_delta f) as [Hm Hs].
    split; [exact Hm | apply Hs, spread_delta_nonneg]. }
  assert (Hconv : forall f,
             conviction_of (raw_mean_vector d) (raw_std_vector d) f = spread_conviction f).
  { intros f. rewrite <- spread_conviction_of.
    unfold conviction_of, tightness_of, identity_of.
    destruct (Hstats f) as [-> ->]. reflexivity. }
  split.
  - unfold cohesion_score, conviction_details. rewrite Hcols, map_map.
    rewrite (map_ext _ (fun f => match f with
                                 | danceability | energy => 0.502
                                 | _ => 0.5
                                 end))
      by (intros f; simpl; rewrite Hconv; apply spread_conviction_rounded).
    unfold DNA_FEATURES, np_mean. simpl.
    rewrite (py_round_near _ _ 500) by (simpl; lra). simpl. lra.
  - unfold spec_cohesion_score.
    rewrite (map_ext _ spread_conviction).
    + unfold DNA_FEATURES, np_mean. simpl.
      rewrite (py_round_near _ _ 501) by (simpl; lra). simpl. lra.
    + intros f. rewrite <- conviction_of_spec, Hconv; [reflexivity |].
      destruct (Hstats f) as [_ ->]. apply spread_delta_nonneg.
Qed.

End SpreadPlaylist.

(** C7 (as amended). For every built descriptor the reported cohesion score
    is the mean over the 9 features of the conviction rounded to 3 decimals
    (the value reported in the conviction breakdown), times 100, rounded to
    1 decimal, where tightness = clamp(1 - 3 (raw_std / natural_range), 0, 1),
    identity = clamp(|raw_mean - baseline| / natural_range x 2.5, 0, 1) and
    conviction = max(tightness, identity), with the fixed tables. *)
Theorem cohesion_score_is_mean_of_reported_convictions {L : Library}
    (global : rng_state) (df : DataFrame) (name : option string) (d : DNA) :
  build_playlist_dna global df name = Built d ->
  rep_cohesion_score (report_of name d) = spec_cohesion_of_rounded d
  /\ map cd_conviction (rep_conviction_breakdown (report_of name d))
     = map (fun f => py_round (spec_conviction (raw_mean_vector d) (raw_std_vector d) f) 3)
           DNA_FEATURES.
Proof.
  intros Hb. split.
  - simpl. now apply (cohesion_score_rounded global df name).
  - destruct (build_playlist_dna_built _ _ _ _ Hb) as (_ & _ & Hcols & _ & Hstd & _).
    change (rep_conviction_breakdown (report_of name d)) with (conviction_details d).
    unfold conviction_details. rewrite Hcols, map_map.
    apply map_ext. intros f. simpl. f_equal.
    apply conviction_of_spec. rewrite Hstd. apply col_std_nonneg.
Qed.

Lemma cohesion_score_witness :
  exists d : @DNA stub_library,
    @build_playlist_dna stub_library tt spread_playlist None = Built d
    /\ rep_cohesion_score (report_of None d) = spec_cohesion_of_rounded d
    /\ rep_cohesion_score (report_of None d) = 50%R.
Proof.
  eexists. split; [reflexivity |]. split.
  - exact (proj1 (@cohesion_score_is_mean_of_reported_convictions stub_library tt
                    spread_playlist None _ eq_refl)).
  - exact (proj1 (@spread_playlist_cohesion stub_library tt None _ eq_refl)).
Defined.

(** C7 as stated fails: for three tracks spread evenly around a centre the
    reported cohesion score is 50.0, while the mean of the unrounded
    convictions, times 100, rounded to 1 decimal, is 50.1. *)
Lemma cohesion_score_counterexample :
  exists d : @DNA stub_library,
    @build_playlist_dna stub_library tt spread_playlist None = Built d
    /\ rep_cohesion_score (report_of None d) = 50%R
    /\ spec_cohesion_score d = 50.1%R
    /\ rep_cohesion_score (report_of None d) <> spec_cohesion_score d.
Proof.
  eexists. split; [reflexivity |].
  destruct (@spread_playlist_cohesion stub_library tt None _ eq_refl) as [Hc Hs].
  split; [exact Hc |]. split; [exact Hs |].
  assert (Hne : forall a b : R, a = 50%R -> b = 50.1%R -> a <> b) by (intros; lra).
  exact (Hne _ _ Hc Hs).
Qed.

(* ================================================================== *)
(** * Part III.  Further properties of the code *)
(* ================================================================== *)

(** ** More on rounding, minima and means *)

Section RoundingOrder.
Local Open Scope R_scope.

(** A number is within one half of its rounding. *)
Lemma round_half_even_close (x : R) :
  IZR (round_half_even x) - 1 / 2 <= x <= IZR (round_half_even x) + 1 / 2.
Proof.
  destruct (base_Int_part x) as [Hfl Hfr].
  unfold round_half_even.
  destruct (Rlt_dec (x - IZR (Int_part x)) (1 / 2)) as [Hlt | Hge]; [lra |].
  destruct (Rlt_dec (1 / 2) (x - IZR (Int_part x))) as [Hgt | Hle].
  - rewrite plus_IZR. lra.
  - destruct (Z.even (Int_part x)); [lra | rewrite plus_IZR; lra].
Qed.

Lemma round_half_even_monotone (x y : R) :
  x <= y -> (round_half_even x <= round_half_even y)%Z.
Proof.
  intros Hxy.
  destruct (Z_le_gt_dec (round_half_even x) (round_half_even y)) as [H | H]; [exact H |].
  exfalso.
  pose proof (round_half_even_close x) as [Hx _].
  pose proof (round_half_even_close y) as [_ Hy].
  assert (Hz : (round_half_even y + 1 <= round_half_even x)%Z) by lia.
  apply IZR_le in Hz. rewrite plus_IZR in Hz.
  assert (E : x = y) by lra. subst. lia.
Qed.

Lemma py_round_monotone (x y : R) (n : nat) :
  x <= y -> py_round x n <= py_round y n.
Proof.
  intros Hxy. unfold py_round. pose proof (pow10_pos n) as Hp.
  apply Rmult_le_compat_r; [left; now apply Rinv_0_lt_compat |].
  apply IZR_le, round_half_even_monotone. nra.
Qed.

(** Rounding to [n] decimals keeps a number between two bounds that have
    at most [n] decimals. *)
Lemma py_round_between (x : R) (n : nat) (lo hi : Z) :
  IZR lo / 10 ^ n <= x <= IZR hi / 10 ^ n ->
  IZR lo / 10 ^ n <= py_round x n <= IZR hi / 10 ^ n.
Proof.
  intros [Hlo Hhi]. pose proof (pow10_pos n) as Hp.
  assert (Hb : (lo <= round_half_even (x * 10 ^ n) <= hi)%Z).
  { apply round_half_even_between. split.
    - apply Rmult_le_compat_r with (r := 10 ^ n) in Hlo; [| lra].
      unfold Rdiv in Hlo. rewrite Rmult_assoc, Rinv_l in Hlo by lra. lra.
    - apply Rmult_le_compat_r with (r := 10 ^ n) in Hhi; [| lra].
      unfold Rdiv in Hhi. rewrite Rmult_assoc, Rinv_l in Hhi by lra. lra. }
  destruct Hb as [Hb0 Hb1]. apply IZR_le in Hb0, Hb1.
  unfold py_round. split; apply Rmult_le_compat_r;
    try (left; now apply Rinv_0_lt_compat); assumption.
Qed.

Lemma py_round_0 (n : nat) : py_round 0 n = 0.
Proof. apply (py_round_exact _ _ 0). lra. Qed.

Lemma py_round_nonneg (x : R) (n : nat) : 0 <= x -> 0 <= py_round x n.
Proof. intros H. rewrite <- (py_round_0 n). now apply py_round_monotone. Qed.

Lemma fold_left_Rmin_le (l : list R) (a : R) :
  fold_left Rmin l a <= a /\ forall x, In x l -> fold_left Rmin l a <= x.
Proof.
  revert a. induction l as [| y l IH]; intros a; simpl.
  - split; [lra | tauto].
  - destruct (IH (Rmin a y)) as [H1 H2].
    pose proof (Rmin_l a y). pose proof (Rmin_r a y).
    split; [lra |]. intros x [<- | Hx]; [lra | now apply H2].
Qed.

Lemma fold_left_Rmax_ge (l : list R) (a : R) :
  a <= fold_left Rmax l a /\ forall x, In x l -> x <= fold_left Rmax l a.
Proof.
  revert a. induction l as [| y l IH]; intros a; simpl.
  - split; [lra | tauto].
  - destruct (IH (Rmax a y)) as [H1 H2].
    pose proof (Rmax_l a y). pose proof (Rmax_r a y).
    split; [lra |]. intros x [<- | Hx]; [lra | now apply H2].
Qed.

Lemma np_min_le (l : list R) (x : R) : In x l -> np_min l <= x.
Proof.
  destruct l as [| a l]; [intros [] |]. simpl.
  destruct (fold_left_Rmin_le l a) as [H1 H2]. intros [<- | Hx]; auto.
Qed.

Lemma np_max_ge (l : list R) (x : R) : In x l -> x <= np_max l.
Proof.
  destruct l as [| a l]; [intros [] |]. simpl.
  destruct (fold_left_Rmax_ge l a) as [H1 H2]. intros [<- | Hx]; auto.
Qed.

Lemma fold_left_Rmin_In (l : list R) (a : R) :
  fold_left Rmin l a = a \/ In (fold_left Rmin l a) l.
Proof.
  revert a. induction l as [| y l IH]; intros a; simpl; [now left |].
  destruct (IH (Rmin a y)) as [E | Hin]; [| now right; right].
  rewrite E. unfold Rmin. destruct (Rle_dec a y); [now left | right; now left].
Qed.

Lemma fold_left_Rmax_In (l : list R) (a : R) :
  fold_left Rmax l a = a \/ In (fold_left Rmax l a) l.
Proof.
  revert a. induction l as [| y l IH]; intros a; simpl; [now left |].
  destruct (IH (Rmax a y)) as [E | Hin]; [| now right; right].
  rewrite E. unfold Rmax. destruct (Rle_dec a y); [right; now left | now left].
Qed.

Lemma np_min_In (l : list R) : l <> [] -> In (np_min l) l.
Proof.
  destruct l as [| a l]; [congruence |]. intros _. simpl.
  destruct (fold_left_Rmin_In l a) as [-> | H]; auto.
Qed.

Lemma np_max_In (l : list R) : l <> [] -> In (np_max l) l.
Proof.
  destruct l as [| a l]; [congruence |]. intros _. simpl.
  destruct (fold_left_Rmax_In l a) as [-> | H]; auto.
Qed.

Lemma INR_length_pos {A : Type} (l : list A) : l <> [] -> 0 < INR (length l).
Proof.
  destruct l; [congruence |]. intros _. apply lt_0_INR. simpl. lia.
Qed.

(** The mean of a list lies between any lower and any upper bound of its
    entries. *)
Lemma np_mean_between (l : list R) (lo hi : R) :
  l <> [] -> (forall x, In x l -> lo <= x <= hi) -> lo <= np_mean l <= hi.
Proof.
  intros Hne Hb. pose proof (INR_length_pos l Hne) as Hn.
  assert (Hs : INR (length l) * lo <= np_sum l <= INR (length l) * hi).
  { clear Hne Hn. induction l as [| a l IH].
    - simpl. lra.
    - assert (Ha : lo <= a <= hi) by (apply Hb; now left).
      assert (IH' : INR (length l) * lo <= np_sum l <= INR (length l) * hi).
      { apply IH. intros x Hx. apply Hb. now right. }
      change (length (a :: l)) with (S (length l)). rewrite S_INR.
      simpl np_sum. lra. }
  unfold np_mean. split.
  - apply Rmult_le_reg_r with (INR (length l)); [exact Hn |].
    unfold Rdiv. rewrite Rmult_assoc, Rinv_l by lra. lra.
  - apply Rmult_le_reg_r with (INR (length l)); [exact Hn |].
    unfold Rdiv. rewrite Rmult_assoc, Rinv_l by lra. lra.
Qed.

Lemma np_min_le_mean_le_max (l : list R) :
  l <> [] -> np_min l <= np_mean l <= np_max l.
Proof.
  intros Hne. apply np_mean_between; [exact Hne |].
  intros x Hx. split; [now apply np_min_le | now apply np_max_ge].
Qed.

Lemma np_mean_const {A : Type} (g : A -> R) (c : R) (l : list A) :
  l <> [] -> (forall x, In x l -> g x = c) -> np_mean (map g l) = c.
Proof.
  intros Hne Hc.
  assert (Hm : map g l <> []) by (destruct l; [congruence | discriminate]).
  apply Rle_antisym; apply (np_mean_between (map g l) c c Hm);
    intros y Hy; apply in_map_iff in Hy; destruct Hy as (x & <- & Hx);
    rewrite (Hc x Hx); lra.
Qed.

End RoundingOrder.

(** ** The builder and the scorer on particular samples *)

Section BuilderMore.
Context {L : Library}.
Local Open Scope R_scope.

Lemma feature_data_length (df : DataFrame) : length (feature_data df) = df_len df.
Proof. unfold feature_data, df_len. apply length_map. Qed.

Lemma feature_data_nonempty (df : DataFrame) :
  (1 <= df_len df)%nat -> feature_data df <> [].
Proof.
  intros H E. apply (f_equal (@length _)) in E.
  rewrite feature_data_length in E. simpl in E. lia.
Qed.

Lemma column_nonempty (X : list vec) (f : feature) : X <> [] -> column X f <> [].
Proof. destruct X; [congruence | discriminate]. Qed.

Lemma sumF_zero (g : feature -> R) : (forall f, g f = 0) -> sumF g = 0.
Proof.
  intros H. rewrite (sumF_ext g (fun _ => 0)) by exact H.
  unfold sumF. simpl. lra.
Qed.

(** Sum of the deviations from a value, scaled. *)
Lemma np_sum_deviations {A : Type} (g : A -> R) (m c : R) (l : list A) :
  np_sum (map (fun x => (g x - m) * c) l)
  = (np_sum (map g l) - INR (length l) * m) * c.
Proof.
  induction l as [| a l IH].
  - simpl. lra.
  - change (length (a :: l)) with (S (length l)). rewrite S_INR.
    simpl. rewrite IH. lra.
Qed.

(** The normalised sample is centred: its mean is 0 on every feature. *)
Lemma normalized_mean_zero (X : list vec) (f : feature) :
  X <> [] ->
  col_mean (map (scaler_transform (scaler_fit X)) X) f = 0.
Proof.
  intros Hne. pose proof (INR_length_pos X Hne) as Hn.
  unfold col_mean at 1, np_mean, column. rewrite map_map, length_map.
  unfold scaler_transform. simpl mean_. simpl scale_.
  set (s := handle_zeros_in_scale _).
  rewrite (np_sum_map_ext _ (fun x : vec => (x f - col_mean X f) * / s))
    by reflexivity.
  rewrite (np_sum_deviations (fun x : vec => x f) (col_mean X f) (/ s) X).
  unfold col_mean, np_mean, column. rewrite length_map.
  set (t := np_sum _).
  assert (E : forall n u : R, n <> 0 -> u - n * (u / n) = 0)
    by (intros; field; assumption).
  rewrite E by (unfold vec in *; lra). unfold Rdiv. ring.
Qed.

(** The fields of a built descriptor, in terms of the sample. *)
Lemma build_playlist_dna_fields (global : rng_state) (df : DataFrame)
    (name : option string) (d : DNA) :
  build_playlist_dna global df name = Built d ->
  let X := feature_data df in
  let normalized := map (scaler_transform (scaler_fit X)) X in
  playlist_name d = name
  /\ scaler d = scaler_fit X
  /\ raw_min_vector d = col_min X
  /\ raw_max_vector d = col_max X
  /\ mean_vector d = col_mean normalized
  /\ explained_variance d
     = explained_variance_ratio_
         (pca_fit (Nat.min (length DNA_FEATURES) (df_len df - 1)) normalized)
  /\ dims_for_90 d
     = (np_searchsorted (np_cumsum (explained_variance d)) (Fin (90 / 100)) + 1)%nat.
Proof.
  unfold build_playlist_dna.
  destruct (df_len df <? 3)%nat; [discriminate |].
  intros H. injection H as <-. simpl. repeat split.
Qed.

(** A sample whose rows all carry the vector [x]. *)
Lemma identical_sample_stats (X : list vec) (x : vec) (f : feature) :
  X <> [] ->
  (forall v, In v X -> forall g, v g = x g) ->
  col_mean X f = x f
  /\ (forall ddof, col_var ddof X f = 0)
  /\ col_std X f = 0
  /\ col_min X f = x f
  /\ col_max X f = x f.
Proof.
  intros Hne Hx.
  assert (Hm : col_mean X f = x f).
  { unfold col_mean, column. apply np_mean_const; [exact Hne |].
    intros v Hv. now apply Hx. }
  assert (Hv : forall ddof, col_var ddof X f = 0).
  { intros ddof. unfold col_var, column. rewrite map_map.
    rewrite np_sum_map_zero; [unfold Rdiv; lra |].
    intros v Hv. rewrite Hm, (Hx v Hv). lra. }
  assert (Hin : forall y, In y (column X f) -> y = x f).
  { intros y Hy. unfold column in Hy. apply in_map_iff in Hy.
    destruct Hy as (v & <- & Hv'). now apply Hx. }
  pose proof (column_nonempty X f Hne) as Hc.
  repeat split; auto.
  - unfold col_std. rewrite Hv. apply sqrt_0.
  - apply Hin. now apply np_min_In.
  - apply Hin. now apply np_max_In.
Qed.

End BuilderMore.

Section ScorerMore.
Context {L : Library}.
Local Open Scope R_scope.

Lemma scipy_mahalanobis_same (u v : vec) (VI : matrix) :
  (forall f, u f = v f) -> scipy_mahalanobis u v VI = Fin 0.
Proof.
  intros E. unfold scipy_mahalanobis, np_dot.
  rewrite sumF_zero by (intros f; rewrite E; lra).
  unfold np_sqrt. destruct (Rlt_dec 0 0); [lra |]. now rewrite sqrt_0.
Qed.

Lemma py_round_1 (n : nat) : py_round 1 n = 1.
Proof.
  apply (py_round_exact _ _ (10 ^ Z.of_nat n)). rewrite <- pow_IZR. lra.
Qed.

(** The cosine score of a vector against itself is 1, also for the zero
    vector, whose cosine distance is not a number. *)
Lemma cosine_score_same (u v x : vec) :
  (forall f, u f = x f) -> (forall f, v f = x f) ->
  fround (fmax (Fin 0) (fmin (Fin 1) (lift2 Rminus (Fin 1) (scipy_cosine u v)))) 4
  = Fin 1.
Proof.
  intros Hu Hv. unfold scipy_cosine.
  set (s := np_dot x x).
  assert (Huv : np_dot u v = s)
    by (apply sumF_ext; intros f; now rewrite Hu, Hv).
  assert (Huu : np_dot u u = s) by (apply sumF_ext; intros f; now rewrite Hu).
  assert (Hvv : np_dot v v = s) by (apply sumF_ext; intros f; now rewrite Hv).
  assert (Hs : 0 <= s) by (apply sumF_nonneg; intros f; nra).
  rewrite Huv, Huu, Hvv, (sqrt_square s Hs).
  destruct (Req_dec_T s 0) as [Hz | Hnz]; unfold fmin, fmax, flt; simpl.
  - destruct (Rlt_dec 0 1); [| lra]. simpl. now rewrite py_round_1.
  - replace (1 - s / s) with 0 by (field; exact Hnz).
    unfold np_clip. rewrite (Rmax_left 0 0), (Rmin_left 0 2) by lra.
    replace (1 - 0) with 1 by lra.
    destruct (Rlt_dec 1 1); [lra |].
    destruct (Rlt_dec 0 1); [| lra]. simpl. now rewrite py_round_1.
Qed.

End ScorerMore.

(** X1. When every track of the playlist carries the same feature vector
    (three tracks or more), the built descriptor has raw_std = 0 on every
    feature, and scoring a candidate with that same vector gives cosine and
    Mahalanobis scores of 1, a composite of at least 0.75 and the verdict
    ADD, whatever the anomaly model answers and whatever inverse the
    library returned. *)
Theorem identical_tracks_score_add {L : Library} (global : rng_state)
    (df : DataFrame) (name : option string) (d : DNA) (song : song_features)
    (x : vec) :
  build_playlist_dna global df name = Built d ->
  (forall r, In r (df_rows df) -> forall f, row_features r f = x f) ->
  (forall f, dict_get (song_get song f) 0%R = x f) ->
  (forall f, raw_std_vector d f = 0%R)
  /\ cosine_similarity (score_song song d) = Fin 1
  /\ mahalanobis_fit (score_song song d) = Fin 1
  /\ (exists c, composite (score_song song d) = Fin c /\ (0.75 <= c <= 1)%R)
  /\ sr_verdict (score_song song d) = ADD.
Proof.
  intros Hb Hrows Hsong.
  destruct (build_playlist_dna_built _ _ _ _ Hb) as (Hn & _ & _ & Hmean & Hstd & _).
  destruct (build_playlist_dna_fields _ _ _ _ Hb) as (_ & Hsc & _ & _ & Hmv & _).
  assert (Hne : feature_data df <> []) by (apply feature_data_nonempty; lia).
  assert (HX : forall v, In v (feature_data df) -> forall g, v g = x g).
  { intros v Hv g. unfold feature_data in Hv. apply in_map_iff in Hv.
    destruct Hv as (r & <- & Hr). now apply Hrows. }
  assert (Hstats := fun f => identical_sample_stats (feature_data df) x f Hne HX).
  assert (Hcos : cosine_similarity (score_song song d) = Fin 1).
  { simpl. apply (cosine_score_same _ _ x); [exact Hsong |].
    intros f. rewrite Hmean. now destruct (Hstats f) as (-> & _). }
  assert (Hmaha : mahalanobis_fit (score_song song d) = Fin 1).
  { simpl. rewrite scipy_mahalanobis_same.
    - simpl. replace (- (0 * (0 * 1)) / _)%R with 0%R by (unfold Rdiv; lra).
      rewrite exp_0. now rewrite py_round_1.
    - intros f. rewrite Hmv, Hsc, normalized_mean_zero by exact Hne.
      unfold scaler_transform. simpl. rewrite Hsong.
      destruct (Hstats f) as (-> & _). unfold Rdiv. lra. }
  split; [| split; [exact Hcos | split; [exact Hmaha |]]].
  - intros f. rewrite Hstd. now destruct (Hstats f) as (_ & _ & -> & _).
  - assert (Hiso : in_unit (isolation_forest_score (score_song song d)))
      by (simpl; apply fround_in_unit, clamp_in_unit).
    destruct (in_unit_inv _ Hiso) as (i & Ei & Hi).
    assert (Hc : exists c, composite (score_song song d) = Fin c /\ (0.75 <= c <= 1)%R).
    { change (composite (score_song song d))
        with (fround (lift2 Rplus
                (lift2 Rplus (lift1 (Rmult weight_cosine) (cosine_similarity (score_song song d)))
                             (lift1 (Rmult weight_mahalanobis) (mahalanobis_fit (score_song song d))))
                (lift1 (Rmult weight_isolation) (isolation_forest_score (score_song song d)))) 4).
      rewrite Hcos, Hmaha, Ei. simpl. eexists. split; [reflexivity |].
      unfold weight_cosine, weight_mahalanobis, weight_isolation.
      pose proof (py_round_between (0.30 * 1 + 0.45 * 1 + 0.25 * i) 4 7500 10000) as Hr.
      simpl in Hr. lra. }
    split; [exact Hc |].
    destruct Hc as (c & Ec & Hc).
    change (sr_verdict (score_song song d)) with (decide (composite (score_song song d))).
    rewrite Ec. apply decide_bands. lra.
Qed.

Lemma identical_tracks_score_witness :
  exists d : @DNA stub_library,
    @build_playlist_dna stub_library tt flat_playlist None = Built d
    /\ (forall r, In r (df_rows flat_playlist) -> forall f, row_features r f = 0%R)
    /\ (forall f, dict_get (song_get silent_song f) 0%R = 0%R)
    /\ mahalanobis_fit (score_song silent_song d) = Fin 1
    /\ sr_verdict (score_song silent_song d) = ADD.
Proof.
  assert (Hrows : forall r, In r (df_rows flat_playlist) ->
                            forall f, row_features r f = 0%R).
  { intros r [<- | [<- | [<- | []]]] f; reflexivity. }
  assert (Hsong : forall f, dict_get (song_get silent_song f) 0%R = 0%R)
    by reflexivity.
  eexists. split; [reflexivity |]. split; [exact Hrows |]. split; [exact Hsong |].
  pose proof (@identical_tracks_score_add stub_library tt flat_playlist None _
                silent_song (fun _ => 0%R) eq_refl Hrows Hsong)
    as (_ & _ & Hm & _ & Hv).
  exact (conj Hm Hv).
Defined.

Section CovarianceMore.
Context {L : Library}.
Local Open Scope R_scope.

Lemma np_eye_sym (i j : feature) : np_eye i j = np_eye j i.
Proof. destruct i, j; reflexivity. Qed.

Lemma regularized_cov_sym (X : list vec) (i j : feature) :
  regularized_cov X i j = regularized_cov X j i.
Proof.
  unfold regularized_cov, df_cov. rewrite (np_eye_sym i j). do 2 f_equal.
  apply np_sum_map_ext. intros x. lra.
Qed.

Lemma mat_vec_minus (C : matrix) (a b : vec) (i : feature) :
  mat_vec C (fun k => a k - b k) i = mat_vec C a i - mat_vec C b i.
Proof.
  unfold mat_vec.
  replace (sumF (fun j => C i j * a j) - sumF (fun j => C i j * b j))
    with (sumF (fun j => C i j * a j) + -1 * sumF (fun j => C i j * b j)) by lra.
  rewrite <- sumF_scal, <- sumF_plus. apply sumF_ext. intros j. lra.
Qed.

(** [np.dot(np.dot(delta, VI), delta)] is [delta . (VI delta)]. *)
Lemma vec_mat_dot (delta : vec) (VI : matrix) :
  np_dot (vec_mat delta VI) delta = np_dot delta (mat_vec VI delta).
Proof.
  unfold np_dot, vec_mat, mat_vec.
  transitivity (sumF (fun i => sumF (fun j => delta i * VI i j * delta j))).
  - rewrite sumF_swap. apply sumF_ext. intros j.
    rewrite (Rmult_comm _ (delta j)), <- sumF_scal.
    apply sumF_ext. intros i. lra.
  - apply sumF_ext. intros i. rewrite <- sumF_scal.
    apply sumF_ext. intros j. lra.
Qed.

(** A positive definite matrix has at most one right inverse, as a map. *)
Lemma inverse_unique (X : list vec) (VI VI' : matrix) (x : vec) (i : feature) :
  (2 <= length X)%nat ->
  is_inverse (regularized_cov X) VI ->
  is_inverse (regularized_cov X) VI' ->
  mat_vec VI x i = mat_vec VI' x i.
Proof.
  intros Hn H1 H2.
  set (w := fun k => mat_vec VI x k - mat_vec VI' x k).
  assert (Hw : forall k, mat_vec (regularized_cov X) w k = 0).
  { intros k. unfold w. rewrite mat_vec_minus, H1, H2. lra. }
  assert (Hq : np_dot (mat_vec (regularized_cov X) w) w = 0).
  { unfold np_dot. apply sumF_zero. intros k. rewrite Hw. lra. }
  destruct (Req_dec (w i) 0) as [E | Hne].
  - unfold w in E. lra.
  - pose proof (regularized_cov_positive_definite X w i Hn Hne). lra.
Qed.

End CovarianceMore.

(** X2. The covariance matrix stored in a built descriptor is symmetric
    and, thanks to the added epsilon on its diagonal, positive definite:
    its quadratic form is positive on every non-zero vector, so the matrix
    the builder hands to the inversion routine is never singular. *)
Theorem cov_matrix_symmetric_positive_definite {L : Library} (global : rng_state)
    (df : DataFrame) (name : option string) (d : DNA) :
  build_playlist_dna global df name = Built d ->
  (forall i j, cov_matrix d i j = cov_matrix d j i)
  /\ (forall (y : vec) (f : feature),
        y f <> 0%R -> (0 < np_dot (mat_vec (cov_matrix d) y) y)%R)
  /\ (forall y : vec,
        (forall i, mat_vec (cov_matrix d) y i = 0%R) -> forall f, y f = 0%R).
Proof.
  intros Hb.
  destruct (build_playlist_dna_built _ _ _ _ Hb) as (Hn & _ & _ & _ & _ & Hcov & _).
  assert (Hlen : (2 <= length (feature_data df))%nat)
    by (rewrite feature_data_length; lia).
  rewrite Hcov. split; [| split].
  - intros i j. apply regularized_cov_sym.
  - intros y f Hy. now apply (regularized_cov_positive_definite _ y f).
  - intros y Hy f. destruct (Req_dec (y f) 0) as [E | Hne]; [exact E |].
    pose proof (regularized_cov_positive_definite _ y f Hlen Hne) as Hpos.
    unfold np_dot in Hpos. rewrite sumF_zero in Hpos; [lra |].
    intros k. rewrite Hy. lra.
Qed.

Lemma cov_matrix_spd_witness :
  exists d : @DNA stub_library,
    @build_playlist_dna stub_library tt spread_playlist None = Built d
    /\ (forall i j, cov_matrix d i j = cov_matrix d j i)
    /\ (forall (y : vec) (f : feature),
          y f <> 0%R -> (0 < np_dot (mat_vec (cov_matrix d) y) y)%R).
Proof.
  eexists. split; [reflexivity |].
  pose proof (@cov_matrix_symmetric_positive_definite stub_library tt
                spread_playlist None _ eq_refl) as (Hs & Hp & _).
  exact (conj Hs Hp).
Defined.

(** X3. In a built descriptor the fitted scaler never divides by zero
    (every scale is positive, a constant feature getting scale 1), and the
    centre [mean_vector] of the normalised sample is the zero vector. *)
Theorem scaler_scale_positive_and_centre_zero {L : Library} (global : rng_state)
    (df : DataFrame) (name : option string) (d : DNA) :
  build_playlist_dna global df name = Built d ->
  (forall f, (0 < scale_ (scaler d) f)%R)
  /\ (forall f, mean_vector d f = 0%R).
Proof.
  intros Hb.
  destruct (build_playlist_dna_built _ _ _ _ Hb) as (Hn & _).
  destruct (build_playlist_dna_fields _ _ _ _ Hb) as (_ & Hsc & _ & _ & Hmv & _).
  rewrite Hsc, Hmv. split.
  - intros f. simpl. unfold handle_zeros_in_scale.
    destruct (Req_dec_T _ 0) as [E | Hne]; [lra |].
    pose proof (sqrt_pos (col_var 0 (feature_data df) f)). lra.
  - intros f. apply normalized_mean_zero, feature_data_nonempty. lia.
Qed.

Lemma scaler_scale_positive_witness :
  exists d : @DNA stub_library,
    @build_playlist_dna stub_library tt spread_playlist None = Built d
    /\ (forall f, (0 < scale_ (scaler d) f)%R)
    /\ (forall f, mean_vector d f = 0%R).
Proof.
  eexists. split; [reflexivity |].
  exact (@scaler_scale_positive_and_centre_zero stub_library tt
           spread_playlist None _ eq_refl).
Defined.

(** X4. The Mahalanobis score does not depend on which inverse of the
    covariance the library returned: against any two inverses of the built
    descriptor's covariance matrix, the distance of every pair of vectors
    is the same. *)
Theorem mahalanobis_independent_of_inverse {L : Library} (global : rng_state)
    (df : DataFrame) (name : option string) (d : DNA) (VI VI' : matrix)
    (u v : vec) :
  build_playlist_dna global df name = Built d ->
  is_inverse (cov_matrix d) VI ->
  is_inverse (cov_matrix d) VI' ->
  scipy_mahalanobis u v VI = scipy_mahalanobis u v VI'.
Proof.
  intros Hb H1 H2.
  destruct (build_playlist_dna_built _ _ _ _ Hb) as (Hn & _ & _ & _ & _ & Hcov & _).
  rewrite Hcov in H1, H2.
  assert (Hlen : (2 <= length (feature_data df))%nat)
    by (rewrite feature_data_length; lia).
  unfold scipy_mahalanobis. do 2 f_equal.
  rewrite !vec_mat_dot. unfold np_dot. apply sumF_ext. intros i. f_equal.
  now apply (inverse_unique (feature_data df)).
Qed.

Lemma mahalanobis_independent_witness :
  exists d : @DNA stub_library,
    @build_playlist_dna stub_library tt flat_playlist None = Built d
    /\ is_inverse (cov_matrix d) (inv_cov_matrix d)
    /\ is_inverse (cov_matrix d) (fun i j => (np_eye j i * 1000000)%R)
    /\ scipy_mahalanobis (fun _ => 1%R) (fun _ => 0%R) (inv_cov_matrix d)
       = scipy_mahalanobis (fun _ => 1%R) (fun _ => 0%R)
           (fun i j => (np_eye j i * 1000000)%R).
Proof.
  assert (Hinv' : is_inverse (regularized_cov (feature_data flat_playlist))
                             (fun i j => (np_eye j i * 1000000)%R)).
  { assert (E : forall (x : vec) (j : feature),
               mat_vec (fun i k => (np_eye k i * 1000000)%R) x j
               = mat_vec (fun i k => (np_eye i k * 1000000)%R) x j).
    { intros x j. unfold mat_vec. apply sumF_ext. intros k.
      now rewrite (np_eye_sym k j). }
    intros x i.
    transitivity (mat_vec (regularized_cov (feature_data flat_playlist))
                    (mat_vec (fun i k => (np_eye i k * 1000000)%R) x) i);
      [| apply flat_playlist_inverse].
    unfold mat_vec at 1 3. apply sumF_ext. intros j. now rewrite E. }
  eexists. split; [reflexivity |].
  split; [exact flat_playlist_inverse |]. split; [exact Hinv' |].
  exact (@mahalanobis_independent_of_inverse stub_library tt flat_playlist None _
           _ _ (fun _ => 1%R) (fun _ => 0%R) eq_refl flat_playlist_inverse Hinv').
Defined.

(** ** The report of [build_dna] *)

Section ReportFacts.
Context {L : Library}.
Local Open Scope R_scope.

Lemma np_sum_cons (a : R) (l : list R) : np_sum (a :: l) = a + np_sum l.
Proof. reflexivity. Qed.

(** *** The binary search of [np.searchsorted] *)

(** More turns than the width of the range change nothing: the search has
    ended by then. *)
Lemma binsearch_left_turns (a : list npfloat) (v : npfloat) (turns extra : nat) :
  forall min_idx max_idx,
    (max_idx - min_idx <= turns)%nat ->
    binsearch_left (turns + extra) a v min_idx max_idx
    = binsearch_left turns a v min_idx max_idx.
Proof.
  induction turns as [| turns IH]; intros lo hi Hw.
  - cbn [Nat.add binsearch_left]. destruct extra as [| extra]; [reflexivity |].
    cbn [binsearch_left]. destruct (Nat.ltb_spec lo hi); [lia | reflexivity].
  - cbn [Nat.add binsearch_left]. destruct (Nat.ltb_spec lo hi) as [Hlt | Hge];
      [| reflexivity].
    assert (Hmid : (lo <= lo + (hi - lo) / 2 < hi)%nat).
    { pose proof (Nat.div_mod_eq (hi - lo) 2).
      pose proof (Nat.mod_upper_bound (hi - lo) 2). lia. }
    destruct (np_less (nth (lo + (hi - lo) / 2) a NaN) v); apply IH; lia.
Qed.

(** On an array that holds the values of a non-decreasing function, the
    search finds the number of leading entries below [v]. *)
Lemma binsearch_left_monotone (a : list npfloat) (g : nat -> R) (v : R) (k : nat) :
  (forall i, (i < length a)%nat -> nth i a NaN = Fin (g i)) ->
  (forall i, (i < k)%nat -> g i < v) ->
  (forall i, (k <= i < length a)%nat -> v <= g i) ->
  forall turns min_idx max_idx,
    (min_idx <= k <= max_idx)%nat -> (max_idx <= length a)%nat ->
    (max_idx - min_idx <= turns)%nat ->
    binsearch_left turns a (Fin v) min_idx max_idx = k.
Proof.
  intros Hnth Hbelow Habove.
  induction turns as [| turns IH]; intros lo hi Hk Hhi Hw; cbn [binsearch_left];
    [lia |].
  destruct (Nat.ltb_spec lo hi) as [Hlt | Hge]; [| lia].
  assert (Hmid : (lo <= lo + (hi - lo) / 2 < hi)%nat).
  { pose proof (Nat.div_mod_eq (hi - lo) 2).
    pose proof (Nat.mod_upper_bound (hi - lo) 2). lia. }
  set (mid := (lo + (hi - lo) / 2)%nat) in *.
  rewrite Hnth by lia. cbn [np_less].
  destruct (Rlt_dec (g mid) v) as [Hl | Hnl].
  - apply IH; [| lia | lia].
    destruct (Nat.le_gt_cases k mid) as [Hkm | Hkm]; [| lia].
    specialize (Habove mid ltac:(lia)). lra.
  - apply IH; [| lia | lia].
    destruct (Nat.le_gt_cases k mid) as [Hkm | Hkm]; [lia |].
    specialize (Hbelow mid Hkm). lra.
Qed.

(** On an array of NaN the search finds position 0. *)
Lemma binsearch_left_nan (a : list npfloat) (v : R) :
  (forall i, (i < length a)%nat -> nth i a NaN = NaN) ->
  forall turns max_idx,
    (max_idx <= length a)%nat -> binsearch_left turns a (Fin v) 0 max_idx = 0%nat.
Proof.
  intros Hnan. induction turns as [| turns IH]; intros hi Hhi; cbn [binsearch_left];
    [reflexivity |].
  destruct (Nat.ltb_spec 0 hi) as [Hlt | Hge]; [| reflexivity].
  assert (Hmid : (0 + (hi - 0) / 2 < hi)%nat).
  { pose proof (Nat.div_mod_eq (hi - 0) 2).
    pose proof (Nat.mod_upper_bound (hi - 0) 2). lia. }
  rewrite Hnan by lia. cbn [np_less]. apply IH. lia.
Qed.

(** Where a non-decreasing function of the first [n] indices crosses [v]. *)
Lemma monotone_threshold (g : nat -> R) (v : R) (n : nat) :
  (forall i j, (i <= j < n)%nat -> g i <= g j) ->
  exists k, (k <= n)%nat
            /\ (forall i, (i < k)%nat -> g i < v)
            /\ (forall i, (k <= i < n)%nat -> v <= g i).
Proof.
  induction n as [| n IH]; intros Hmono.
  - exists 0%nat. repeat split; intros; lia.
  - destruct IH as (k & Hk & Hbelow & Habove).
    { intros i j Hij. apply Hmono. lia. }
    destruct (Nat.eq_dec k n) as [-> | Hne].
    + destruct (Rlt_dec (g n) v) as [Hl | Hnl].
      * exists (S n). split; [lia |]. split; [| intros; lia].
        intros i Hi. destruct (Nat.eq_dec i n) as [-> | Hin]; [exact Hl |].
        apply Hbelow. lia.
      * exists n. split; [lia |]. split; [exact Hbelow |].
        intros i Hi. replace i with n by lia. lra.
    + exists k. split; [lia |]. split; [exact Hbelow |].
      intros i Hi. destruct (Nat.eq_dec i n) as [-> | Hin]; [| apply Habove; lia].
      specialize (Habove k ltac:(lia)). specialize (Hmono k n ltac:(lia)). lra.
Qed.

(** *** The running sums of [np.cumsum] *)

Lemma np_cumsum_from_length (acc : npfloat) (l : list npfloat) :
  length (np_cumsum_from acc l) = length l.
Proof.
  revert acc. induction l as [| x t IH]; intros acc; cbn; [reflexivity |].
  now rewrite IH.
Qed.

Lemma np_cumsum_from_nth (acc : R) (ratios : list R) (i : nat) :
  (i < length ratios)%nat ->
  nth i (np_cumsum_from (Fin acc) (map Fin ratios)) NaN
  = Fin (acc + np_sum (firstn (S i) ratios)).
Proof.
  revert acc i. induction ratios as [| x t IH]; intros acc i Hi; [cbn in Hi; lia |].
  cbn [map np_cumsum_from lift2]. rewrite firstn_cons, np_sum_cons.
  destruct i as [| i].
  - cbn [nth]. rewrite firstn_O. cbn. f_equal. lra.
  - cbn [nth]. rewrite IH by (cbn in Hi; lia). f_equal. lra.
Qed.

Lemma np_cumsum_from_nan (l : list npfloat) (i : nat) :
  nth i (np_cumsum_from NaN l) NaN = NaN.
Proof.
  revert i. induction l as [| x t IH]; intros i; cbn [np_cumsum_from lift2].
  - now destruct i.
  - destruct i as [| i]; [reflexivity | apply IH].
Qed.

Lemma np_sum_firstn_monotone (ratios : list R) (i j : nat) :
  Forall (fun r => 0 <= r) ratios -> (i <= j)%nat ->
  np_sum (firstn i ratios) <= np_sum (firstn j ratios).
Proof.
  intros Hpos. revert i j. induction Hpos as [| x t Hx _ IH]; intros i j Hij.
  - rewrite !firstn_nil. lra.
  - destruct i as [| i].
    + rewrite firstn_O. cbn [np_sum fold_right]. destruct j as [| j].
      * rewrite firstn_O. cbn. lra.
      * rewrite firstn_cons, np_sum_cons.
        specialize (IH 0%nat j ltac:(lia)). rewrite firstn_O in IH. cbn in IH. lra.
    + destruct j as [| j]; [lia |].
      rewrite !firstn_cons, !np_sum_cons. specialize (IH i j ltac:(lia)). lra.
Qed.

Lemma tightness_of_unit (std : vec) (f : feature) :
  0 <= std f -> 0 <= tightness_of std f <= 1.
Proof.
  intros Hs. pose proof (FEATURE_RANGES_pos f) as Hr.
  assert (Hq : 0 <= std f / FEATURE_RANGES f).
  { apply Rmult_le_pos; [exact Hs | left; now apply Rinv_0_lt_compat]. }
  unfold tightness_of, py_max.
  destruct (Rlt_dec 0 (1 - std f / FEATURE_RANGES f * 3)); lra.
Qed.

Lemma identity_of_unit (mean : vec) (f : feature) : 0 <= identity_of mean f <= 1.
Proof.
  pose proof (FEATURE_RANGES_pos f) as Hr.
  assert (Hi : 0 <= Rabs (mean f - baselines f) / FEATURE_RANGES f * 2.5).
  { apply Rmult_le_pos; [| lra].
    apply Rmult_le_pos; [apply Rabs_pos | left; now apply Rinv_0_lt_compat]. }
  unfold identity_of, py_min.
  destruct (Rlt_dec 1 (Rabs (mean f - baselines f) / FEATURE_RANGES f * 2.5)); lra.
Qed.

Lemma conviction_of_max (mean std : vec) (f : feature) :
  tightness_of std f <= conviction_of mean std f
  /\ identity_of mean f <= conviction_of mean std f
  /\ (conviction_of mean std f = tightness_of std f
      \/ conviction_of mean std f = identity_of mean f).
Proof.
  unfold conviction_of, py_max.
  destruct (Rlt_dec (tightness_of std f) (identity_of mean f)); repeat split; auto; lra.
Qed.

Lemma py_round_py_max (a b : R) (n : nat) :
  py_round (py_max a b) n = Rmax (py_round a n) (py_round b n).
Proof.
  unfold py_max. destruct (Rlt_dec a b) as [Hlt | Hge].
  - rewrite Rmax_right; [reflexivity | apply py_round_monotone; lra].
  - rewrite Rmax_left; [reflexivity | apply py_round_monotone; lra].
Qed.

End ReportFacts.

(** X5. When the explained-variance ratios are numbers, none negative,
    [dims_for_90] is the smallest number of leading components whose ratios
    sum to at least 0.90: every shorter prefix sums to less than 0.90; when
    no prefix reaches 0.90 it is one more than the number of components.
    When the first ratio is NaN (the ratios of a sample without variance
    are [0/0]), every running sum is NaN and [dims_for_90] is 1. *)
Theorem dims_for_90_smallest_prefix {L : Library} (global : rng_state)
    (df : DataFrame) (name : option string) (d : DNA) :
  build_playlist_dna global df name = Built d ->
  (forall ratios : list R,
      explained_variance d = map Fin ratios ->
      Forall (fun r => 0 <= r)%R ratios ->
      (1 <= dims_for_90 d <= length ratios + 1)%nat
      /\ ((dims_for_90 d <= length ratios)%nat ->
          (0.90 <= np_sum (firstn (dims_for_90 d) ratios))%R)
      /\ (forall k, (1 <= k < dims_for_90 d)%nat ->
                    (np_sum (firstn k ratios) < 0.90)%R)
      /\ ((forall k, (k <= length ratios)%nat ->
                     (np_sum (firstn k ratios) < 0.90)%R) ->
          dims_for_90 d = (length ratios + 1)%nat))
  /\ (forall rest, explained_variance d = NaN :: rest -> dims_for_90 d = 1%nat).
Proof.
  intros Hb.
  destruct (build_playlist_dna_fields _ _ _ _ Hb) as (_ & _ & _ & _ & _ & _ & Hdims).
  split.
  - intros ratios Hev Hpos. rewrite Hdims, Hev. unfold np_cumsum, np_searchsorted.
    rewrite np_cumsum_from_length, length_map.
    set (g := fun i => (0 + np_sum (firstn (S i) ratios))%R).
    destruct (monotone_threshold g (90 / 100) (length ratios))
      as (k & Hk & Hbelow & Habove).
    { intros i j Hij. unfold g.
      pose proof (np_sum_firstn_monotone ratios (S i) (S j) Hpos ltac:(lia)). lra. }
    rewrite (binsearch_left_monotone _ g (90 / 100) k).
    + unfold g in Hbelow, Habove. split; [lia |]. split; [| split].
      * intros Hle. specialize (Habove k ltac:(lia)).
        rewrite Nat.add_1_r. lra.
      * intros [| j] Hj; [lia |]. specialize (Hbelow j ltac:(lia)). lra.
      * intros Hnone.
        destruct (Nat.eq_dec k (length ratios)) as [-> | Hne]; [reflexivity |].
        specialize (Habove k ltac:(lia)). specialize (Hnone (S k) ltac:(lia)). lra.
    + intros i Hi. rewrite np_cumsum_from_length, length_map in Hi.
      now apply np_cumsum_from_nth.
    + exact Hbelow.
    + intros i Hi. rewrite np_cumsum_from_length, length_map in Hi.
      now apply Habove.
    + lia.
    + rewrite np_cumsum_from_length, length_map. lia.
    + lia.
  - intros rest Hev. rewrite Hdims, Hev. unfold np_cumsum, np_searchsorted.
    rewrite binsearch_left_nan; [reflexivity | | lia].
    intros i _. cbn [np_cumsum_from lift2].
    destruct i as [| i]; [reflexivity | apply np_cumsum_from_nan].
Qed.

Lemma dims_for_90_witness :
  exists d : @DNA stub_library,
    @build_playlist_dna stub_library tt spread_playlist None = Built d
    /\ explained_variance d = map Fin [1; 0]%R
    /\ Forall (fun r => 0 <= r)%R [1; 0]%R
    /\ dims_for_90 d = 1%nat
    /\ ((dims_for_90 d <= 2)%nat -> (0.90 <= np_sum (firstn (dims_for_90 d) [1; 0]))%R)
    /\ exists d' : @DNA zero_variance_library,
         @build_playlist_dna zero_variance_library tt flat_playlist None = Built d'
         /\ explained_variance d' = [NaN; NaN]
         /\ dims_for_90 d' = 1%nat.
Proof.
  assert (Hpos : Forall (fun r => 0 <= r)%R [1; 0]%R) by (repeat constructor; lra).
  eexists. split; [reflexivity |]. split; [reflexivity |]. split; [exact Hpos |].
  destruct (@dims_for_90_smallest_prefix stub_library tt spread_playlist None _ eq_refl)
    as (Hnum & _).
  destruct (Hnum [1; 0]%R eq_refl Hpos) as (Hrange & Hreach & Hshort & _).
  split; [| split; [exact Hreach |]].
  - match type of Hrange with
    | (1 <= ?x <= _)%nat => set (dims := x) in *
    end.
    destruct (Nat.eq_dec dims 1) as [E | Hne]; [exact E |].
    exfalso. specialize (Hshort 1%nat ltac:(lia)). cbn in Hshort. lra.
  - eexists. split; [reflexivity |]. split; [reflexivity |].
    exact (proj2 (@dims_for_90_smallest_prefix zero_variance_library tt flat_playlist
                    None _ eq_refl) [NaN] eq_refl).
Defined.

(** X6. In the feature profile of the build report, every feature has
    min <= mean <= max, and its std and range are not negative (all five
    as reported, rounded to 4 decimals). *)
Theorem feature_profile_ordered {L : Library} (global : rng_state)
    (df : DataFrame) (name : option string) (d : DNA) (f : feature) :
  build_playlist_dna global df name = Built d ->
  let p := rep_feature_profile (report_of name d) f in
  (fp_min p <= fp_mean p <= fp_max p)%R
  /\ (0 <= fp_std p)%R
  /\ (0 <= fp_range p)%R.
Proof.
  intros Hb.
  destruct (build_playlist_dna_built _ _ _ _ Hb) as (Hn & _ & _ & Hmean & Hstd & _).
  destruct (build_playlist_dna_fields _ _ _ _ Hb) as (_ & _ & Hmin & Hmax & _).
  simpl. rewrite Hmean, Hstd, Hmin, Hmax.
  assert (Hne : column (feature_data df) f <> []).
  { apply column_nonempty, feature_data_nonempty. lia. }
  pose proof (np_min_le_mean_le_max _ Hne) as [H1 H2].
  repeat split.
  - now apply py_round_monotone.
  - now apply py_round_monotone.
  - apply py_round_nonneg, col_std_nonneg.
  - apply py_round_nonneg. unfold col_max, col_min. lra.
Qed.

Lemma feature_profile_witness :
  exists d : @DNA stub_library,
    @build_playlist_dna stub_library tt spread_playlist None = Built d
    /\ (fp_min (rep_feature_profile (report_of None d) tempo)
        <= fp_mean (rep_feature_profile (report_of None d) tempo)
        <= fp_max (rep_feature_profile (report_of None d) tempo))%R.
Proof.
  eexists. split; [reflexivity |].
  exact (proj1 (@feature_profile_ordered stub_library tt spread_playlist None _
                  tempo eq_refl)).
Defined.

(** X7. For every built descriptor the reported cohesion score lies between
    0 and 100, the conviction breakdown has one entry per feature, and in
    each entry tightness, identity and conviction lie between 0 and 1 with
    the conviction equal to the larger of the other two. *)
Theorem cohesion_score_bounds {L : Library} (global : rng_state)
    (df : DataFrame) (name : option string) (d : DNA) :
  build_playlist_dna global df name = Built d ->
  (0 <= rep_cohesion_score (report_of name d) <= 100)%R
  /\ map cd_feature (rep_conviction_breakdown (report_of name d)) = DNA_FEATURES
  /\ Forall (fun c =>
               (0 <= cd_tightness c <= 1)%R
               /\ (0 <= cd_identity c <= 1)%R
               /\ cd_conviction c = Rmax (cd_tightness c) (cd_identity c))
            (rep_conviction_breakdown (report_of name d)).
Proof.
  intros Hb.
  destruct (build_playlist_dna_built _ _ _ _ Hb) as (_ & _ & Hcols & _ & Hstd & _).
  assert (Hs : forall f, (0 <= raw_std_vector d f)%R)
    by (intros f; rewrite Hstd; apply col_std_nonneg).
  assert (Hentry : forall f,
             let c := conviction_entry (raw_mean_vector d) (raw_std_vector d) f in
             (0 <= cd_tightness c <= 1)%R /\ (0 <= cd_identity c <= 1)%R
             /\ cd_conviction c = Rmax (cd_tightness c) (cd_identity c)
             /\ (0 <= cd_conviction c <= 1)%R).
  { intros f. cbn [conviction_entry cd_tightness cd_identity cd_conviction].
    pose proof (tightness_of_unit (raw_std_vector d) f (Hs f)) as Ht.
    pose proof (identity_of_unit (raw_mean_vector d) f) as Hi.
    destruct (conviction_of_max (raw_mean_vector d) (raw_std_vector d) f)
      as (Hct & Hci & Hor).
    pose proof (py_round_unit _ 3 Ht) as Hrt.
    pose proof (py_round_unit _ 3 Hi) as Hri.
    pose proof (py_round_monotone _ _ 3 Hct) as Hmt.
    pose proof (py_round_monotone _ _ 3 Hci) as Hmi.
    assert (Hmax : py_round (conviction_of (raw_mean_vector d) (raw_std_vector d) f) 3
                   = Rmax (py_round (tightness_of (raw_std_vector d) f) 3)
                          (py_round (identity_of (raw_mean_vector d) f) 3))
      by apply py_round_py_max.
    split; [exact Hrt |]. split; [exact Hri |]. split; [exact Hmax |].
    rewrite Hmax. apply Rmax_case; lra. }
  split; [| split].
  - change (rep_cohesion_score (report_of name d)) with (cohesion_score d).
    unfold cohesion_score, conviction_details. rewrite Hcols, map_map.
    assert (Hmean : (0 <= np_mean (map (fun f => cd_conviction
                       (conviction_entry (raw_mean_vector d) (raw_std_vector d) f))
                       DNA_FEATURES) <= 1)%R).
    { apply np_mean_between; [discriminate |].
      intros y Hy. apply in_map_iff in Hy. destruct Hy as (f & <- & _).
      now destruct (Hentry f) as (_ & _ & _ & H). }
    set (m := np_mean _) in *.
    assert (H : (IZR 0 / 10 ^ 1 <= m * 100 <= IZR 1000 / 10 ^ 1)%R) by (simpl; lra).
    apply py_round_between in H. simpl in H. lra.
  - change (rep_conviction_breakdown (report_of name d)) with (conviction_details d).
    unfold conviction_details. rewrite Hcols, map_map. simpl. reflexivity.
  - change (rep_conviction_breakdown (report_of name d)) with (conviction_details d).
    unfold conviction_details. apply Forall_forall. intros c Hc.
    apply in_map_iff in Hc. destruct Hc as (f & <- & _).
    destruct (Hentry f) as (H1 & H2 & H3 & _). auto.
Qed.

Lemma cohesion_score_bounds_witness :
  exists d : @DNA stub_library,
    @build_playlist_dna stub_library tt spread_playlist None = Built d
    /\ (0 <= rep_cohesion_score (report_of None d) <= 100)%R
    /\ map cd_feature (rep_conviction_breakdown (report_of None d)) = DNA_FEATURES.
Proof.
  eexists. split; [reflexivity |].
  pose proof (@cohesion_score_bounds stub_library tt spread_playlist None _ eq_refl)
    as (Hc & Hf & _).
  exact (conj Hc Hf).
Defined.

(** X8. A playlist whose tracks all carry the same feature vector is
    reported as fully cohesive: every feature has tightness 1 and
    conviction 1, and the cohesion score is 100. *)
Theorem identical_tracks_cohesion_100 {L : Library} (global : rng_state)
    (df : DataFrame) (name : option string) (d : DNA) (x : vec) :
  build_playlist_dna global df name = Built d ->
  (forall r, In r (df_rows df) -> forall f, row_features r f = x f) ->
  rep_cohesion_score (report_of name d) = 100%R
  /\ Forall (fun c => cd_tightness c = 1%R /\ cd_conviction c = 1%R)
            (rep_conviction_breakdown (report_of name d)).
Proof.
  intros Hb Hrows.
  destruct (build_playlist_dna_built _ _ _ _ Hb) as (Hn & _ & Hcols & _ & Hstd & _).
  assert (Hne : feature_data df <> []) by (apply feature_data_nonempty; lia).
  assert (HX : forall v, In v (feature_data df) -> forall g, v g = x g).
  { intros v Hv g. unfold feature_data in Hv. apply in_map_iff in Hv.
    destruct Hv as (r & <- & Hr). now apply Hrows. }
  assert (Hzero : forall f, raw_std_vector d f = 0%R).
  { intros f. rewrite Hstd.
    now destruct (identical_sample_stats (feature_data df) x f Hne HX) as (_ & _ & -> & _). }
  assert (Ht : forall f, tightness_of (raw_std_vector d) f = 1%R).
  { intros f. unfold tightness_of, py_max. rewrite Hzero.
    destruct (Rlt_dec 0 (1 - 0 / FEATURE_RANGES f * 3)) as [_ | Hno];
      unfold Rdiv in *; lra. }
  assert (Hc : forall f, conviction_of (raw_mean_vector d) (raw_std_vector d) f = 1%R).
  { intros f. unfold conviction_of, py_max. rewrite Ht.
    pose proof (identity_of_unit (raw_mean_vector d) f).
    destruct (Rlt_dec 1 (identity_of (raw_mean_vector d) f)); lra. }
  split.
  - change (rep_cohesion_score (report_of name d)) with (cohesion_score d).
    unfold cohesion_score, conviction_details. rewrite Hcols, map_map.
    rewrite (np_mean_const _ 1%R); [| discriminate |].
    + replace (1 * 100)%R with 100%R by lra.
      apply (py_round_exact _ _ 1000). simpl. lra.
    + intros f _. cbn [conviction_entry cd_conviction]. rewrite Hc. apply py_round_1.
  - change (rep_conviction_breakdown (report_of name d)) with (conviction_details d).
    unfold conviction_details. apply Forall_forall. intros c Hin.
    apply in_map_iff in Hin. destruct Hin as (f & <- & _).
    cbn [conviction_entry cd_tightness cd_conviction].
    rewrite Ht, Hc. split; apply py_round_1.
Qed.

Lemma identical_tracks_cohesion_witness :
  exists d : @DNA stub_library,
    @build_playlist_dna stub_library tt flat_playlist None = Built d
    /\ (forall r, In r (df_rows flat_playlist) -> forall f, row_features r f = 0%R)
    /\ rep_cohesion_score (report_of None d) = 100%R.
Proof.
  assert (Hrows : forall r, In r (df_rows flat_playlist) ->
                            forall f, row_features r f = 0%R).
  { intros r [<- | [<- | [<- | []]]] f; reflexivity. }
  eexists. split; [reflexivity |]. split; [exact Hrows |].
  exact (proj1 (@identical_tracks_cohesion_100 stub_library tt flat_playlist None _
                  (fun _ => 0%R) eq_refl Hrows)).
Defined.

(** ** The session: exclusions *)

Section ExcludeFacts.

Lemma validate_positions_accepts (n : nat) (positions : list Z) :
  Forall (fun pos => (1 <= pos <= Z.of_nat n)%Z) positions ->
  validate_positions n positions = inr (map (fun pos => (pos - 1)%Z) positions).
Proof.
  induction 1 as [| p rest Hp _ IH]; cbn [validate_positions map]; [reflexivity |].
  assert (E : ((p <? 1) || (p >? Z.of_nat n))%Z = false).
  { apply orb_false_iff. split; [| rewrite Z.gtb_ltb]; apply Z.ltb_ge; lia. }
  now rewrite E, IH.
Qed.

Lemma existsb_shift (a : nat) (positions : list Z) :
  existsb (Z.eqb (Z.of_nat a)) (map (fun pos => (pos - 1)%Z) positions)
  = existsb (Z.eqb (Z.of_nat (S a))) positions.
Proof.
  induction positions as [| p rest IH]; cbn [existsb map]; [reflexivity |].
  rewrite IH. f_equal.
  destruct (Z.eqb_spec (Z.of_nat a) (p - 1)), (Z.eqb_spec (Z.of_nat (S a)) p);
    try reflexivity; lia.
Qed.

(** Dropping by 0-based index is keeping the records whose 1-based position
    was not asked for. *)
Lemma drop_rows_filter (positions : list Z) (rows : list track_row) (a : nat) :
  map snd
    (filter (fun p => negb (existsb (Z.eqb (Z.of_nat (fst p)))
                                    (map (fun pos => (pos - 1)%Z) positions)))
            (combine (seq a (length rows)) rows))
  = map fst
      (filter (fun rec => negb (existsb (Z.eqb (Z.of_nat (snd rec))) positions))
              (combine rows (seq (S a) (length rows)))).
Proof.
  revert a. induction rows as [| r rows IH]; intros a; [reflexivity |].
  cbn [length seq combine filter fst snd]. rewrite existsb_shift.
  destruct (existsb (Z.eqb (Z.of_nat (S a))) positions);
    cbn [negb map fst snd]; [| f_equal]; apply IH.
Qed.

Lemma map_fst_combine_seq {A : Type} (l : list A) (a : nat) :
  map fst (combine l (seq a (length l))) = l.
Proof.
  revert a. induction l as [| x l IH]; intros a; [reflexivity |].
  cbn [length seq combine map fst]. now rewrite IH.
Qed.

Lemma map_snd_combine_seq {A : Type} (l : list A) (a : nat) :
  map snd (combine l (seq a (length l))) = seq a (length l).
Proof.
  revert a. induction l as [| x l IH]; intros a; [reflexivity |].
  cbn [length seq combine map snd]. now rewrite IH.
Qed.

Lemma map_snd_combine_seq_l {A : Type} (l : list A) (a : nat) :
  map snd (combine (seq a (length l)) l) = l.
Proof.
  revert a. induction l as [| x l IH]; intros a; [reflexivity |].
  cbn [length seq combine map snd]. now rewrite IH.
Qed.

Lemma filter_negb_length {A : Type} (p : A -> bool) (l : list A) :
  (length (filter p l) + length (filter (fun x => negb (p x)) l) = length l)%nat.
Proof.
  induction l as [| x l IH]; [reflexivity |].
  cbn [filter]. destruct (p x); cbn [negb length]; lia.
Qed.

Lemma filter_combine_fst_length {A : Type} (p : nat -> bool) (l : list A) (a : nat) :
  length (filter (fun q => p (fst q)) (combine (seq a (length l)) l))
  = length (filter p (seq a (length l))).
Proof.
  revert a. induction l as [| x l IH]; intros a; [reflexivity |].
  cbn [length seq combine filter fst]. destruct (p a); cbn [length]; now rewrite IH.
Qed.

Lemma NoDup_map_injective {A B : Type} (f : A -> B) (l : list A) :
  (forall x y, f x = f y -> x = y) -> NoDup l -> NoDup (map f l).
Proof.
  intros Hinj. induction 1 as [| x l Hx _ IH]; cbn [map]; constructor; [| exact IH].
  intros Hin. apply in_map_iff in Hin. destruct Hin as (y & E & Hy).
  apply Hinj in E. now subst.
Qed.

(** The rows an exclusion removes are as many as the distinct positions
    asked for. *)
Lemma dropped_count (positions : list Z) (n : nat) :
  Forall (fun pos => (1 <= pos <= Z.of_nat n)%Z) positions ->
  length (filter (fun i => existsb (Z.eqb (Z.of_nat (S i))) positions) (seq 0 n))
  = length (nodup Z.eq_dec positions).
Proof.
  intros Hpos.
  rewrite <- (length_map (fun i => Z.of_nat (S i))).
  apply Permutation_length, NoDup_Permutation.
  - apply NoDup_map_injective; [intros x y; lia |].
    apply NoDup_filter, seq_NoDup.
  - apply NoDup_nodup.
  - intros z. rewrite in_map_iff, nodup_In. split.
    + intros (i & <- & Hi). apply filter_In in Hi. destruct Hi as (_ & Hex).
      apply existsb_exists in Hex. destruct Hex as (y & Hy & E).
      apply Z.eqb_eq in E. now rewrite E.
    + intros Hz. rewrite Forall_forall in Hpos. pose proof (Hpos z Hz) as Hr.
      exists (Z.to_nat (z - 1)). split; [lia |]. apply filter_In.
      split; [apply in_seq; lia |].
      apply existsb_exists. exists z. split; [exact Hz | apply Z.eqb_eq; lia].
Qed.

Lemma drop_rows_length (positions : list Z) (df : DataFrame) :
  Forall (fun pos => (1 <= pos <= Z.of_nat (df_len df))%Z) positions ->
  (df_len (drop_rows (map (fun pos => (pos - 1)%Z) positions) df)
   + length (nodup Z.eq_dec positions) = df_len df)%nat.
Proof.
  intros Hpos. unfold df_len, drop_rows. cbn [df_rows].
  rewrite length_map.
  rewrite <- (dropped_count positions (length (df_rows df)) Hpos).
  set (p := fun i : nat => existsb (Z.eqb (Z.of_nat (S i))) positions).
  rewrite <- (filter_combine_fst_length p (df_rows df) 0).
  rewrite (filter_ext (fun q : nat * track_row =>
                         negb (existsb (Z.eqb (Z.of_nat (fst q)))
                                 (map (fun pos => (pos - 1)%Z) positions)))
                      (fun q => negb (p (fst q)))).
  2:{ intros q. unfold p. now rewrite existsb_shift. }
  rewrite Nat.add_comm.
  rewrite (filter_negb_length (fun q : nat * track_row => p (fst q))).
  rewrite length_combine, length_seq. apply Nat.min_id.
Qed.

Lemma drop_rows_nil (df : DataFrame) : drop_rows [] df = df.
Proof.
  destruct df as [cols rows]. unfold drop_rows, df_len. cbn [df_columns df_rows].
  f_equal. cbn [existsb negb].
  assert (E : forall {A} (l : list A), filter (fun _ => true) l = l).
  { intros A l. induction l as [| x l IH]; [reflexivity |]. cbn. now rewrite IH. }
  rewrite E. apply map_snd_combine_seq_l.
Qed.

End ExcludeFacts.

(** X9. An exclusion whose positions all lie in 1..track count is accepted:
    the tracks kept are exactly those of the previous listing whose
    position was not asked for, in the same order and renumbered from 1;
    the table keeps its columns, the playlist keeps its name and
    identifier, and the stored descriptor is discarded. *)
Theorem exclude_tracks_keeps_unlisted {L : Library} (s : session)
    (df : DataFrame) (positions : list Z) :
  s_data s = Some df ->
  Forall (fun pos => (1 <= pos <= Z.of_nat (df_len df))%Z) positions ->
  exists (body : exclude_body) (s' : session),
    exclude_tracks positions s = (Returned body, s')
    /\ map fst (ex_data body)
       = map fst (filter (fun rec => negb (existsb (Z.eqb (Z.of_nat (snd rec)))
                                                   positions))
                         (records df))
    /\ map snd (ex_data body) = seq 1 (remaining_count body)
    /\ s_data s'
       = Some {| df_columns := df_columns df; df_rows := map fst (ex_data body) |}
    /\ s_dna s' = None
    /\ s_playlist_name s' = s_playlist_name s
    /\ s_playlist_id s' = s_playlist_id s
    /\ ex_playlist_name body = s_playlist_name s.
Proof.
  intros Hd Hpos. unfold exclude_tracks. rewrite Hd.
  rewrite (validate_positions_accepts _ _ Hpos).
  eexists. eexists. split; [reflexivity |]. cbn [ex_data remaining_count
    s_data s_dna s_playlist_name s_playlist_id ex_playlist_name].
  set (kept := drop_rows (map (fun pos => (pos - 1)%Z) positions) df).
  assert (Hrows : df_rows kept
                  = map fst (filter (fun rec => negb (existsb (Z.eqb (Z.of_nat (snd rec)))
                                                              positions))
                                    (records df))).
  { unfold kept, drop_rows, records, df_len. cbn [df_rows]. apply drop_rows_filter. }
  assert (Hfst : map fst (records kept) = df_rows kept).
  { unfold records, df_len. apply map_fst_combine_seq. }
  split; [now rewrite Hfst |].
  split; [unfold records, df_len; apply map_snd_combine_seq |].
  split; [rewrite Hfst; reflexivity |].
  repeat split.
Qed.

Lemma exclude_tracks_keeps_unlisted_witness :
  s_data loaded_session = Some flat_playlist
  /\ Forall (fun pos => (1 <= pos <= Z.of_nat (df_len flat_playlist))%Z) [2; 2]%Z
  /\ exists (body : exclude_body) (s' : @session stub_library),
       @exclude_tracks stub_library [2; 2]%Z loaded_session = (Returned body, s')
       /\ map fst (ex_data body) = [row_of "t1" (fun _ => 0%R); row_of "t3" (fun _ => 0%R)]
       /\ map snd (ex_data body) = [1; 2]%nat.
Proof.
  assert (Hpos : Forall (fun pos => (1 <= pos <= Z.of_nat (df_len flat_playlist))%Z)
                        [2; 2]%Z).
  { repeat constructor; unfold df_len; simpl; lia. }
  split; [reflexivity |]. split; [exact Hpos |].
  destruct (@exclude_tracks_keeps_unlisted stub_library loaded_session flat_playlist
              [2; 2]%Z eq_refl Hpos) as (body & s' & He & Hf & Hs & _).
  exists body, s'. split; [exact He |].
  unfold exclude_tracks in He. cbn in He. injection He as <- _.
  split; reflexivity.
Defined.

(** X10. The counts an accepted exclusion reports: [excluded_count] is the
    number of distinct positions asked for (a position repeated in the
    request is removed once), [remaining_count] is the number of records
    returned, and the two add up to the previous track count. *)
Theorem exclude_tracks_counts {L : Library} (s : session)
    (df : DataFrame) (positions : list Z) :
  s_data s = Some df ->
  Forall (fun pos => (1 <= pos <= Z.of_nat (df_len df))%Z) positions ->
  exists (body : exclude_body),
    fst (exclude_tracks positions s) = Returned body
    /\ excluded_count body = length (nodup Z.eq_dec positions)
    /\ remaining_count body = length (ex_data body)
    /\ (excluded_count body + remaining_count body = df_len df)%nat.
Proof.
  intros Hd Hpos. unfold exclude_tracks. rewrite Hd.
  rewrite (validate_positions_accepts _ _ Hpos).
  eexists. split; [reflexivity |]. cbn [excluded_count remaining_count ex_data].
  pose proof (drop_rows_length positions df Hpos) as Hlen.
  set (kept := drop_rows (map (fun pos => (pos - 1)%Z) positions) df) in *.
  split; [lia |]. split; [| lia].
  unfold records. rewrite length_combine, length_seq. unfold df_len. lia.
Qed.

Lemma exclude_tracks_counts_witness :
  s_data loaded_session = Some flat_playlist
  /\ Forall (fun pos => (1 <= pos <= Z.of_nat (df_len flat_playlist))%Z) [2; 3; 2]%Z
  /\ exists (body : exclude_body),
       fst (@exclude_tracks stub_library [2; 3; 2]%Z loaded_session) = Returned body
       /\ excluded_count body = 2%nat
       /\ remaining_count body = 1%nat.
Proof.
  assert (Hpos : Forall (fun pos => (1 <= pos <= Z.of_nat (df_len flat_playlist))%Z)
                        [2; 3; 2]%Z).
  { repeat constructor; unfold df_len; simpl; lia. }
  split; [reflexivity |]. split; [exact Hpos |].
  destruct (@exclude_tracks_counts stub_library loaded_session flat_playlist
              [2; 3; 2]%Z eq_refl Hpos) as (body & He & Hx & Hr & Hsum).
  exists body. split; [exact He |].
  assert (E : excluded_count body = 2%nat) by (rewrite Hx; reflexivity).
  split; [exact E |]. rewrite E in Hsum. unfold df_len in Hsum. simpl in Hsum. lia.
Defined.

(** X11. An exclusion with no positions is accepted and removes nothing:
    it reports 0 excluded and the full listing, and the stored table is
    the same.  It still discards the stored descriptor, so the next score
    request is answered with status 404 until the descriptor is rebuilt. *)
Theorem exclude_nothing_discards_descriptor {L : Library} (s : session)
    (df : DataFrame) :
  s_data s = Some df ->
  exists (body : exclude_body) (s' : session),
    exclude_tracks [] s = (Returned body, s')
    /\ excluded_count body = 0%nat
    /\ remaining_count body = df_len df
    /\ ex_data body = records df
    /\ s_data s' = Some df
    /\ s_dna s' = None
    /\ forall song_data,
         score_track song_data s'
         = (HTTPException 404 "No DNA built yet. Run /build-dna first.", s').
Proof.
  intros Hd. unfold exclude_tracks. rewrite Hd. cbn [validate_positions].
  rewrite drop_rows_nil. eexists. eexists. split; [reflexivity |].
  cbn [excluded_count remaining_count ex_data s_data s_dna].
  repeat split. apply Nat.sub_diag.
Qed.

Lemma exclude_nothing_witness :
  s_data loaded_session = Some flat_playlist
  /\ exists (body : exclude_body) (s' : @session stub_library),
       @exclude_tracks stub_library [] loaded_session = (Returned body, s')
       /\ excluded_count body = 0%nat
       /\ remaining_count body = 3%nat
       /\ s_dna s' = None.
Proof.
  split; [reflexivity |].
  destruct (@exclude_nothing_discards_descriptor stub_library loaded_session
              flat_playlist eq_refl)
    as (body & s' & He & Hx & Hr & _ & _ & Hn & _).
  exists body, s'. repeat split; assumption.
Defined.

(** ** The session: what every sequence of requests keeps true *)

Section SessionInvariant.
Context {L : Library}.

Lemma handle_session_shape (req : request) (s : session) :
  session_shape s -> session_shape (handle req s).
Proof.
  intros Hs. destruct req as [result | positions | global | song_data]; cbn [handle].
  - destruct result; cbn; [exact Hs |]. split; split; intros H; discriminate H.
  - unfold exclude_tracks. destruct (s_data s) as [df |] eqn:Ed; [| exact Hs].
    destruct (validate_positions (df_len df) positions); cbn; [exact Hs |].
    destruct Hs as (H1 & H2). split; split; intros H; try discriminate.
    + apply (proj2 H1) in H. congruence.
    + apply (proj2 H2) in H. congruence.
  - unfold build_dna. destruct (s_data s) as [df |] eqn:Ed; [| exact Hs].
    destruct (build_playlist_dna global df (s_playlist_name s)); cbn; [exact Hs |].
    unfold session_shape. cbn. rewrite <- Ed. exact Hs.
  - unfold score_track. destruct (s_dna s); [destruct song_data |]; exact Hs.
Qed.

Lemma run_session_shape (reqs : list request) : session_shape (run reqs).
Proof.
  unfold run.
  assert (H : forall s, session_shape s ->
                        session_shape (fold_left (fun s req => handle req s) reqs s)).
  { induction reqs as [| req reqs IH]; intros s Hs; cbn [fold_left]; [exact Hs |].
    apply IH. now apply handle_session_shape. }
  apply H. split; split; reflexivity.
Qed.

Lemma score_track_session (song_data : track_fetch) (s : session) :
  snd (score_track song_data s) = s.
Proof. unfold score_track. destruct (s_dna s); [destruct song_data |]; reflexivity. Qed.

End SessionInvariant.

(** X12. After every sequence of requests: the playlist identifier, the
    playlist name and the track table are all set or all unset; and a stored
    descriptor comes with a stored table of at least three tracks, whose
    count is the descriptor's [track_count] and whose playlist name is the
    descriptor's. *)
Theorem session_reachable_shape {L : Library} (reqs : list request) :
  let s := run reqs in
  (s_data s = None <-> s_playlist_id s = None)
  /\ (s_data s = None <-> s_playlist_name s = None)
  /\ (s_data s = None -> s_dna s = None)
  /\ (forall d, s_dna s = Some d ->
        exists df, s_data s = Some df
                   /\ track_count d = df_len df
                   /\ (3 <= df_len df)%nat
                   /\ playlist_name d = s_playlist_name s).
Proof.
  intros s. destruct (run_session_shape reqs) as (H1 & H2).
  pose proof (run_descriptor_current reqs) as Hc. fold s in H1, H2, Hc.
  unfold descriptor_current in Hc.
  split; [exact H1 |]. split; [exact H2 |]. split.
  - intros Hn. destruct (s_dna s) as [d |]; [| reflexivity].
    destruct Hc as (df & global & Hd & _). congruence.
  - intros d Hd. rewrite Hd in Hc. destruct Hc as (df & global & Hdf & Hb).
    exists df. split; [exact Hdf |].
    destruct (build_playlist_dna_built _ _ _ _ Hb) as (Hn & Ht & _).
    destruct (build_playlist_dna_fields _ _ _ _ Hb) as (Hname & _).
    auto.
Qed.

(** X13. After every sequence of requests, when /build-dna answers with
    the builder's error, the stored table has 0, 1 or 2 tracks and the error
    is "Need at least 3 tracks to build DNA. Got 0." (resp. 1, 2); the
    session is unchanged and holds no descriptor: every score request is
    answered with status 404. *)
Theorem build_dna_error_leaves_no_descriptor {L : Library} (reqs : list request)
    (global : rng_state) (msg : string) :
  fst (build_dna global (run reqs)) = Returned (BuildDnaError msg) ->
  exists df,
    s_data (run reqs) = Some df
    /\ (df_len df < 3)%nat
    /\ ((df_len df = 0%nat /\ msg = "Need at least 3 tracks to build DNA. Got 0."%string)
        \/ (df_len df = 1%nat
            /\ msg = "Need at least 3 tracks to build DNA. Got 1."%string)
        \/ (df_len df = 2%nat
            /\ msg = "Need at least 3 tracks to build DNA. Got 2."%string))
    /\ snd (build_dna global (run reqs)) = run reqs
    /\ s_dna (run reqs) = None
    /\ forall song_data,
         fst (score_track song_data (run reqs))
         = HTTPException 404 "No DNA built yet. Run /build-dna first.".
Proof.
  pose proof (run_descriptor_current reqs) as Hc.
  set (s := run reqs) in *. unfold build_dna.
  destruct (s_data s) as [df |] eqn:Ed; [| discriminate].
  destruct (build_playlist_dna global df (s_playlist_name s)) as [e | d] eqn:Eb;
    [| discriminate].
  cbn [fst snd]. intros H. injection H as ->.
  unfold build_playlist_dna in Eb.
  destruct (df_len df <? 3)%nat eqn:El; [| discriminate].
  injection Eb as <-. apply Nat.ltb_lt in El.
  assert (Hn : s_dna s = None).
  { unfold descriptor_current in Hc. destruct (s_dna s) as [d |]; [| reflexivity].
    destruct Hc as (df' & g' & Hd' & Hb').
    destruct (build_playlist_dna_built _ _ _ _ Hb') as (H3 & _).
    rewrite Ed in Hd'. injection Hd' as <-. lia. }
  exists df. split; [reflexivity |]. split; [exact El |]. split.
  - destruct (df_len df) as [| [| [| n]]]; [| | | lia].
    + left. split; reflexivity.
    + right. left. split; reflexivity.
    + right. right. split; reflexivity.
  - split; [reflexivity |]. split; [exact Hn |].
    intros song_data. unfold score_track. now rewrite Hn.
Qed.

Lemma build_dna_error_witness :
  fst (@build_dna stub_library tt
         (@run stub_library [@Analyze stub_library (Fetched "p2" "Short" short_playlist)]))
  = Returned (BuildDnaError "Need at least 3 tracks to build DNA. Got 2.")
  /\ s_dna (@run stub_library
              [@Analyze stub_library (Fetched "p2" "Short" short_playlist)]) = None.
Proof.
  split; [reflexivity |].
  destruct (@build_dna_error_leaves_no_descriptor stub_library
              [@Analyze stub_library (Fetched "p2" "Short" short_playlist)] tt
              "Need at least 3 tracks to build DNA. Got 2." eq_refl)
    as (df & _ & _ & _ & _ & Hn & _).
  exact Hn.
Defined.

(** X14. A request that fails leaves the session as it was: a fetch error
    on /analyze, an exclusion answered with an HTTP error, a /build-dna that
    does not return a report.  Scoring never changes the session, so any
    number of scores in a row leaves it as it was. *)
Theorem failed_requests_leave_session {L : Library} (s : session) :
  (forall msg, snd (analyze_playlist (FetchError msg) s) = s)
  /\ (forall positions code detail,
        fst (exclude_tracks positions s) = HTTPException code detail ->
        snd (exclude_tracks positions s) = s)
  /\ (forall global,
        (forall report, fst (build_dna global s) <> Returned (BuildDnaReport report)) ->
        snd (build_dna global s) = s)
  /\ (forall songs,
        fold_left (fun s req => handle req s) (map Score songs) s = s).
Proof.
  split; [reflexivity |]. split; [| split].
  - intros positions code detail. unfold exclude_tracks.
    destruct (s_data s) as [df |]; [| reflexivity].
    destruct (validate_positions (df_len df) positions); [reflexivity | discriminate].
  - intros global. unfold build_dna.
    destruct (s_data s) as [df |]; [| reflexivity].
    destruct (build_playlist_dna global df (s_playlist_name s)) as [e | d];
      [reflexivity |].
    cbn [fst]. intros H. now destruct (H (report_of (s_playlist_name s) d)).
  - intros songs. induction songs as [| song songs IH]; [reflexivity |].
    cbn [map fold_left handle]. now rewrite score_track_session.
Qed.

(** ** Sorting *)

Section SortFacts.
Context {A : Type} (before : A -> A -> bool) (le : A -> A -> Prop).
Hypothesis le_trans : forall x y z, le x y -> le y z -> le x z.
Hypothesis before_le : forall x y, before x y = true -> le x y.
Hypothesis not_before_le : forall x y, before x y = false -> le y x.

Lemma insert_stable_sorted (x : A) (l : list A) :
  StronglySorted le l -> StronglySorted le (insert_stable before x l).
Proof.
  induction 1 as [| y t Ht IH Hy]; cbn [insert_stable].
  - repeat constructor.
  - destruct (before y x) eqn:E.
    + constructor; [exact IH |].
      apply (Permutation_Forall (Permutation_sym (insert_stable_perm before x t))).
      constructor; [now apply before_le | exact Hy].
    + constructor; [now constructor |].
      assert (Hxy : le x y) by now apply not_before_le.
      constructor; [exact Hxy |].
      apply Forall_forall. intros z Hz. rewrite Forall_forall in Hy.
      apply (le_trans _ y); auto.
Qed.

Lemma stable_sort_sorted (l : list A) : StronglySorted le (stable_sort before l).
Proof.
  induction l as [| x t IH]; cbn; [constructor |].
  now apply insert_stable_sorted.
Qed.

End SortFacts.

Section StableFacts.
Context {A : Type} (before : A -> A -> bool).

(** Elements that are not strictly ahead of each other keep their order. *)
Lemma insert_stable_filter (p : A -> bool) (x : A) (l : list A) :
  (forall y, p y = true -> p x = true -> before y x = false) ->
  filter p (insert_stable before x l) = filter p (x :: l).
Proof.
  intros Htie. induction l as [| y t IH]; [reflexivity |].
  cbn [insert_stable]. destruct (before y x) eqn:E; [| reflexivity].
  cbn [filter] in *. rewrite IH.
  destruct (p y) eqn:Ey, (p x) eqn:Ex; try reflexivity.
  rewrite (Htie y Ey eq_refl) in E. discriminate.
Qed.

Lemma stable_sort_filter (p : A -> bool) (l : list A) :
  (forall x y, p x = true -> p y = true -> before x y = false) ->
  filter p (stable_sort before l) = filter p l.
Proof.
  intros Htie. induction l as [| x t IH]; [reflexivity |].
  cbn [stable_sort fold_right]. fold (stable_sort before t).
  rewrite insert_stable_filter by (intros y Hy Hx; now apply Htie).
  cbn [filter]. now rewrite IH.
Qed.

Lemma StronglySorted_firstn (le : A -> A -> Prop) (n : nat) (l : list A) :
  StronglySorted le l -> StronglySorted le (firstn n l).
Proof.
  intros H. revert n. induction H as [| x t Ht IH Hx]; intros [| n]; cbn;
    try constructor; [apply IH |].
  apply Forall_forall. intros y Hy. rewrite Forall_forall in Hx.
  apply Hx. now apply In_firstn in Hy.
Qed.

Lemma StronglySorted_filter (le : A -> A -> Prop) (p : A -> bool) (l : list A) :
  StronglySorted le l -> StronglySorted le (filter p l).
Proof.
  induction 1 as [| x t Ht IH Hx]; cbn; [constructor |].
  destruct (p x); [| exact IH]. constructor; [exact IH |].
  apply Forall_forall. intros y Hy. rewrite Forall_forall in Hx.
  apply Hx. now apply filter_In in Hy.
Qed.

Lemma StronglySorted_app_inv (le : A -> A -> Prop) (l1 l2 : list A) :
  StronglySorted le (l1 ++ l2) ->
  forall a b, In a l1 -> In b l2 -> le a b.
Proof.
  induction l1 as [| x l1 IH]; cbn; intros H a b Ha Hb; [destruct Ha |].
  inversion H as [| ? ? Hs Hx]; subst.
  destruct Ha as [<- | Ha]; [| now apply IH].
  rewrite Forall_forall in Hx. apply Hx, in_or_app. now right.
Qed.

Lemma slice_to_prefix (l : list A) (n : Z) :
  exists k, slice_to l n = firstn k l.
Proof. unfold slice_to. destruct (n <? 0)%Z; eexists; reflexivity. Qed.

End StableFacts.

(** ** The crawler: order and choice of the neighbors *)

Section CrawlerOrder.

Lemma by_relevance_desc_sorted (l : list candidate) :
  StronglySorted (fun a b => relevance_score b <= relevance_score a)%Q
                 (stable_sort by_relevance_desc l).
Proof.
  apply stable_sort_sorted.
  - intros x y z H1 H2. now apply (Qle_trans _ (relevance_score y)).
  - intros x y. unfold by_relevance_desc.
    destruct (Qlt_le_dec (relevance_score y) (relevance_score x)); [| discriminate].
    intros _. now apply Qlt_le_weak.
  - intros x y. unfold by_relevance_desc.
    destruct (Qlt_le_dec (relevance_score y) (relevance_score x)); [discriminate |].
    now intros _.
Qed.

Lemma by_popularity_distance_sorted (pop : Z) (l : list candidate) :
  StronglySorted (fun a b => (Z.abs (c_popularity a - pop)
                              <= Z.abs (c_popularity b - pop))%Z)
                 (stable_sort (by_popularity_distance pop) l).
Proof.
  apply stable_sort_sorted; unfold by_popularity_distance.
  - intros x y z. lia.
  - intros x y H. apply Z.ltb_lt in H. lia.
  - intros x y H. apply Z.ltb_ge in H. lia.
Qed.

End CrawlerOrder.

(** X15. The neighbors of a neighborhood are listed by non-decreasing
    distance of their popularity from the root's; neighbors at the same
    distance are listed by non-increasing relevance score; and
    [total_found] is the number of neighbors listed. *)
Theorem neighbors_ordered_by_popularity_distance {P : Providers}
    (artist_url : string) (max_artists : Z) (root : root_artist)
    (neighbors : list candidate) (total_found : nat) :
  build_artist_neighborhood artist_url max_artists
  = Neighborhood root neighbors total_found ->
  StronglySorted
    (fun a b => (Z.abs (c_popularity a - root_popularity root)
                 <= Z.abs (c_popularity b - root_popularity root))%Z)
    neighbors
  /\ (forall k : Z,
        StronglySorted
          (fun a b => relevance_score b <= relevance_score a)%Q
          (filter (fun c => (Z.abs (c_popularity c - root_popularity root) =? k)%Z)
                  neighbors))
  /\ total_found = length neighbors.
Proof.
  unfold build_artist_neighborhood.
  destruct (sp_artist (id_of_url artist_url)) as [e | root_info]; [discriminate |].
  intros H. injection H as <- <- <-. cbn [root_popularity].
  split; [apply by_popularity_distance_sorted |]. split; [| reflexivity].
  intros k. rewrite stable_sort_filter.
  - apply StronglySorted_filter.
    match goal with
    | |- context [slice_to ?l ?n] => destruct (slice_to_prefix l n) as (j & ->)
    end.
    apply StronglySorted_firstn, by_relevance_desc_sorted.
  - intros x y Hx Hy. unfold by_popularity_distance.
    apply Z.eqb_eq in Hx, Hy. apply Z.ltb_ge. lia.
Qed.

Lemma neighbors_ordered_witness :
  exists (root : root_artist) (neighbors : list candidate) (total_found : nat),
    @build_artist_neighborhood small_catalogue "https://open.spotify.com/artist/R" 30
    = Neighborhood root neighbors total_found
    /\ map c_id neighbors = ["C"; "A"]%string
    /\ StronglySorted
         (fun a b => (Z.abs (c_popularity a - root_popularity root)
                      <= Z.abs (c_popularity b - root_popularity root))%Z)
         neighbors.
Proof.
  do 3 eexists. split; [vm_compute; reflexivity |]. split; [reflexivity |].
  exact (proj1 (@neighbors_ordered_by_popularity_distance small_catalogue
                  "https://open.spotify.com/artist/R" 30 _ _ _ eq_refl)).
Defined.

(** X16. The neighbors are the most relevant candidates of the crawl:
    every neighbor is a candidate the crawl collected, and no candidate that
    was left out has a higher relevance score than a neighbor that was
    kept. *)
Theorem neighbors_are_most_relevant {P : Providers}
    (artist_url : string) (max_artists : Z) (root : root_artist)
    (neighbors : list candidate) (total_found : nat) :
  build_artist_neighborhood artist_url max_artists
  = Neighborhood root neighbors total_found ->
  let genres := match root_genres root with
                | [] => [lower (root_name root)]
                | gs => gs
                end in
  let all_candidates :=
    snd (crawl genres (root_popularity root)
           (unique_queries (search_queries genres (root_name root)))
           ([id_of_url artist_url], [])) in
  incl neighbors all_candidates
  /\ forall kept left_out,
       In kept neighbors -> In left_out all_candidates -> ~ In left_out neighbors ->
       (relevance_score left_out <= relevance_score kept)%Q.
Proof.
  unfold build_artist_neighborhood.
  destruct (sp_artist (id_of_url artist_url)) as [e | root_info]; [discriminate |].
  intros H. injection H as <- <- _. cbv zeta.
  cbn [root_genres root_name root_popularity].
  match goal with
  | |- context [crawl ?g ?p ?q ?st] =>
      set (all_candidates := snd (crawl g p q st)); set (pop := p)
  end.
  set (ranked := stable_sort by_relevance_desc all_candidates).
  destruct (slice_to_prefix ranked max_artists) as (j & ->).
  assert (Hperm : forall c, In c (stable_sort (by_popularity_distance pop) (firstn j ranked))
                            <-> In c (firstn j ranked)).
  { intros c. split; apply Permutation_in;
      [| apply Permutation_sym]; apply stable_sort_perm. }
  assert (Hranked : forall c, In c ranked <-> In c all_candidates).
  { intros c. split; apply Permutation_in;
      [| apply Permutation_sym]; apply stable_sort_perm. }
  split.
  - intros c Hc. apply Hranked. apply Hperm in Hc. now apply In_firstn in Hc.
  - intros kept left_out Hk Hl Hn.
    apply Hperm in Hk. rewrite Hperm in Hn. apply Hranked in Hl.
    rewrite <- (firstn_skipn j ranked) in Hl. apply in_app_or in Hl.
    destruct Hl as [Hl | Hl]; [contradiction |].
    pose proof (by_relevance_desc_sorted all_candidates) as Hs. fold ranked in Hs.
    rewrite <- (firstn_skipn j ranked) in Hs.
    exact (StronglySorted_app_inv _ _ _ Hs kept left_out Hk Hl).
Qed.

Lemma neighbors_most_relevant_witness :
  exists (root : root_artist) (neighbors : list candidate) (total_found : nat),
    @build_artist_neighborhood small_catalogue "https://open.spotify.com/artist/R" 1
    = Neighborhood root neighbors total_found
    /\ map c_id neighbors = ["A"]%string
    /\ incl neighbors
         (snd (@crawl small_catalogue ["rap"%string] 50
                 (unique_queries (search_queries ["rap"%string] "R"))
                 (["R"%string], []))).
Proof.
  do 3 eexists. split; [vm_compute; reflexivity |]. split; [reflexivity |].
  exact (proj1 (@neighbors_are_most_relevant small_catalogue
                  "https://open.spotify.com/artist/R" 1 _ _ _ eq_refl)).
Defined.

(** ** The crawler: queries and relevance *)

Section QueryFacts.

Lemma unique_from_spec (seen queries : list string) :
  NoDup (unique_from seen queries)
  /\ (forall q, In q (unique_from seen queries) <-> In q queries /\ ~ In q seen)
  /\ (length (unique_from seen queries) <= length queries)%nat.
Proof.
  revert seen. induction queries as [| q rest IH]; intros seen; cbn [unique_from].
  - split; [constructor |]. split; [| reflexivity]. intros q. cbn. tauto.
  - destruct (mem q seen) eqn:Em.
    + apply mem_In in Em. destruct (IH seen) as (Hnd & Hin & Hlen).
      split; [exact Hnd |]. split; [| cbn; lia].
      intros x. rewrite Hin. cbn. split; [tauto |].
      intros ([<- | Hx] & Hs); [contradiction | tauto].
    + assert (Hq : ~ In q seen) by (intros H; apply mem_In in H; congruence).
      destruct (IH (q :: seen)) as (Hnd & Hin & Hlen).
      split; [| split; [| cbn; lia]].
      * constructor; [| exact Hnd]. rewrite Hin. cbn. tauto.
      * intros x. cbn. rewrite Hin. cbn.
        destruct (string_dec q x) as [<- | Hne]; tauto.
Qed.

Lemma keywords_of_length (table : list (string * list string)) (genre : string)
    (k : nat) :
  Forall (fun e => (length (snd e) <= k)%nat) table ->
  (length (keywords_of table genre) <= k)%nat.
Proof.
  induction 1 as [| [g kws] rest Hk _ IH]; cbn [keywords_of]; [cbn; lia |].
  destruct (String.eqb g genre); [exact Hk | exact IH].
Qed.

Lemma flat_map_length_le {A B : Type} (f : A -> list B) (k : nat) (l : list A) :
  (forall x, length (f x) <= k)%nat ->
  (length (flat_map f l) <= k * length l)%nat.
Proof.
  intros Hf. induction l as [| x l IH]; cbn [flat_map length]; [lia |].
  rewrite length_app. pose proof (Hf x). lia.
Qed.

Lemma search_queries_length (genres : list string) (name : string) :
  (length (search_queries genres name) <= 10)%nat.
Proof.
  unfold search_queries. rewrite !length_app, length_map. cbn [length].
  pose proof (firstn_le_length 3 genres) as H3.
  pose proof (length_firstn 3 genres) as E3.
  pose proof (length_firstn 2 genres) as E2.
  pose proof (flat_map_length_le
                (fun genre => map genre_query (keywords_of genre_keywords genre)) 3
                (firstn 2 genres)) as Hk.
  assert (Hkw : forall g, (length (map genre_query (keywords_of genre_keywords g)) <= 3)%nat).
  { intros g. rewrite length_map. apply keywords_of_length.
    unfold genre_keywords. repeat constructor. }
  specialize (Hk Hkw). lia.
Qed.

End QueryFacts.

(** X17. A neighborhood is crawled with at most ten search queries, none of
    them twice: the deduplicated query list has no repetition and at most
    ten entries, and holds exactly the queries of the three strategies, the
    root's name among them. *)
Theorem unique_queries_at_most_ten (genres : list string) (name : string) :
  NoDup (unique_queries (search_queries genres name))
  /\ (length (unique_queries (search_queries genres name)) <= 10)%nat
  /\ (forall q, In q (unique_queries (search_queries genres name))
                <-> In q (search_queries genres name))
  /\ In name (unique_queries (search_queries genres name)).
Proof.
  unfold unique_queries.
  destruct (unique_from_spec [] (search_queries genres name)) as (Hnd & Hin & Hlen).
  pose proof (search_queries_length genres name) as H10.
  assert (Hall : forall q, In q (unique_from [] (search_queries genres name))
                           <-> In q (search_queries genres name)).
  { intros q. rewrite Hin. cbn. tauto. }
  split; [exact Hnd |]. split; [lia |]. split; [exact Hall |].
  apply Hall. unfold search_queries. apply in_or_app. right. now left.
Qed.

Section RelevanceFacts.
Local Open Scope Q_scope.

Lemma Qround_half_even_le (q : Q) (k : Z) :
  q <= inject_Z k -> (Qround_half_even q <= k)%Z.
Proof.
  intros H. unfold Qround_half_even.
  assert (Hf : (Qfloor q <= k)%Z).
  { rewrite <- (Qfloor_Z k). now apply Qfloor_resp_le. }
  destruct (Z.eq_dec (Qfloor q) k) as [E | Hne].
  - destruct (Qcompare_spec (q - inject_Z (Qfloor q)) (1 # 2)) as [Hc | Hc | Hc];
      [| lia |]; rewrite E in Hc; exfalso; Lqa.lra.
  - destruct (q - inject_Z (Qfloor q) ?= 1 # 2); [destruct (Z.even (Qfloor q)) | |]; lia.
Qed.

Lemma Qround_half_even_ge (q : Q) (k : Z) :
  inject_Z k <= q -> (k <= Qround_half_even q)%Z.
Proof.
  intros H. unfold Qround_half_even.
  assert (Hf : (k <= Qfloor q)%Z).
  { rewrite <- (Qfloor_Z k). now apply Qfloor_resp_le. }
  destruct (q - inject_Z (Qfloor q) ?= 1 # 2); [destruct (Z.even (Qfloor q)) | |]; lia.
Qed.

Lemma Qpy_round_3_le (q : Q) (hi : Z) :
  q <= inject_Z hi -> Qpy_round q 3 <= inject_Z hi.
Proof.
  intros Hhi. unfold Qpy_round.
  change (inject_Z (10 ^ Z.of_nat 3)) with (inject_Z 1000).
  assert (H2 : (Qround_half_even (q * inject_Z 1000) <= hi * 1000)%Z).
  { apply Qround_half_even_le. rewrite inject_Z_mult.
    change (inject_Z 1000) with 1000. Lqa.lra. }
  set (z := Qround_half_even (q * inject_Z 1000)) in *.
  rewrite Zle_Qle, inject_Z_mult in H2.
  apply Qle_shift_div_r; [reflexivity | exact H2].
Qed.

Lemma Qpy_round_3_ge (q : Q) (lo : Z) :
  inject_Z lo <= q -> inject_Z lo <= Qpy_round q 3.
Proof.
  intros Hlo. unfold Qpy_round.
  change (inject_Z (10 ^ Z.of_nat 3)) with (inject_Z 1000).
  assert (H1 : (lo * 1000 <= Qround_half_even (q * inject_Z 1000))%Z).
  { apply Qround_half_even_ge. rewrite inject_Z_mult.
    change (inject_Z 1000) with 1000. Lqa.lra. }
  set (z := Qround_half_even (q * inject_Z 1000)) in *.
  rewrite Zle_Qle, inject_Z_mult in H1.
  apply Qle_shift_div_l; [reflexivity | exact H1].
Qed.

Lemma shared_genres_le (a_genres genres : list string) :
  (shared_genres a_genres genres <= length genres)%nat.
Proof.
  unfold shared_genres. apply NoDup_incl_length; [apply NoDup_nodup |].
  intros g Hg. apply nodup_In, filter_In in Hg. now apply mem_In.
Qed.

Lemma genre_score_unit (a_genres genres : list string) :
  0 <= inject_Z (Z.of_nat (shared_genres a_genres genres))
       / inject_Z (Z.of_nat (Nat.max (length genres) 1)) <= 1.
Proof.
  pose proof (shared_genres_le a_genres genres) as Hle.
  set (k := shared_genres a_genres genres) in *.
  set (n := Nat.max (length genres) 1).
  assert (Hn : (1 <= n)%nat) by (unfold n; lia).
  assert (Hkn : (k <= n)%nat) by (unfold n; lia).
  assert (Hpos : 0 < inject_Z (Z.of_nat n)).
  { change 0 with (inject_Z 0). rewrite <- Zlt_Qlt. lia. }
  split.
  - apply Qle_shift_div_l; [exact Hpos |]. rewrite Qmult_0_l.
    change 0 with (inject_Z 0). rewrite <- Zle_Qle. lia.
  - apply Qle_shift_div_r; [exact Hpos |]. rewrite Qmult_1_l.
    rewrite <- Zle_Qle. lia.
Qed.

Lemma relevance_le_1 (a_genres genres : list string) (a_pop pop : Z) :
  relevance a_genres genres a_pop pop <= 1.
Proof.
  unfold relevance. pose proof (genre_score_unit a_genres genres) as Hg.
  set (gs := inject_Z (Z.of_nat (shared_genres a_genres genres)) / _) in *.
  assert (Hd : 0 <= inject_Z (Z.abs (a_pop - pop)) / 100).
  { apply Qle_shift_div_l; [reflexivity |]. rewrite Qmult_0_l.
    change 0 with (inject_Z 0). rewrite <- Zle_Qle. lia. }
  Lqa.lra.
Qed.

Lemma relevance_ge_0 (a_genres genres : list string) (a_pop pop : Z) :
  (Z.abs (a_pop - pop) <= 100)%Z ->
  0 <= relevance a_genres genres a_pop pop.
Proof.
  intros Hgap. unfold relevance. pose proof (genre_score_unit a_genres genres) as Hg.
  set (gs := inject_Z (Z.of_nat (shared_genres a_genres genres)) / _) in *.
  assert (Hd : inject_Z (Z.abs (a_pop - pop)) / 100 <= 1).
  { apply Qle_shift_div_r; [reflexivity |]. rewrite Qmult_1_l.
    change 100 with (inject_Z 100). rewrite <- Zle_Qle. lia. }
  Lqa.lra.
Qed.

Lemma shared_genres_self (genres : list string) :
  NoDup genres -> shared_genres genres genres = length genres.
Proof.
  intros Hnd. unfold shared_genres.
  assert (E : filter (fun g => mem g genres) genres = genres).
  { apply forallb_filter_id, forallb_forall. intros g Hg. now apply mem_In. }
  rewrite E. now rewrite nodup_fixed_point.
Qed.

Lemma relevance_self (genres : list string) (pop : Z) :
  genres <> [] -> NoDup genres -> 1 <= relevance genres genres pop pop.
Proof.
  intros Hne Hnd. unfold relevance. rewrite shared_genres_self by exact Hnd.
  assert (Hn : (1 <= length genres)%nat).
  { destruct genres; [congruence | cbn; lia]. }
  rewrite Nat.max_l by exact Hn. rewrite Z.sub_diag. cbn [Z.abs].
  assert (Hpos : 0 < inject_Z (Z.of_nat (length genres))).
  { change 0 with (inject_Z 0). rewrite <- Zlt_Qlt. lia. }
  assert (E : inject_Z (Z.of_nat (length genres)) / inject_Z (Z.of_nat (length genres)) == 1).
  { apply Qmult_inv_r. intros H. rewrite H in Hpos. now apply Qlt_irrefl in Hpos. }
  rewrite E. apply Qle_bool_imp_le. reflexivity.
Qed.

End RelevanceFacts.

(** X18. The relevance score of a candidate is never above 1; it is not
    negative when the candidate's popularity is within 100 of the root's
    (as it is for popularities in 0..100); and an artist that shares every
    genre of the root and has the root's popularity scores exactly 1. *)
Theorem relevance_score_bounds (query : string) (genres : list string) (pop : Z)
    (a : artist_obj) :
  (relevance_score (candidate_of query genres pop a) <= 1)%Q
  /\ ((Z.abs (dict_get (a_popularity a) 0 - pop) <= 100)%Z ->
      (0 <= relevance_score (candidate_of query genres pop a))%Q)
  /\ (genres <> [] -> NoDup genres ->
      a_genres a = Some genres -> a_popularity a = Some pop ->
      (relevance_score (candidate_of query genres pop a) == 1)%Q).
Proof.
  cbn [candidate_of relevance_score].
  set (ag := dict_get (a_genres a) []). set (ap := dict_get (a_popularity a) 0%Z).
  split; [| split].
  - apply (Qpy_round_3_le _ 1), relevance_le_1.
  - intros Hgap. apply (Qpy_round_3_ge _ 0). now apply relevance_ge_0.
  - intros Hne Hnd Hg Hp. unfold ag, ap. rewrite Hg, Hp. cbn [dict_get].
    apply Qle_antisym.
    + apply (Qpy_round_3_le _ 1), relevance_le_1.
    + apply (Qpy_round_3_ge _ 1). now apply relevance_self.
Qed.

(** ** The sonic twin matcher: what a result holds *)

Section TwinMore.
Context {P : Providers}.
Local Open Scope R_scope.

Lemma distance_nonneg (target_vector feat_vector : vec) :
  0 <= distance target_vector feat_vector.
Proof. unfold distance, np_linalg_norm. apply sqrt_pos. Qed.

Lemma exp_neg_percent (x : R) : 0 <= x -> 0 < exp (- x / 100) * 100 <= 100.
Proof.
  intros Hx. pose proof (exp_pos (- x / 100)) as Hp.
  assert (Hle : exp (- x / 100) <= 1).
  { rewrite <- exp_0. destruct (Req_dec x 0) as [-> | Hne].
    - right. f_equal. unfold Rdiv. lra.
    - left. apply exp_increasing. unfold Rdiv. lra. }
  lra.
Qed.

(** The neighbors of a neighborhood, as the matcher needs them. *)
Lemma neighborhood_neighbors_facts (artist_url : string) (max_artists : Z)
    (root : root_artist) (neighbors : list candidate) (total_found : nat) :
  build_artist_neighborhood artist_url max_artists
  = Neighborhood root neighbors total_found ->
  NoDup (map c_id neighbors)
  /\ ~ In (id_of_url artist_url) (map c_id neighbors)
  /\ ((0 <= max_artists)%Z -> (Z.of_nat (length neighbors) <= max_artists)%Z).
Proof.
  unfold build_artist_neighborhood.
  destruct (sp_artist (id_of_url artist_url)) as [e | root_info]; [discriminate |].
  intros H. injection H as _ <- _.
  match goal with
  | |- context [crawl ?g ?p ?q ([id_of_url artist_url], [])] =>
      set (genres := g) in *; set (pop := p) in *; set (queries := q) in *
  end.
  assert (Hinv : crawl_invariant (id_of_url artist_url)
                   (crawl genres pop queries ([id_of_url artist_url], []))).
  { apply crawl_invariant_holds. unfold crawl_invariant. cbn.
    repeat split; auto using incl_nil_l, NoDup_nil. }
  destruct Hinv as (_ & _ & Hnd & Hself & _).
  destruct (ranked_neighbors pop max_artists
              (snd (crawl genres pop queries ([id_of_url artist_url], []))))
    as (Hsub & Hnodup & Hlen).
  split; [now apply Hnodup |]. split; [| exact Hlen].
  intros Hin. apply in_map_iff in Hin. destruct Hin as (c & Ec & Hc).
  apply Hself, in_map_iff. exists c. auto.
Qed.

Lemma compare_artist_twin_of (target_vector : vec) (artist : candidate) (t : twin) :
  compare_artist target_vector artist = Some t ->
  exists tracks batch_content,
    batch_content <> [] /\ t = twin_of target_vector artist tracks batch_content.
Proof.
  unfold compare_artist.
  destruct (sp_artist_top_tracks (c_id artist)) as [top_tracks |]; [| discriminate].
  destruct (firstn 5 top_tracks) as [| t0 tracks] eqn:Et; [discriminate |].
  destruct (negb _); [discriminate |].
  destruct (content _) as [| feat rest] eqn:Ec; [discriminate |].
  intros H. injection H as <-. exists (t0 :: tracks), (feat :: rest).
  split; [discriminate | reflexivity].
Qed.

Lemma artist_distances_spec (target_vector : vec) (l : list candidate) :
  incl (map artist_id (artist_distances target_vector l)) (map c_id l)
  /\ (NoDup (map c_id l) -> NoDup (map artist_id (artist_distances target_vector l)))
  /\ (length (artist_distances target_vector l) <= length l)%nat
  /\ Forall (fun t => exists artist tracks batch_content,
                        In artist l /\ batch_content <> []
                        /\ t = twin_of target_vector artist tracks batch_content)
            (artist_distances target_vector l).
Proof.
  induction l as [| a rest (Hincl & Hnd & Hlen & Hall)]; cbn [artist_distances].
  - repeat split; auto using incl_nil_l, NoDup_nil.
  - assert (Hall' : Forall (fun t => exists artist tracks batch_content,
                              In artist (a :: rest) /\ batch_content <> []
                              /\ t = twin_of target_vector artist tracks batch_content)
                           (artist_distances target_vector rest)).
    { eapply Forall_impl; [| exact Hall].
      intros t (x & tr & bc & Hx & Hbc & Ht). exists x, tr, bc. cbn. auto. }
    destruct (compare_artist target_vector a) as [t |] eqn:Ec.
    + destruct (compare_artist_twin_of _ _ _ Ec) as (tr & bc & Hbc & Ht).
      assert (Eid : artist_id t = c_id a) by (rewrite Ht; reflexivity).
      cbn [map length]. rewrite Eid. repeat split.
      * intros x [<- | Hx]; [now left | right; now apply Hincl].
      * intros Hn. inversion Hn as [| ? ? Hnot Hrest]; subst.
        constructor; [| now apply Hnd]. intros Hin. apply Hnot. now apply Hincl.
      * lia.
      * constructor; [| exact Hall']. exists a, tr, bc. cbn. auto.
    + cbn [map length]. repeat split.
      * now apply incl_tl.
      * intros Hn. inversion Hn; subst. now apply Hnd.
      * lia.
      * exact Hall'.
Qed.

Lemma closest_tracks_sorted (l : list closest_track) :
  StronglySorted (fun a b => ct_distance a <= ct_distance b)
    (stable_sort (fun a b => if Rlt_dec (ct_distance a) (ct_distance b)
                             then true else false) l).
Proof.
  apply stable_sort_sorted.
  - intros x y z. lra.
  - intros x y. destruct (Rlt_dec (ct_distance x) (ct_distance y)); [lra | discriminate].
  - intros x y. destruct (Rlt_dec (ct_distance x) (ct_distance y)); [discriminate | lra].
Qed.

Lemma twins_sorted (l : list twin) :
  StronglySorted (fun a b => avg_distance a <= avg_distance b)
    (stable_sort (fun a b => if Rlt_dec (avg_distance a) (avg_distance b)
                             then true else false) l).
Proof.
  apply stable_sort_sorted.
  - intros x y z. lra.
  - intros x y. destruct (Rlt_dec (avg_distance x) (avg_distance y)); [lra | discriminate].
  - intros x y. destruct (Rlt_dec (avg_distance x) (avg_distance y)); [discriminate | lra].
Qed.

(** The distances and counts [twin_of] computes from a non-empty list of
    feature entries. *)
Lemma twin_of_bounds (target_vector : vec) (artist : candidate)
    (tracks : list top_track) (batch_content : list audio_features) :
  batch_content <> [] ->
  let t := twin_of target_vector artist tracks batch_content in
  0 <= min_distance t <= avg_distance t
  /\ 0 <= similarity_pct t <= 100
  /\ tracks_analyzed t = length batch_content
  /\ length (closest_tracks t) = Nat.min 3 (length batch_content).
Proof.
  intros Hne t. unfold t, twin_of.
  cbn [min_distance avg_distance similarity_pct tracks_analyzed closest_tracks].
  set (distances :=
         map (fun feat => distance target_vector (vector_of feat)) batch_content).
  assert (Hd : distances <> []).
  { unfold distances. destruct batch_content; [congruence | discriminate]. }
  assert (Hpos : forall x, In x distances -> 0 <= x).
  { intros x Hx. apply in_map_iff in Hx. destruct Hx as (feat & <- & _).
    apply distance_nonneg. }
  pose proof (np_min_In distances Hd) as Hmin_in.
  pose proof (np_min_le_mean_le_max distances Hd) as (Hmm & _).
  pose proof (Hpos _ Hmin_in) as Hmin0.
  split; [split; [now apply py_round_nonneg | now apply py_round_monotone] |].
  split.
  { destruct (exp_neg_percent (np_mean distances)) as (Hlo & Hhi); [lra |].
    set (e := exp (- np_mean distances / 100) * 100) in *.
    assert (Hb : IZR 0 / 10 ^ 2 <= e <= IZR 10000 / 10 ^ 2) by (simpl; lra).
    apply py_round_between in Hb. simpl in Hb. lra. }
  split; [apply length_map |].
  rewrite length_firstn, (Permutation_length (stable_sort_perm _ _)), length_map.
  reflexivity.
Qed.

End TwinMore.

(** X19. For a neighbor whose feature entries are there, the twin entry
    has [0 <= min_distance <= avg_distance], a similarity percentage in
    0..100, [tracks_analyzed] equal to the number of feature entries, and
    the closest tracks are the (at most) three nearest, listed by
    non-decreasing distance, the first at [min_distance]. *)
Theorem twin_of_metrics (target_vector : vec) (artist : candidate)
    (tracks : list top_track) (batch_content : list audio_features) :
  batch_content <> [] ->
  let t := twin_of target_vector artist tracks batch_content in
  (0 <= min_distance t <= avg_distance t)%R
  /\ (0 <= similarity_pct t <= 100)%R
  /\ tracks_analyzed t = length batch_content
  /\ length (closest_tracks t) = Nat.min 3 (length batch_content)
  /\ StronglySorted (fun a b => ct_distance a <= ct_distance b)%R (closest_tracks t)
  /\ exists first others,
       closest_tracks t = first :: others /\ ct_distance first = min_distance t.
Proof.
  intros Hne t.
  destruct (twin_of_bounds target_vector artist tracks batch_content Hne)
    as (H1 & H2 & H3 & H4).
  fold t in H1, H2, H3, H4.
  split; [exact H1 |]. split; [exact H2 |]. split; [exact H3 |]. split; [exact H4 |].
  unfold t, twin_of. cbn [min_distance closest_tracks].
  set (distances :=
         map (fun feat => distance target_vector (vector_of feat)) batch_content).
  set (track_names :=
         map (fun feat =>
                {| ct_name := track_name_of tracks feat;
                   ct_distance := py_round (distance target_vector (vector_of feat)) 4 |})
             batch_content).
  set (sorted := stable_sort _ track_names).
  assert (Hd : distances <> []).
  { unfold distances. destruct batch_content; [congruence | discriminate]. }
  pose proof (np_min_In distances Hd) as Hmin_in.
  assert (Hperm : Permutation sorted track_names) by apply stable_sort_perm.
  assert (Hsorted : StronglySorted (fun a b => ct_distance a <= ct_distance b)%R sorted)
    by apply closest_tracks_sorted.
  split; [now apply StronglySorted_firstn |].
  destruct sorted as [| first others] eqn:Es.
  { apply Permutation_length in Hperm. unfold track_names in Hperm.
    rewrite length_map in Hperm. destruct batch_content; [congruence | discriminate]. }
  exists first, (firstn 2 others). split; [reflexivity |].
  apply Rle_antisym.
  - (* the entry of the nearest track is somewhere in the sorted list *)
    apply in_map_iff in Hmin_in. destruct Hmin_in as (feat & Ef & Hfeat).
    assert (Hin : In {| ct_name := track_name_of tracks feat;
                        ct_distance :=
                          py_round (distance target_vector (vector_of feat)) 4 |}
                     (first :: others)).
    { apply (Permutation_in _ (Permutation_sym Hperm)). unfold track_names.
      apply in_map_iff. exists feat. auto. }
    rewrite <- Ef. destruct Hin as [E | Hin]; [rewrite E; cbn; lra |].
    inversion Hsorted as [| ? ? _ Hall]; subst. rewrite Forall_forall in Hall.
    apply (Hall _ Hin).
  - assert (Hin : In first track_names).
    { apply (Permutation_in _ Hperm). now left. }
    unfold track_names in Hin. apply in_map_iff in Hin.
    destruct Hin as (feat & <- & Hfeat). cbn [ct_distance].
    apply py_round_monotone. apply np_min_le. unfold distances.
    apply in_map_iff. exists feat. auto.
Qed.

Lemma twin_of_metrics_witness :
  [quiet_features; dancing_features] <> []
  /\ (0 <= min_distance (twin_of (fun _ => 0%R) neighbor_A []
                           [quiet_features; dancing_features])
      <= avg_distance (twin_of (fun _ => 0%R) neighbor_A []
                         [quiet_features; dancing_features]))%R
  /\ length (closest_tracks (twin_of (fun _ => 0%R) neighbor_A []
                               [quiet_features; dancing_features])) = 2%nat.
Proof.
  assert (Hne : [quiet_features; dancing_features] <> []) by discriminate.
  split; [exact Hne |].
  destruct (twin_of_metrics (fun _ => 0%R) neighbor_A []
              [quiet_features; dancing_features] Hne) as (H1 & _ & _ & H4 & _).
  split; [exact H1 | exact H4].
Defined.

(** X20. The twins the matcher returns are listed by non-decreasing average
    distance, are at most [top_n] (for a [top_n] that is not negative) of the
    [total_compared] neighbors that could be compared, which are at most 20;
    no artist appears twice and none has the identifier the neighborhood was
    started from; every twin has [0 <= min_distance <= avg_distance], a
    similarity percentage in 0..100 and at least one track analysed. *)
Theorem find_sonic_twins_ranked {P : Providers} (track_url artist_url : string)
    (top_n : Z) (target : target_info) (twins : list twin) (total_compared : nat) :
  find_sonic_twins track_url artist_url top_n = Twins target twins total_compared ->
  StronglySorted (fun a b => avg_distance a <= avg_distance b)%R twins
  /\ (length twins <= total_compared <= 20)%nat
  /\ ((0 <= top_n)%Z -> (Z.of_nat (length twins) <= top_n)%Z)
  /\ NoDup (map artist_id twins)
  /\ ~ In (id_of_url artist_url) (map artist_id twins)
  /\ Forall (fun t => (0 <= min_distance t <= avg_distance t)%R
                      /\ (0 <= similarity_pct t <= 100)%R
                      /\ (1 <= tracks_analyzed t)%nat
                      /\ (1 <= length (closest_tracks t) <= 3)%nat) twins
  /\ tg_track_id target = id_of_url track_url.
Proof.
  unfold find_sonic_twins.
  destruct (sp_track (id_of_url track_url)) as [e | track_info]; [discriminate |].
  destruct (negb _); [discriminate |].
  destruct (content _) as [| target_features others]; [discriminate |].
  destruct (build_artist_neighborhood artist_url 20)
    as [e | root neighbors total_found] eqn:En; [discriminate |].
  destruct neighbors as [| n0 rest] eqn:Enb; [discriminate |]. rewrite <- Enb in *.
  intros H. injection H as <- <- <-.
  destruct (neighborhood_neighbors_facts _ _ _ _ _ En) as (Hnd & Hself & Hlen).
  set (tv := vector_of target_features).
  destruct (artist_distances_spec tv neighbors) as (Hincl & Hnodup & Hle & Hall).
  set (found := artist_distances tv neighbors) in *.
  set (sorted := stable_sort _ found).
  assert (Hperm : Permutation sorted found) by apply stable_sort_perm.
  destruct (slice_to_prefix sorted top_n) as (j & Ej).
  split; [rewrite Ej; apply StronglySorted_firstn, twins_sorted |].
  split.
  { split.
    - rewrite Ej, <- (Permutation_length Hperm), length_firstn. apply Nat.le_min_r.
    - specialize (Hlen ltac:(lia)). lia. }
  split; [now apply slice_to_length |].
  assert (Hsub : forall t, In t (slice_to sorted top_n) -> In t found).
  { intros t Ht. apply In_slice_to in Ht. now apply (Permutation_in _ Hperm). }
  split.
  { apply NoDup_map_slice_to.
    apply (Permutation_NoDup (Permutation_sym (Permutation_map artist_id Hperm))).
    now apply Hnodup. }
  split.
  { intros Hin. apply in_map_iff in Hin. destruct Hin as (t & Et & Ht).
    apply Hself, Hincl, in_map_iff. exists t. split; [exact Et | now apply Hsub]. }
  split; [| reflexivity].
  apply Forall_forall. intros t Ht. apply Hsub in Ht.
  rewrite Forall_forall in Hall.
  destruct (Hall t Ht) as (a & tr & bc & _ & Hbc & ->).
  destruct (twin_of_bounds tv a tr bc Hbc) as (H1 & H2 & H3 & H4).
  assert (Hn : (1 <= length bc)%nat) by (destruct bc; [congruence | cbn; lia]).
  split; [exact H1 |]. split; [exact H2 |]. split; [lia |]. lia.
Qed.

Lemma find_sonic_twins_ranked_witness :
  exists (target : target_info) (twins : list twin) (total_compared : nat),
    @find_sonic_twins lively_catalogue "track/T" "artist/R" 1
    = Twins target twins total_compared
    /\ total_compared = 2%nat
    /\ (length twins <= total_compared <= 20)%nat
    /\ (Z.of_nat (length twins) <= 1)%Z
    /\ NoDup (map artist_id twins).
Proof.
  do 3 eexists. split; [reflexivity |]. split; [reflexivity |].
  destruct (@find_sonic_twins_ranked lively_catalogue "track/T" "artist/R" 1 _ _ _
              eq_refl) as (_ & Hlen & Htop & Hnd & _).
  split; [exact Hlen |]. split; [apply Htop; lia | exact Hnd].
Defined.

(** ** fetcher.py *)

Section FetcherFacts.

Lemma skipn_mul_succ {A : Type} (k : nat) (l : list A) :
  skipn (S k * 20) l = skipn (k * 20) (skipn 20 l).
Proof. rewrite skipn_skipn. f_equal. lia. Qed.

Lemma batches_from_concat {A : Type} (m : nat) (l : list A) :
  (length l <= m * 20)%nat ->
  concat (map (fun i => firstn 20 (skipn i l)) (map (fun k => k * 20)%nat (seq 0 m))) = l.
Proof.
  revert l. induction m as [| m IH]; intros l Hl.
  - destruct l; [reflexivity | cbn in Hl; lia].
  - cbn [seq map concat]. rewrite <- seq_shift, !map_map.
    rewrite (map_ext _ (fun k => firstn 20 (skipn (k * 20) (skipn 20 l))))
      by (intros k; now rewrite skipn_mul_succ).
    rewrite <- (map_map (fun k => (k * 20)%nat)
                        (fun i => firstn 20 (skipn i (skipn 20 l)))).
    rewrite IH by (rewrite length_skipn; lia).
    change (skipn (0 * 20) l) with l. apply firstn_skipn.
Qed.

End FetcherFacts.

(** X21. The feature service is asked for the track identifiers in
    consecutive batches: put end to end the batches are the identifier list,
    no batch is empty, none has more than 20 identifiers, all but the last
    have exactly 20, and there are [ceil(n / 20)] of them. *)
Theorem batches_partition (track_ids : list string) :
  concat (batches track_ids) = track_ids
  /\ Forall (fun batch => (1 <= length batch <= 20)%nat) (batches track_ids)
  /\ length (batches track_ids) = ((length track_ids + 19) / 20)%nat
  /\ (forall k, (S k < length (batches track_ids))%nat ->
                length (nth k (batches track_ids) []) = 20%nat).
Proof.
  unfold batches, range_step.
  replace (length track_ids + 20 - 1)%nat with (length track_ids + 19)%nat by lia.
  set (n := length track_ids). set (m := ((n + 19) / 20)%nat).
  assert (Hm : (n <= m * 20 /\ (m * 20 < n + 20))%nat).
  { unfold m. pose proof (Nat.div_mod_eq (n + 19) 20).
    pose proof (Nat.mod_upper_bound (n + 19) 20). lia. }
  assert (Hbatch : forall k, (k < m)%nat ->
            length (firstn 20 (skipn (k * 20) track_ids)) = Nat.min 20 (n - k * 20)).
  { intros k Hk. now rewrite length_firstn, length_skipn. }
  split; [apply batches_from_concat; fold n; lia |].
  split; [| split].
  - apply Forall_forall. intros batch Hb.
    rewrite map_map in Hb. apply in_map_iff in Hb. destruct Hb as (k & <- & Hk).
    apply in_seq in Hk. rewrite Hbatch by lia. lia.
  - now rewrite !length_map, length_seq.
  - intros k. rewrite !length_map, length_seq. intros Hk.
    rewrite map_map.
    rewrite (nth_indep _ [] (firstn 20 (skipn (0 * 20) track_ids)))
      by (rewrite length_map, length_seq; lia).
    rewrite (map_nth (fun k => firstn 20 (skipn (k * 20) track_ids)) (seq 0 m) 0%nat k).
    rewrite seq_nth by lia. cbn [plus]. rewrite Hbatch by lia. lia.
Qed.

(** X22. A score that is returned names the track as the catalogue does
    (never as "Unknown") and the playlist as the stored descriptor does;
    an error of the track fetch is passed on as it is.  Neither changes the
    session. *)
Theorem score_track_of_fetched {L : Library} {P : Providers}
    (track_url : string) (s : session) :
  (forall report,
      fst (score_track (fetch_track_features track_url) s) = Returned (Scored report) ->
      exists track_info features others d,
        sp_track (id_of_url track_url) = inr track_info
        /\ status_code (requests_get [id_of_url track_url]) = 200%Z
        /\ content (requests_get [id_of_url track_url]) = features :: others
        /\ s_dna s = Some d
        /\ sr_song report = t_name track_info
        /\ sr_artist report = t_artist track_info
        /\ sr_playlist report = playlist_name d
        /\ report = score_song {| song_name := Some (t_name track_info);
                                  song_artist := Some (t_artist track_info);
                                  song_get := af_get features |} d)
  /\ (forall msg,
        fst (score_track (fetch_track_features track_url) s) = Returned (ScoreError msg) ->
        fetch_track_features track_url = TrackError msg /\ s_dna s <> None)
  /\ snd (score_track (fetch_track_features track_url) s) = s.
Proof.
  split; [| split; [| apply score_track_session]].
  - intros report. unfold score_track.
    destruct (s_dna s) as [d |]; [| discriminate].
    unfold fetch_track_features.
    destruct (sp_track (id_of_url track_url)) as [e | track_info]; [discriminate |].
    destruct (status_code (requests_get [id_of_url track_url]) =? 200)%Z eqn:Es;
      [| discriminate].
    destruct (content (requests_get [id_of_url track_url])) as [| features others];
      [discriminate |].
    cbn [negb fst]. intros H. injection H as <-.
    exists track_info, features, others, d. apply Z.eqb_eq in Es.
    repeat split; auto.
  - intros msg. unfold score_track.
    destruct (s_dna s) as [d |]; [| discriminate].
    destruct (fetch_track_features track_url) as [e | song]; [| discriminate].
    cbn [fst]. intros H. injection H as <-. split; [reflexivity | discriminate].
Qed.

(** X23. The twin matcher resolves its target track as
    [fetch_track_features] does: when the fetch fails the matcher fails too,
    whatever the artist; and when the matcher returns twins the fetch
    succeeds, with the name and artist the matcher reports for its target. *)
Theorem find_sonic_twins_target_as_fetched {P : Providers}
    (track_url artist_url : string) (top_n : Z) :
  (forall msg, fetch_track_features track_url = TrackError msg ->
     exists msg', find_sonic_twins track_url artist_url top_n = TwinsError msg')
  /\ (forall target twins total_compared,
        find_sonic_twins track_url artist_url top_n = Twins target twins total_compared ->
        exists song,
          fetch_track_features track_url = TrackFeatures song
          /\ song_name song = Some (tg_name target)
          /\ song_artist song = Some (tg_artist target)
          /\ (forall f, dict_get (song_get song f) 0%R
                        = vector_of (hd quiet_features
                                        (content (requests_get [id_of_url track_url]))) f)).
Proof.
  unfold fetch_track_features, find_sonic_twins.
  destruct (sp_track (id_of_url track_url)) as [e | track_info].
  { split; [intros; eexists; reflexivity | discriminate]. }
  destruct (negb (status_code (requests_get [id_of_url track_url]) =? 200)%Z).
  { split; [intros; eexists; reflexivity | discriminate]. }
  destruct (content (requests_get [id_of_url track_url])) as [| features others].
  { split; [intros; eexists; reflexivity | discriminate]. }
  split; [discriminate |].
  intros target twins total_compared.
  destruct (build_artist_neighborhood artist_url 20) as [e | root neighbors total];
    [discriminate |].
  destruct neighbors; [discriminate |].
  intros H. injection H as <- _ _.
  eexists. split; [reflexivity |]. repeat split.
Qed.

(** ** The playlists an artist is found on *)

Section DiscoveredFacts.
Context {PP : PlaylistProviders}.

(** The search loops keep the identifiers of the playlists found among the
    seen ones, and distinct. *)
Lemma scan_items_invariant (items : list (option playlist_obj))
    (st : list string * list found_playlist) :
  incl (map pl_id (snd st)) (fst st) /\ NoDup (map pl_id (snd st)) ->
  incl (map pl_id (snd (scan_items items st))) (fst (scan_items items st))
  /\ NoDup (map pl_id (snd (scan_items items st))).
Proof.
  revert st. induction items as [| [item |] rest IH]; intros [seen found] Hst;
    cbn [scan_items]; [exact Hst | | now apply IH].
  destruct (mem (p_id item) seen) eqn:Em; [now apply IH |].
  assert (Hnew : ~ In (p_id item) seen).
  { intros H. apply mem_In in H. congruence. }
  destruct Hst as (Hincl & Hnd). cbn [fst snd] in *.
  apply IH. cbn [fst snd]. rewrite map_app. cbn [map found_of pl_id]. split.
  - apply incl_app; [now apply incl_tl | intros y [<- | []]; now left].
  - apply NoDup_app; [exact Hnd | repeat constructor; auto |].
    intros y Hy [<- | []]. apply Hnew, Hincl, Hy.
Qed.

Lemma search_playlists_invariant (limit : Z) (queries : list string)
    (st : list string * list found_playlist) :
  incl (map pl_id (snd st)) (fst st) /\ NoDup (map pl_id (snd st)) ->
  incl (map pl_id (snd (search_playlists limit queries st)))
       (fst (search_playlists limit queries st))
  /\ NoDup (map pl_id (snd (search_playlists limit queries st))).
Proof.
  revert st. induction queries as [| q rest IH]; intros st Hst; [exact Hst |].
  cbn [search_playlists]. destruct (sp_search_playlists q limit) as [items |];
    apply IH; [| exact Hst].
  now apply scan_items_invariant.
Qed.

Lemma search_playlists_all_fail (limit : Z) (queries : list string)
    (st : list string * list found_playlist) :
  (forall q, sp_search_playlists q limit = None) ->
  search_playlists limit queries st = st.
Proof.
  intros Hfail. induction queries as [| q rest IH]; [reflexivity |].
  cbn [search_playlists]. now rewrite Hfail.
Qed.

Lemma found_of_editorial (item : playlist_obj) :
  is_editorial (found_of item) = true <-> pl_owner_id (found_of item) = "spotify"%string.
Proof. cbn [found_of is_editorial pl_owner_id]. apply String.eqb_eq. Qed.

Lemma scan_items_editorial (items : list (option playlist_obj))
    (st : list string * list found_playlist) :
  Forall (fun p => is_editorial p = true <-> pl_owner_id p = "spotify"%string) (snd st) ->
  Forall (fun p => is_editorial p = true <-> pl_owner_id p = "spotify"%string)
         (snd (scan_items items st)).
Proof.
  revert st. induction items as [| [item |] rest IH]; intros [seen found] Hst;
    cbn [scan_items]; [exact Hst | | now apply IH].
  destruct (mem (p_id item) seen); apply IH; [exact Hst |].
  cbn [snd] in *. apply Forall_app. split; [exact Hst |].
  constructor; [apply found_of_editorial | constructor].
Qed.

Lemma search_playlists_editorial (limit : Z) (queries : list string)
    (st : list string * list found_playlist) :
  Forall (fun p => is_editorial p = true <-> pl_owner_id p = "spotify"%string) (snd st) ->
  Forall (fun p => is_editorial p = true <-> pl_owner_id p = "spotify"%string)
         (snd (search_playlists limit queries st)).
Proof.
  revert st. induction queries as [| q rest IH]; intros st Hst; [exact Hst |].
  cbn [search_playlists]. destruct (sp_search_playlists q limit) as [items |];
    apply IH; [| exact Hst].
  now apply scan_items_editorial.
Qed.

Lemma by_authority_sorted (l : list playlist_entry) :
  StronglySorted
    (fun a b => (is_editorial (pl_info b) = true -> is_editorial (pl_info a) = true)
                /\ (is_editorial (pl_info a) = is_editorial (pl_info b) ->
                    (pl_followers b <= pl_followers a)%Z))
    (stable_sort by_authority l).
Proof.
  apply stable_sort_sorted; unfold by_authority.
  - intros x y z (H1 & H2) (H3 & H4).
    destruct (is_editorial (pl_info x)), (is_editorial (pl_info y)),
      (is_editorial (pl_info z)); split; intros; try congruence;
      try (specialize (H1 eq_refl); discriminate);
      try (specialize (H3 eq_refl); discriminate);
      specialize (H2 eq_refl); specialize (H4 eq_refl); lia.
  - intros x y.
    destruct (is_editorial (pl_info x)), (is_editorial (pl_info y)); intros H;
      try discriminate; split; intros; try congruence; apply Z.ltb_lt in H; lia.
  - intros x y.
    destruct (is_editorial (pl_info x)), (is_editorial (pl_info y)); intros H;
      try discriminate; split; intros; try congruence; apply Z.ltb_ge in H; lia.
Qed.

Lemma map_with_followers_id (l : list found_playlist) :
  map (fun p => pl_id (pl_info p)) (map with_followers l) = map pl_id l.
Proof. rewrite map_map. reflexivity. Qed.

End DiscoveredFacts.

(** X24. The playlists found for an artist are listed once each (no
    identifier twice), the editorial ones first and by non-increasing
    number of followers within each group; a playlist counts as editorial
    exactly when its owner's identifier is "spotify"; [total_found] is the
    number of playlists listed. *)
Theorem discovered_playlists_distinct_and_ranked
    {P : Providers} {PP : PlaylistProviders} (artist_url : string) (limit : Z)
    (artist_id artist_name : string) (playlists entry_points : list playlist_entry)
    (total_found : nat) :
  get_discovered_on artist_url limit
  = Discovered artist_id artist_name playlists entry_points total_found ->
  NoDup (map (fun p => pl_id (pl_info p)) playlists)
  /\ StronglySorted
       (fun a b => (is_editorial (pl_info b) = true -> is_editorial (pl_info a) = true)
                   /\ (is_editorial (pl_info a) = is_editorial (pl_info b) ->
                       (pl_followers b <= pl_followers a)%Z))
       playlists
  /\ Forall (fun p => is_editorial (pl_info p) = true
                      <-> pl_owner_id (pl_info p) = "spotify"%string) playlists
  /\ total_found = length playlists
  /\ artist_id = id_of_url artist_url.
Proof.
  unfold get_discovered_on.
  destruct (sp_artist (id_of_url artist_url)) as [e | artist_info]; [discriminate |].
  intros H. cbv zeta in H.
  match type of H with
  | context [search_playlists limit ?q ?st] =>
      set (queries := q) in H; set (found := snd (search_playlists limit queries st)) in H
  end.
  injection H as <- _ <- _ <-.
  assert (Hperm : Permutation (stable_sort by_authority (map with_followers found))
                              (map with_followers found)) by apply stable_sort_perm.
  split; [| split; [apply by_authority_sorted | split; [| split; reflexivity]]].
  - apply (Permutation_NoDup (Permutation_sym (Permutation_map _ Hperm))).
    rewrite map_with_followers_id.
    apply (search_playlists_invariant limit queries ([], [])).
    cbn. split; [apply incl_nil_l | constructor].
  - apply (Permutation_Forall (Permutation_sym Hperm)).
    apply Forall_map. cbn [with_followers pl_info].
    apply (search_playlists_editorial limit queries ([], [])). constructor.
Qed.

Lemma discovered_playlists_witness :
  exists (playlists entry_points : list playlist_entry),
    @get_discovered_on small_catalogue playlist_catalogue "artist/R" 20
    = Discovered "R" "R" playlists entry_points 2
    /\ map (fun p => pl_id (pl_info p)) playlists = ["e1"; "u1"]%string
    /\ NoDup (map (fun p => pl_id (pl_info p)) playlists).
Proof.
  do 2 eexists. split; [vm_compute; reflexivity |]. split; [reflexivity |].
  exact (proj1 (@discovered_playlists_distinct_and_ranked small_catalogue
                  playlist_catalogue "artist/R" 20 _ _ _ _ _ eq_refl)).
Defined.

(** X25. The entry points are at most ten of the playlists found, each of
    them editorial or with more than 1000 followers, in the order of the
    playlist list.  A playlist that qualifies but is not among them was cut
    by the cap: there are ten entry points then, none of them ranked below
    it.  A playlist whose follower lookup failed is an entry point only if
    it is editorial. *)
Theorem discovered_entry_points
    {P : Providers} {PP : PlaylistProviders} (artist_url : string) (limit : Z)
    (artist_id artist_name : string) (playlists entry_points : list playlist_entry)
    (total_found : nat) :
  get_discovered_on artist_url limit
  = Discovered artist_id artist_name playlists entry_points total_found ->
  (length entry_points <= 10)%nat
  /\ incl entry_points playlists
  /\ Forall (fun p => is_editorial (pl_info p) = true \/ (1000 < pl_followers p)%Z)
            entry_points
  /\ (forall p, In p playlists ->
        is_editorial (pl_info p) = true \/ (1000 < pl_followers p)%Z ->
        ~ In p entry_points ->
        length entry_points = 10%nat
        /\ forall e, In e entry_points ->
             (is_editorial (pl_info p) = true -> is_editorial (pl_info e) = true)
             /\ (is_editorial (pl_info e) = is_editorial (pl_info p) ->
                 (pl_followers p <= pl_followers e)%Z))
  /\ (forall p, In p entry_points ->
        sp_playlist_followers (pl_id (pl_info p)) = None ->
        is_editorial (pl_info p) = true).
Proof.
  unfold get_discovered_on.
  destruct (sp_artist (id_of_url artist_url)) as [e | artist_info]; [discriminate |].
  intros H. cbv zeta in H.
  match type of H with
  | context [search_playlists limit ?q ?st] =>
      set (queries := q) in H; set (found := snd (search_playlists limit queries st)) in H
  end.
  set (ranked := stable_sort by_authority (map with_followers found)) in H.
  set (chosen := firstn 10 (filter is_entry_point ranked)) in H.
  injection H as _ _ <- <- _. subst chosen. fold ranked.
  assert (Hq : forall p, is_entry_point p = true
                         <-> is_editorial (pl_info p) = true \/ (1000 < pl_followers p)%Z).
  { intros p. unfold is_entry_point. rewrite orb_true_iff, Z.ltb_lt. reflexivity. }
  assert (Hin : forall p, In p (firstn 10 (filter is_entry_point ranked)) ->
                          In p ranked /\ is_entry_point p = true).
  { intros p Hp. apply In_firstn in Hp. now apply filter_In in Hp. }
  split; [apply firstn_le_length |].
  split; [intros p Hp; now apply Hin |].
  split; [apply Forall_forall; intros p Hp; now apply Hq, Hin |].
  split.
  - intros p Hp Hqual Hnot.
    assert (Hf : In p (filter is_entry_point ranked)).
    { apply filter_In. split; [exact Hp | now apply Hq]. }
    rewrite <- (firstn_skipn 10 (filter is_entry_point ranked)) in Hf.
    apply in_app_or in Hf. destruct Hf as [Hf | Hf]; [contradiction |].
    split.
    + rewrite length_firstn. apply Nat.min_l.
      destruct (Nat.le_gt_cases 10 (length (filter is_entry_point ranked)))
        as [Hle | Hlt]; [exact Hle |].
      rewrite skipn_all2 in Hf by lia. destruct Hf.
    + intros e0 He.
      pose proof (StronglySorted_filter _ is_entry_point _
                    (by_authority_sorted (map with_followers found))) as Hs.
      fold ranked in Hs.
      rewrite <- (firstn_skipn 10 (filter is_entry_point ranked)) in Hs.
      exact (StronglySorted_app_inv _ _ _ Hs e0 p He Hf).
  - intros p Hp Hnone. destruct (Hin p Hp) as (Hpl & Hep).
    apply Hq in Hep. destruct Hep as [He | Hfol]; [exact He |].
    apply (Permutation_in _ (stable_sort_perm _ _)) in Hpl.
    apply in_map_iff in Hpl. destruct Hpl as (f & <- & _).
    cbn [with_followers pl_info pl_followers] in *. rewrite Hnone in Hfol. lia.
Qed.

Lemma discovered_entry_points_witness :
  exists (playlists entry_points : list playlist_entry),
    @get_discovered_on small_catalogue playlist_catalogue "artist/R" 20
    = Discovered "R" "R" playlists entry_points 2
    /\ map (fun p => pl_id (pl_info p)) entry_points = ["e1"; "u1"]%string
    /\ (length entry_points <= 10)%nat.
Proof.
  do 2 eexists. split; [vm_compute; reflexivity |]. split; [reflexivity |].
  exact (proj1 (@discovered_entry_points small_catalogue
                  playlist_catalogue "artist/R" 20 _ _ _ _ _ eq_refl)).
Defined.

(** X26. The endpoint /discovered-on answers with an HTTP error exactly
    when the artist lookup raises: status 400, with the text "Failed to
    fetch artist: " and the exception's.  When the artist resolves and every
    playlist search raises, the answer is not an error but a result with no
    playlists, no entry points and [total_found = 0]. *)
Theorem discovered_on_errors {P : Providers} {PP : PlaylistProviders} (url : string) :
  (forall code detail,
      discovered_on url = HTTPException code detail
      <-> exists e, sp_artist (id_of_url url) = inl e
                    /\ code = 400%Z
                    /\ detail = ("Failed to fetch artist: " ++ e)%string)
  /\ (forall artist_info,
        sp_artist (id_of_url url) = inr artist_info ->
        (forall q, sp_search_playlists q 20 = None) ->
        discovered_on url
        = Returned (Discovered (id_of_url url) (a_name artist_info) [] [] 0)).
Proof.
  unfold discovered_on, get_discovered_on. split.
  - intros code detail.
    destruct (sp_artist (id_of_url url)) as [e | artist_info].
    + split.
      * intros H. injection H as <- <-. now exists e.
      * intros (e' & He & -> & ->). now injection He as <-.
    + split; [discriminate | intros (e' & He & _); discriminate].
  - intros artist_info Ha Hfail. rewrite Ha.
    now rewrite search_playlists_all_fail by exact Hfail.
Qed.

(** ** The scorer on a track without features *)

(** X27. A track whose raw feature vector is all zeros (so a track none of
    whose features is known), or any track against a playlist whose raw
    mean vector is all zeros, makes the cosine distance [0/0]; the clamp with
    the builtin [min] and [max] turns it into the cosine score 1. *)
Theorem zero_vector_cosine_score_is_one {L : Library} (song : song_features)
    (d : DNA) :
  (forall f, dict_get (song_get song f) 0%R = 0%R)
  \/ (forall f, raw_mean_vector d f = 0%R) ->
  scipy_cosine (fun f => dict_get (song_get song f) 0%R) (raw_mean_vector d) = NaN
  /\ cosine_similarity (score_song song d) = Fin 1.
Proof.
  intros Hz.
  assert (Hnan : scipy_cosine (fun f => dict_get (song_get song f) 0%R)
                              (raw_mean_vector d) = NaN).
  { unfold scipy_cosine.
    assert (E : (np_dot (fun f => dict_get (song_get song f) 0)
                        (fun f => dict_get (song_get song f) 0)
                 * np_dot (raw_mean_vector d) (raw_mean_vector d) = 0)%R).
    { assert (Hdot : forall u : vec, (forall f, u f = 0%R) -> np_dot u u = 0%R).
      { intros u Hu. unfold np_dot. apply sumF_zero. intros f. rewrite Hu. lra. }
      destruct Hz as [Hs | Hm]; [rewrite (Hdot _ Hs) | rewrite (Hdot _ Hm)]; lra. }
    rewrite E, sqrt_0. destruct (Req_dec_T 0 0); [reflexivity | congruence]. }
  split; [exact Hnan |].
  cbn [score_song cosine_similarity]. rewrite Hnan.
  unfold fmin, fmax, flt. cbn [lift2].
  destruct (Rlt_dec 0 1); [| lra]. cbn [fround lift1]. now rewrite py_round_1.
Qed.

Lemma zero_vector_cosine_witness :
  exists d : @DNA stub_library,
    @build_playlist_dna stub_library tt spread_playlist None = Built d
    /\ (forall f, dict_get (song_get silent_song f) 0%R = 0%R)
    /\ cosine_similarity (score_song silent_song d) = Fin 1.
Proof.
  eexists. split; [reflexivity |].
  assert (Hs : forall f, dict_get (song_get silent_song f) 0%R = 0%R) by reflexivity.
  split; [exact Hs |].
  exact (proj2 (@zero_vector_cosine_score_is_one stub_library silent_song _
                  (or_introl Hs))).
Defined.

(** ** Key and mode distributions *)

Section ValueCounts.

Lemma list_sum_cons (x : nat) (l : list nat) :
  list_sum (x :: l) = (x + list_sum l)%nat.
Proof. reflexivity. Qed.

Lemma list_sum_shift (c : Z -> nat) (x : Z) (m : list Z) :
  list_sum (map (fun v => if Z.eq_dec x v then S (c v) else c v) m)
  = (list_sum (map c m) + count_occ Z.eq_dec m x)%nat.
Proof.
  induction m as [| y m IH]; [reflexivity |].
  cbn [map count_occ]. rewrite !list_sum_cons, IH.
  destruct (Z.eq_dec x y) as [-> | Hne].
  - destruct (Z.eq_dec y y); [lia | congruence].
  - destruct (Z.eq_dec y x); [congruence | lia].
Qed.

Lemma count_occ_nodup (l : list Z) (x : Z) :
  count_occ Z.eq_dec (nodup Z.eq_dec l) x = if in_dec Z.eq_dec x l then 1%nat else 0%nat.
Proof.
  pose proof (NoDup_nodup Z.eq_dec l) as Hnd.
  rewrite (NoDup_count_occ Z.eq_dec) in Hnd. specialize (Hnd x).
  destruct (in_dec Z.eq_dec x l) as [Hin | Hnot].
  - apply (nodup_In Z.eq_dec) in Hin.
    apply (count_occ_In Z.eq_dec) in Hin. lia.
  - apply count_occ_not_In. now rewrite nodup_In.
Qed.

(** The occurrences of the distinct values add up to the length. *)
Lemma list_sum_count_occ (l : list Z) :
  list_sum (map (count_occ Z.eq_dec l) (nodup Z.eq_dec l)) = length l.
Proof.
  induction l as [| x l IH]; [reflexivity |].
  assert (E : forall m,
            map (count_occ Z.eq_dec (x :: l)) m
            = map (fun v => if Z.eq_dec x v then S (count_occ Z.eq_dec l v)
                            else count_occ Z.eq_dec l v) m).
  { intros m. apply map_ext. intros v. reflexivity. }
  rewrite E, list_sum_shift, count_occ_nodup.
  cbn [nodup length].
  destruct (in_dec Z.eq_dec x l) as [Hin | Hnot].
  - rewrite IH. destruct (in_dec Z.eq_dec x (x :: l)) as [_ | Hn]; [lia |].
    exfalso. apply Hn. now left.
  - cbn [map]. rewrite list_sum_cons, IH.
    destruct (in_dec Z.eq_dec x (x :: l)) as [_ | Hn];
      [| exfalso; apply Hn; now left].
    apply (count_occ_not_In Z.eq_dec) in Hnot. lia.
Qed.

Lemma list_sum_perm (l l' : list nat) :
  Permutation l l' -> list_sum l = list_sum l'.
Proof. induction 1; rewrite ?list_sum_cons; lia. Qed.

Lemma value_counts_spec (l : list Z) :
  NoDup (map fst (value_counts l))
  /\ list_sum (map snd (value_counts l)) = length l
  /\ Forall (fun vc => snd vc = count_occ Z.eq_dec l (fst vc) /\ (1 <= snd vc)%nat)
            (value_counts l)
  /\ StronglySorted (fun a b => (snd b <= snd a)%nat) (value_counts l)
  /\ (forall v, In v l <-> In v (map fst (value_counts l))).
Proof.
  unfold value_counts.
  set (pairs := map (fun v => (v, count_occ Z.eq_dec l v)) (nodup Z.eq_dec l)).
  set (before := fun a b : Z * nat => (snd b <? snd a)%nat).
  assert (Hperm : Permutation (stable_sort before pairs) pairs) by apply stable_sort_perm.
  assert (Hfst : map fst pairs = nodup Z.eq_dec l).
  { unfold pairs. rewrite map_map. cbn [fst]. apply map_id. }
  assert (Hsnd : map snd pairs = map (count_occ Z.eq_dec l) (nodup Z.eq_dec l)).
  { unfold pairs. rewrite map_map. reflexivity. }
  split; [| split; [| split; [| split]]].
  - apply (Permutation_NoDup (Permutation_sym (Permutation_map fst Hperm))).
    rewrite Hfst. apply NoDup_nodup.
  - rewrite (list_sum_perm _ _ (Permutation_map snd Hperm)), Hsnd.
    apply list_sum_count_occ.
  - apply (Permutation_Forall (Permutation_sym Hperm)).
    unfold pairs. apply Forall_map. apply Forall_forall. intros v Hv. cbn [fst snd].
    split; [reflexivity |]. apply nodup_In in Hv.
    apply (count_occ_In Z.eq_dec) in Hv. lia.
  - apply stable_sort_sorted; unfold before.
    + intros x y z. lia.
    + intros x y H. apply Nat.ltb_lt in H. lia.
    + intros x y H. apply Nat.ltb_ge in H. lia.
  - intros v. rewrite <- (nodup_In Z.eq_dec), <- Hfst. split.
    + apply Permutation_in, Permutation_sym, Permutation_map, Hperm.
    + apply Permutation_in, Permutation_map, Hperm.
Qed.

End ValueCounts.

(** X28. When the table has a key column, the key distribution of the
    descriptor lists every key of the playlist once, with the number of
    tracks in that key, the most frequent first; the counts add up to the
    track count.  The same holds of the mode distribution.  Without the
    column the distribution is empty. *)
Theorem key_mode_distributions {L : Library} (global : rng_state)
    (df : DataFrame) (name : option string) (d : DNA) :
  build_playlist_dna global df name = Built d ->
  (has_column "key" df = true ->
     NoDup (map fst (key_distribution d))
     /\ list_sum (map snd (key_distribution d)) = track_count d
     /\ Forall (fun vc => snd vc = count_occ Z.eq_dec (map row_key (df_rows df)) (fst vc)
                          /\ (1 <= snd vc)%nat) (key_distribution d)
     /\ StronglySorted (fun a b => (snd b <= snd a)%nat) (key_distribution d)
     /\ (forall r, In r (df_rows df) -> In (row_key r) (map fst (key_distribution d))))
  /\ (has_column "mode" df = true ->
     NoDup (map fst (mode_distribution d))
     /\ list_sum (map snd (mode_distribution d)) = track_count d
     /\ Forall (fun vc => snd vc = count_occ Z.eq_dec (map row_mode (df_rows df)) (fst vc)
                          /\ (1 <= snd vc)%nat) (mode_distribution d)
     /\ StronglySorted (fun a b => (snd b <= snd a)%nat) (mode_distribution d)
     /\ (forall r, In r (df_rows df) -> In (row_mode r) (map fst (mode_distribution d))))
  /\ (has_column "key" df = false -> key_distribution d = [])
  /\ (has_column "mode" df = false -> mode_distribution d = []).
Proof.
  unfold build_playlist_dna.
  destruct (df_len df <? 3)%nat; [discriminate |].
  intros H. injection H as <-. cbn [key_distribution mode_distribution track_count].
  split; [| split; [| split]].
  - intros ->.
    destruct (value_counts_spec (map row_key (df_rows df)))
      as (H1 & H2 & H3 & H4 & H5).
    rewrite length_map in H2. repeat split; auto.
    intros r Hr. apply H5, in_map, Hr.
  - intros ->.
    destruct (value_counts_spec (map row_mode (df_rows df)))
      as (H1 & H2 & H3 & H4 & H5).
    rewrite length_map in H2. repeat split; auto.
    intros r Hr. apply H5, in_map, Hr.
  - now intros ->.
  - now intros ->.
Qed.

Lemma key_mode_distributions_witness :
  exists d : @DNA stub_library,
    @build_playlist_dna stub_library tt flat_playlist None = Built d
    /\ has_column "key" flat_playlist = true
    /\ key_distribution d = [(0%Z, 3%nat)]
    /\ list_sum (map snd (key_distribution d)) = track_count d.
Proof.
  eexists. split; [reflexivity |]. split; [reflexivity |]. split; [reflexivity |].
  destruct (@key_mode_distributions stub_library tt flat_playlist None _ eq_refl)
    as (Hkey & _).
  exact (proj1 (proj2 (Hkey eq_refl))).
Defined.

(** ** The report: correlated features and dominant traits *)

Section ReportLists.
Context {L : Library}.
Local Open Scope R_scope.

Lemma Forall_flat_map {A B : Type} (P : B -> Prop) (f : A -> list B) (l : list A) :
  (forall x, In x l -> Forall P (f x)) -> Forall P (flat_map f l).
Proof.
  intros H. induction l as [| x l IH]; cbn [flat_map]; [constructor |].
  apply Forall_app. split; [apply H; now left |].
  apply IH. intros y Hy. apply H. now right.
Qed.

Lemma Forall_firstn {A : Type} (P : A -> Prop) (n : nat) (l : list A) :
  Forall P l -> Forall P (firstn n l).
Proof.
  intros H. apply Forall_forall. intros x Hx. rewrite Forall_forall in H.
  apply H. now apply In_firstn in Hx.
Qed.

Lemma py_round_above (x : R) (n : nat) (k : Z) :
  IZR k / 10 ^ n <= x -> IZR k / 10 ^ n <= py_round x n.
Proof.
  intros H. pose proof (pow10_pos n) as Hp.
  rewrite <- (py_round_exact (IZR k / 10 ^ n) n k) at 1 by (field; lra).
  now apply py_round_monotone.
Qed.

Lemma py_round_below (x : R) (n : nat) (k : Z) :
  x <= IZR k / 10 ^ n -> py_round x n <= IZR k / 10 ^ n.
Proof.
  intros H. pose proof (pow10_pos n) as Hp.
  rewrite <- (py_round_exact (IZR k / 10 ^ n) n k) at 1 by (field; lra).
  now apply py_round_monotone.
Qed.

(** Rounding keeps a value whose size is above a threshold with a few
    decimals on its side of the threshold, and keeps its sign. *)
Lemma py_round_beyond (x : R) (n : nat) (k : Z) :
  (0 < k)%Z -> IZR k / 10 ^ n < Rabs x ->
  IZR k / 10 ^ n <= Rabs (py_round x n)
  /\ (0 < x <-> 0 < py_round x n).
Proof.
  intros Hk Hx. pose proof (pow10_pos n) as Hp.
  assert (Hpos : 0 < IZR k / 10 ^ n).
  { apply Rdiv_lt_0_compat; [now apply IZR_lt | exact Hp]. }
  destruct (Rcase_abs x) as [Hneg | Hnn].
  - rewrite (Rabs_left x Hneg) in Hx.
    assert (Hr : py_round x n <= IZR (- k) / 10 ^ n).
    { apply py_round_below. rewrite opp_IZR. unfold Rdiv in *.
      rewrite <- Ropp_mult_distr_l. lra. }
    rewrite opp_IZR in Hr. unfold Rdiv in Hr. rewrite <- Ropp_mult_distr_l in Hr.
    fold (Rdiv (IZR k) (10 ^ n)) in Hr.
    rewrite Rabs_left by lra. split; [lra |]. split; intros; lra.
  - rewrite (Rabs_right x Hnn) in Hx.
    assert (Hr : IZR k / 10 ^ n <= py_round x n) by (apply py_round_above; lra).
    rewrite Rabs_right by lra. split; [lra |]. split; intros; lra.
Qed.

Lemma corr_pairs_sorted (l : list corr_pair) :
  StronglySorted (fun a b => Rabs (correlation b) <= Rabs (correlation a))
    (stable_sort (fun a b => if Rlt_dec (Rabs (correlation b)) (Rabs (correlation a))
                             then true else false) l).
Proof.
  apply stable_sort_sorted.
  - intros x y z. lra.
  - intros x y. destruct (Rlt_dec _ _); [lra | discriminate].
  - intros x y. destruct (Rlt_dec _ _); [discriminate | lra].
Qed.

Lemma dominant_traits_sorted (l : list dominant_trait) :
  StronglySorted (fun a b => Rabs (deviation_pct b) <= Rabs (deviation_pct a))
    (stable_sort (fun a b => if Rlt_dec (Rabs (deviation_pct b)) (Rabs (deviation_pct a))
                             then true else false) l).
Proof.
  apply stable_sort_sorted.
  - intros x y z. lra.
  - intros x y. destruct (Rlt_dec _ _); [lra | discriminate].
  - intros x y. destruct (Rlt_dec _ _); [discriminate | lra].
Qed.

Lemma In_upper_pairs (l : list feature) (a b : feature) :
  In (a, b) (upper_pairs l) ->
  exists front middle rest, l = front ++ a :: middle ++ b :: rest.
Proof.
  induction l as [| x t IH]; cbn [upper_pairs]; [intros [] |].
  intros H. apply in_app_or in H. destruct H as [H | H].
  - apply in_map_iff in H. destruct H as (y & E & Hy). injection E as <- <-.
    apply in_split in Hy. destruct Hy as (m & r & ->).
    now exists [], m, r.
  - destruct (IH H) as (f & m & r & ->). now exists (x :: f), m, r.
Qed.

End ReportLists.

(** X29. The report lists at most six correlated feature pairs, by
    non-increasing size of the (rounded) correlation; each pair has a
    correlation of size at least 0.3, is marked positive exactly when its
    correlation is above 0, and names two features in the order of the
    feature list.  It lists at most five dominant traits, by non-increasing
    size of the deviation percentage; each deviates by at least 15 percent,
    is marked high exactly when its deviation is above 0, and carries the
    mean the feature profile reports. *)
Theorem report_correlations_and_traits {L : Library} (name : option string) (d : DNA) :
  let report := report_of name d in
  ((length (rep_correlated_features report) <= 6)%nat
   /\ StronglySorted (fun a b => Rabs (correlation b) <= Rabs (correlation a))%R
                     (rep_correlated_features report)
   /\ Forall (fun c => (0.3 <= Rabs (correlation c))%R
                       /\ (positive c = true <-> (0 < correlation c)%R)
                       /\ exists front middle rest,
                            feature_columns d
                            = front ++ feature_a c :: middle ++ feature_b c :: rest)
             (rep_correlated_features report))
  /\ ((length (rep_dominant_traits report) <= 5)%nat
      /\ StronglySorted (fun a b => Rabs (deviation_pct b) <= Rabs (deviation_pct a))%R
                        (rep_dominant_traits report)
      /\ Forall (fun t => (15 <= Rabs (deviation_pct t))%R
                          /\ (dt_high t = true <-> (0 < deviation_pct t)%R)
                          /\ In (dt_feature t) (feature_columns d)
                          /\ dt_value t
                             = fp_mean (rep_feature_profile report (dt_feature t)))
                (rep_dominant_traits report)).
Proof.
  intros report. unfold report, report_of.
  cbn [rep_correlated_features rep_dominant_traits rep_feature_profile fp_mean].
  split.
  - split; [apply firstn_le_length |].
    split; [apply StronglySorted_firstn, corr_pairs_sorted |].
    apply Forall_firstn. unfold corr_pairs.
    apply (Permutation_Forall (Permutation_sym (stable_sort_perm _ _))).
    apply Forall_flat_map. intros [a b] Hab. cbn [fst snd].
    destruct (corr_matrix d a b) as [r |]; [| constructor].
    destruct (Rlt_dec 0.3 (Rabs r)) as [Hr |]; [| constructor].
    constructor; [| constructor].
    cbn [correlation positive feature_a feature_b].
    assert (H3 : (IZR 300 / 10 ^ 3 < Rabs r)%R) by (simpl; lra).
    destruct (py_round_beyond r 3 300 ltac:(lia) H3) as (Habs & Hsign).
    split; [simpl in Habs; lra |]. split.
    + destruct (Rlt_dec 0 r) as [Hp | Hn].
      * split; [intros _; now apply Hsign | reflexivity].
      * split; [discriminate | intros Hp; apply Hsign in Hp; contradiction].
    + now apply In_upper_pairs.
  - split; [apply firstn_le_length |].
    split; [apply StronglySorted_firstn, dominant_traits_sorted |].
    apply Forall_firstn. unfold dominant_traits.
    apply (Permutation_Forall (Permutation_sym (stable_sort_perm _ _))).
    apply Forall_flat_map. intros f Hf.
    match goal with
    | |- context [Rlt_dec 0.15 (Rabs ?dev)] => set (deviation := dev)
    end.
    destruct (Rlt_dec 0.15 (Rabs deviation)) as [Hd |]; [| constructor].
    constructor; [| constructor].
    cbn [deviation_pct dt_high dt_feature dt_value].
    assert (H15 : (IZR 150 / 10 ^ 1 < Rabs (deviation * 100))%R).
    { rewrite Rabs_mult, (Rabs_right 100) by lra. simpl. lra. }
    destruct (py_round_beyond (deviation * 100) 1 150 ltac:(lia) H15) as (Habs & Hsign).
    split; [simpl in Habs; lra |]. split; [| split; [exact Hf | reflexivity]].
    destruct (Rlt_dec 0 deviation) as [Hp | Hn].
    + split; [intros _; apply Hsign; lra | reflexivity].
    + split; [discriminate | intros Hp; apply Hsign in Hp; lra].
Qed.

(* ================================================================== *)
(** * Part IV.  The scorer outside the range of a double *)
(* ================================================================== *)

Section OverflowFacts.
Local Open Scope R_scope.

Lemma sqrt_of_square (x y : R) : 0 <= y -> x = y * y -> sqrt x = y.
Proof. intros Hy ->. apply sqrt_square, Hy. Qed.

Lemma paired_stats (f : feature) :
  mean_ (scaler_fit (feature_data paired_playlist)) f = paired_mean f
  /\ scale_ (scaler_fit (feature_data paired_playlist)) f = paired_scale f.
Proof.
  assert (Hm : col_mean (feature_data paired_playlist) f = paired_mean f).
  { unfold col_mean, np_mean, column. destruct f; cbn; lra. }
  split; [exact Hm |].
  cbn [scaler_fit scale_]. unfold col_var. rewrite Hm.
  unfold column, handle_zeros_in_scale.
  destruct f; cbn.
  all: try (match goal with
            | |- context [sqrt ?x] => replace x with 0 by lra
            end; rewrite sqrt_0; destruct (Req_dec_T 0 0); [reflexivity | congruence]).
  - rewrite (sqrt_of_square _ 0.25) by lra.
    destruct (Req_dec_T 0.25 0); lra.
  - rewrite (sqrt_of_square _ 8) by lra.
    destruct (Req_dec_T 8 0); lra.
Qed.

Lemma paired_transform (x : vec) (f : feature) :
  scaler_transform (scaler_fit (feature_data paired_playlist)) x f
  = (x f - paired_mean f) / paired_scale f.
Proof.
  unfold scaler_transform.
  destruct (paired_stats f) as [-> ->]. reflexivity.
Qed.

Lemma paired_normalized_mean (f : feature) :
  col_mean (map (scaler_transform (scaler_fit (feature_data paired_playlist)))
              (feature_data paired_playlist)) f = 0.
Proof.
  unfold col_mean, np_mean, column. cbn [map feature_data paired_playlist df_rows].
  rewrite !paired_transform. destruct f; cbn; lra.
Qed.

Lemma paired_regularized_cov (i j : feature) :
  regularized_cov (feature_data paired_playlist) i j = paired_covariance i j.
Proof.
  unfold regularized_cov, df_cov. rewrite !paired_normalized_mean.
  cbn [map feature_data paired_playlist df_rows].
  rewrite !paired_transform. unfold epsilon.
  destruct i, j; cbn; unfold epsilon; lra.
Qed.

Lemma paired_playlist_inverse :
  is_inverse (regularized_cov (feature_data paired_playlist)) paired_inverse.
Proof.
  intros x i. unfold mat_vec, sumF. cbn [map DNA_FEATURES].
  rewrite !paired_regularized_cov.
  destruct i; cbn; unfold epsilon; lra.
Qed.

Lemma overflow_pos : 0 < overflow.
Proof. unfold overflow. lra. Qed.

Lemma of_real_num (r : R) : - overflow < r < overflow -> of_real r = Num r.
Proof.
  intros H. unfold of_real.
  destruct (Rle_dec overflow r); [lra |].
  destruct (Rle_dec r (- overflow)); [lra | reflexivity].
Qed.

Lemma of_real_pos (r : R) : overflow <= r -> of_real r = PosInf.
Proof. intros H. unfold of_real. destruct (Rle_dec overflow r); [reflexivity | lra]. Qed.

Lemma of_real_neg (r : R) : r <= - overflow -> of_real r = NegInf.
Proof.
  intros H. pose proof overflow_pos. unfold of_real.
  destruct (Rle_dec overflow r); [lra |].
  destruct (Rle_dec r (- overflow)); [reflexivity | lra].
Qed.

(** The range of a double, between two powers of ten. *)
Lemma overflow_bounds : 1e308 < overflow < 1e309.
Proof. unfold overflow. lra. Qed.

Lemma dmul_zero (y : R) : dmul (Num 0) (Num y) = Num 0.
Proof.
  pose proof overflow_pos. cbn [dmul].
  rewrite of_real_num by lra. f_equal. lra.
Qed.

Lemma dadd_zero (a : R) :
  - overflow < a < overflow -> dadd (Num a) (Num 0) = Num a.
Proof. intros H. cbn [dadd]. rewrite of_real_num by lra. f_equal. lra. Qed.

(** A sum whose terms are zero but for energy and loudness. *)
Lemma dsumF_energy_loudness (g : dvec) (a b : R) :
  (forall f, f <> energy -> f <> loudness -> g f = Num 0) ->
  g energy = Num a -> g loudness = Num b ->
  - overflow < a < overflow ->
  - overflow < a + b < overflow ->
  dsumF g = Num (a + b).
Proof.
  intros Hz Ha Hb Ra Rab. pose proof overflow_pos.
  unfold dsumF. cbn [map DNA_FEATURES fold_left].
  rewrite Ha, Hb, !Hz by discriminate.
  rewrite (dadd_zero 0) by lra.
  cbn [dadd]. rewrite (of_real_num (0 + a)) by lra.
  cbn [dadd]. replace (0 + a + b) with (a + b) by lra.
  rewrite (of_real_num (a + b)) by lra.
  now rewrite !dadd_zero by lra.
Qed.

Lemma dsumF_zero (g : dvec) : (forall f, g f = Num 0) -> dsumF g = Num 0.
Proof.
  intros Hz. pose proof overflow_pos.
  unfold dsumF. cbn [map DNA_FEATURES fold_left].
  rewrite !Hz. now rewrite !dadd_zero by lra.
Qed.

Lemma dsumF_ext (g h : dvec) : (forall f, g f = h f) -> dsumF g = dsumF h.
Proof. intros E. unfold dsumF. cbn [map DNA_FEATURES]. now rewrite !E. Qed.

Section AnyLibrary.
Context {L : Library}.

(** An inverse of the covariance of the paired playlist has the entries of
    [paired_inverse]. *)
Lemma paired_inverse_entries (VI : matrix) (i j : feature) :
  is_inverse (regularized_cov (feature_data paired_playlist)) VI ->
  VI i j = paired_inverse i j.
Proof.
  intros H.
  assert (E : forall M : matrix, mat_vec M (fun k => np_eye j k) i = M i j).
  { intros M. unfold mat_vec.
    rewrite (sumF_ext _ (fun k => np_eye j k * M i k)) by (intros; lra).
    now rewrite sumF_eye. }
  rewrite <- (E VI), <- (E paired_inverse).
  apply (inverse_unique (feature_data paired_playlist)).
  - simpl. lia.
  - exact H.
  - exact paired_playlist_inverse.
Qed.

End AnyLibrary.

End OverflowFacts.

Section OverflowScore.
Context {L : Library}.
Local Open Scope R_scope.

Variables (global : rng_state) (name : option string) (d : DNA).
Hypothesis Hbuilt : build_playlist_dna global paired_playlist name = Built d.
Hypothesis Hinv : is_inverse (cov_matrix d) (inv_cov_matrix d).

Lemma paired_dna_fields :
  scaler d = scaler_fit (feature_data paired_playlist)
  /\ (forall f, mean_vector d f = 0)
  /\ (forall i j, inv_cov_matrix d i j = paired_inverse i j).
Proof.
  destruct (build_playlist_dna_fields _ _ _ _ Hbuilt) as (_ & Hs & _ & _ & Hm & _).
  destruct (build_playlist_dna_built _ _ _ _ Hbuilt) as (_ & _ & _ & _ & _ & Hc & _).
  split; [exact Hs |]. split.
  - intros f. rewrite Hm. apply paired_normalized_mean.
  - intros i j. apply paired_inverse_entries. rewrite <- Hc. exact Hinv.
Qed.

(** Lines 24-27 and the subtraction inside [mahalanobis], on the huge
    candidate: nothing overflows yet. *)
Lemma huge_song_delta (f : feature) :
  dsub (ddiv (dsub (Num (dict_get (song_get huge_song f) 0)) (Num (mean_ (scaler d) f)))
             (Num (scale_ (scaler d) f)))
       (Num (mean_vector d f))
  = Num (huge_delta f).
Proof.
  destruct paired_dna_fields as (Hs & Hm & _).
  rewrite Hs, Hm. destruct (paired_stats f) as [-> ->].
  unfold dsub, dneg, dadd, ddiv.
  destruct f;
    cbn [huge_song song_get dict_get paired_features paired_mean paired_scale
         huge_delta].
  all: rewrite of_real_num by (unfold overflow; lra).
  all: match goal with
       | |- context [Req_dec_T ?s 0] =>
           destruct (Req_dec_T s 0) as [E | _]; [exfalso; lra |]
       end.
  all: rewrite of_real_num by (unfold overflow; lra).
  all: rewrite of_real_num by (unfold overflow; lra).
  all: f_equal; lra.
Qed.

(** [np.dot(delta, inv_cov)]: still in range. *)
Lemma huge_song_weight (j : feature) :
  dsumF (fun i => dmul (Num (huge_delta i)) (Num (paired_inverse i j)))
  = Num (huge_weight j).
Proof.
  pose proof overflow_bounds as Ho.
  assert (Hz : forall i, i <> energy -> i <> loudness ->
                         dmul (Num (huge_delta i)) (Num (paired_inverse i j)) = Num 0).
  { intros i He Hl. destruct i; try congruence; apply dmul_zero. }
  assert (Hj : j = energy \/ j = loudness
               \/ (paired_inverse energy j = 0 /\ paired_inverse loudness j = 0
                   /\ huge_weight j = 0)).
  { destruct j; auto; right; right;
      cbn [paired_inverse huge_weight]; unfold np_eye; cbn [feature_eqb];
      repeat split; lra. }
  destruct Hj as [-> | [-> | (He & Hl & Hw)]].
  - apply dsumF_energy_loudness; try exact Hz.
    all: cbn [dmul huge_delta paired_inverse]; try (apply of_real_num); lra.
  - apply dsumF_energy_loudness; try exact Hz.
    all: cbn [dmul huge_delta paired_inverse]; try (apply of_real_num); lra.
  - rewrite Hw. apply dsumF_zero. intros i.
    destruct i; try apply dmul_zero.
    + rewrite He. cbn [dmul huge_delta]. rewrite of_real_num by lra. f_equal. lra.
    + rewrite Hl. cbn [dmul huge_delta]. rewrite of_real_num by lra. f_equal. lra.
Qed.

(** [np.dot(..., delta)]: the product for energy is below the range, the
    product for loudness above it, and their sum is NaN. *)
Lemma huge_song_quadratic :
  ddot (fun f => Num (huge_weight f)) (fun f => Num (huge_delta f)) = NotANumber.
Proof.
  pose proof overflow_bounds as Ho.
  unfold ddot, dsumF. cbn [map DNA_FEATURES fold_left].
  replace (dmul (Num (huge_weight danceability)) (Num (huge_delta danceability)))
    with (Num 0) by (symmetry; apply dmul_zero).
  replace (dmul (Num (huge_weight energy)) (Num (huge_delta energy))) with NegInf
    by (symmetry; apply of_real_neg;
        cbn [huge_weight huge_delta paired_inverse]; lra).
  replace (dmul (Num (huge_weight loudness)) (Num (huge_delta loudness))) with PosInf
    by (symmetry; apply of_real_pos;
        cbn [huge_weight huge_delta paired_inverse]; lra).
  rewrite (dadd_zero 0) by lra.
  reflexivity.
Qed.

Lemma huge_song_mahalanobis : mahalanobis_fit64 huge_song d = NotANumber.
Proof.
  unfold mahalanobis_fit64. cbv zeta.
  destruct paired_dna_fields as (_ & _ & Hvi).
  assert (Hw : forall j,
             dvec_mat (fun f =>
                 dsub (ddiv (dsub (Num (dict_get (song_get huge_song f) 0))
                                  (Num (mean_ (scaler d) f)))
                            (Num (scale_ (scaler d) f)))
                      (Num (mean_vector d f))) (inv_cov_matrix d) j
             = Num (huge_weight j)).
  { intros j. unfold dvec_mat. rewrite <- huge_song_weight.
    apply dsumF_ext. intros i. now rewrite huge_song_delta, Hvi. }
  unfold ddot.
  rewrite (dsumF_ext _ (fun f => dmul (Num (huge_weight f)) (Num (huge_delta f))))
    by (intros f; now rewrite Hw, huge_song_delta).
  change (dsumF (fun f => dmul (Num (huge_weight f)) (Num (huge_delta f))))
    with (ddot (fun f => Num (huge_weight f)) (fun f => Num (huge_delta f))).
  rewrite huge_song_quadratic. reflexivity.
Qed.

(** The blend of lines 62-67 is NaN as soon as the Mahalanobis score is,
    and NaN is below both thresholds of the decision. *)
Lemma composite64_nan (cosine_score iso_score : double) :
  composite64 cosine_score NotANumber iso_score = NotANumber.
Proof.
  unfold composite64.
  change (dmul (Num weight_mahalanobis) NotANumber) with NotANumber.
  destruct (dmul (Num weight_cosine) cosine_score); reflexivity.
Qed.

End OverflowScore.

(** C1.  The claim fails on the code for a finite candidate whose
    magnitudes are large.  Take the playlist [paired_playlist] and the
    candidate [huge_song] (energy 1e200, loudness 6e201, the other features
    those of the playlist).  For every implementation of the libraries, in
    every descriptor built from that playlist with an inverse of its
    regularised covariance, lines 24-47 of [score_song] compute in binary64 a
    quadratic form with one product below and one above the range of a
    double: their sum is NaN, and so are the distance and the Mahalanobis
    score, which line 47 rounds without the clamp [max(0, min(1, .))] of
    lines 40 and 53.  The score is therefore not in [0, 1]; whatever the
    cosine and anomaly scores are, the composite of lines 62-67 is NaN and
    the decision is REJECT.  In exact arithmetic the same score lies in
    [0, 1]. *)
Theorem mahalanobis_score_nan_on_overflow {L : Library} (global : rng_state)
    (name : option string) (d : DNA) :
  build_playlist_dna global paired_playlist name = Built d ->
  is_inverse (cov_matrix d) (inv_cov_matrix d) ->
  mahalanobis_fit64 huge_song d = NotANumber
  /\ ~ in_unit64 (mahalanobis_fit64 huge_song d)
  /\ (forall cosine_score iso_score : double,
        let composite :=
          composite64 cosine_score (mahalanobis_fit64 huge_song d) iso_score in
        composite = NotANumber
        /\ ~ in_unit64 composite
        /\ decide64 composite = REJECT)
  /\ in_unit (mahalanobis_fit (score_song huge_song d)).
Proof.
  intros Hbuilt Hinv.
  pose proof (huge_song_mahalanobis global name d Hbuilt Hinv) as Hnan.
  rewrite Hnan. split; [reflexivity |]. split; [intros H; exact H |]. split.
  - intros cosine_score iso_score. cbv zeta.
    rewrite composite64_nan. repeat split. intros H; exact H.
  - eapply score_song_in_unit; eassumption.
Qed.

Lemma mahalanobis_score_nan_witness :
  exists d : @DNA exact_inverse_library,
    @build_playlist_dna exact_inverse_library tt paired_playlist
      (Some "Paired"%string) = Built d
    /\ is_inverse (cov_matrix d) (inv_cov_matrix d)
    /\ mahalanobis_fit64 huge_song d = NotANumber
    /\ composite64 (Num 1) (mahalanobis_fit64 huge_song d) (Num 1) = NotANumber
    /\ decide64 (composite64 (Num 1) (mahalanobis_fit64 huge_song d) (Num 1))
       = REJECT.
Proof.
  eexists. split; [reflexivity |]. split; [exact paired_playlist_inverse |].
  destruct (@mahalanobis_score_nan_on_overflow exact_inverse_library tt
              (Some "Paired"%string) _ eq_refl paired_playlist_inverse)
    as (Hm & _ & Hc & _).
  split; [exact Hm |].
  destruct (Hc (Num 1) (Num 1)) as (Hn & _ & Hd).
  split; [exact Hn | exact Hd].
Defined.
